(* ===== verification/_CoqProject ===== *)
-Q . S2P
Prelude.v
Tree.v
Bst.v
Clear.v
Avl.v
NodeSwap.v
AvlRemove.v
Balance.v
Iterator.v
BstTest.v
EqualPaths.v
EqualPathsTest.v
MapSpec.v
