(* ===== verification/Prelude.v ===== *)
(** * Verification of the hw4 ordered-map library: an AVL tree over a BST

    The repository (src/) implements an ordered key-value map in C++:

    - [src/bst.h]: [Node<Key,Value>] (key, value, parent/left/right pointers) and
      [BinarySearchTree<Key,Value>]: upsert [insert], [remove] (two-child nodes are
      first swapped with their in-order predecessor by [nodeSwap]), [internalFind],
      [find], [operator[]] (throws [std::out_of_range]), in-order iteration through
      [successor] / [predecessor] / [getSmallestNode], [clear] (breadth-first
      teardown with a queue), and the test oracle [isBalanced] with its helpers
      [left_height] / [right_height] / [numChildren].
    - [src/avlbst.h]: [AVLNode] adds an [int8_t] balance factor
      (height(right) - height(left)); [AVLTree] overrides [insert] (leaf insertion,
      parent balance update, then the retrace [insertFix] with single or double
      rotations chosen by [zigzig]) and [remove] (predecessor swap, splice by
      [removal_case_0] / [removal_case_1], then the retrace [removeFix]); the
      rotations [rotateLeft] / [rotateRight] never touch balances.
    - [src/equal-paths.cpp]: [equalPaths], a stand-alone predicate on a plain
      binary tree ("all leaves at the same depth"), with [isLeaf],
      [hasTwoChildren], [distToLeaf], [aliveChild].

    ** How the pointer structure is modelled

    A tree owned by [root_] is the inductive [tree] of [Tree.v]: one node type for
    both trees ([Node l key value balance r]; the BST never reads the balance,
    which its nodes keep at the 0 the AVL constructor starts with).  A [Node*] into the tree together with its
    chain of [parent_] links is a zipper: the focused subtree and the [path] of
    frames from its parent up to the root ([LeftOf] / [RightOf] record on which
    side of its parent the focus hangs, which is what the code tests with
    [node == parent->getLeft()]).  Walking up a parent link pops a frame; the code's
    re-linking of parent/child pointers after a splice or a rotation is [plug],
    which rebuilds the tree from the modified subtree and the unchanged path, and
    [root_] is the result of [plug] with the empty path.  Null pointers are [Leaf]
    or the empty path.  A dereference of a null pointer, which the code never
    guards, is the error [NullDeref] of the result type [result]; the thrown
    [std::out_of_range] is [OutOfRange].  Keys are the template parameter [Key]
    at [int] (Rocq [Z]: the code only compares keys, so no arithmetic on them can
    overflow); values are an arbitrary type [V].  The [int8_t] balance is a [Z]
    and every [updateBalance] wraps it with [wrap8], the two's-complement
    conversion of [int] back to [int8_t].

    The zipper exchanges whole node records where [nodeSwap] re-links
    pointers.  [NodeSwap.v] models that code at the level of pointers, with
    one memory map per member ([parent_], [left_], [right_], [item_],
    [balance_]) and a state and error monad, and proves that on a heap
    storing a tree it produces exactly the tree the zipper operation
    computes.

    ** Files (in dependency order)

    - [Prelude.v] (this file): the result/error type and its [let*] notation,
      [int8_t] wrap-around [wrap8], strictly sorted key lists, the hint
      databases [avl] / [avl_rw] and the tactics [zcase], [zcase1], [inv].
    - [Tree.v]: [Node] data ([tree]), the zipper ([frame], [path], [plug]),
      the [Node] constructor [new_Node] and getters [getItem] / [getValue],
      [empty], [setValue], [numChildren], [internalFind] (both the BST and the
      AVL version), the descent [descend] to an insertion slot and the
      rightmost descent [rightmost] of [predecessor]; the abstract contents
      [elements] (in-order items) with the sorted association-list operations
      [assoc_put] / [assoc_del] / [assoc_find]; the invariants [bst] (in-order
      keys strictly increasing) and [avl] (stored balance = height(right) -
      height(left), in {-1,0,1}) with their zipper versions and boolean
      deciders [bstb] / [avlb].
    - [Bst.v], [Module BinarySearchTree]: the constructor
      [new_BinarySearchTree], [insert], [remove] with [remove_0],
      [remove_1], [predecessor] and [nodeSwap], [find], [operator[]], and the
      oracle [isBalanced] with [left_height] / [right_height].
    - [Clear.v], [Module Clear]: [clear], its queue loop defined with Equations
      by well-founded recursion, and the destructor that runs it.
    - [Avl.v], [Module AVLTree]: the [AVLNode] constructor, balances,
      rotations, [zigzig], [insertFix],
      [insert], and the operations of [remove] ([predecessor], [swapWithPredecessor],
      [removal_case_0], [removal_case_1], [removeFix], [removeAt]); the proofs
      about insertion ([AVLInsertInv]).
    - [NodeSwap.v], [Module NodeSwap]: [BinarySearchTree::nodeSwap] and
      [AVLTree::nodeSwap] on a pointer heap, split into the code's blocks
      ([swapMembers], [fixAdjacent], [relinkNeighbours], [swapRoot]), and
      their refinement of the zipper swaps.
    - [AvlRemove.v], [Module AVLRemoveProofs]: the proofs about removal.
    - [Balance.v], [Module HeightBalance]: the trees [avl_built] from the empty
      tree by AVL operations, their height balance and logarithmic height,
      and [isBalanced] on them.
    - [Iterator.v], [Module Iterator]: the iterator ([current_] as an optional
      zipper), [successor], [getSmallestNode], [begin], [end], [operator*],
      [operator->], [operator++], [operator==], [operator!=] and the
      iteration loop.
    - [BstTest.v], [Module BstTest]: the driver [src/bst-test.cpp] (its
      printed lines, final trees and the destructors run on return) and its
      printing loop on every tree the classes build.
    - [EqualPaths.v], [Module EqualPaths]: [equalPaths] and its helpers on
      their own plain binary tree.
    - [EqualPathsTest.v], [Module EqualPathsTest]: the driver
      [src/equal-paths-test.cpp] with its hand-managed heap: a state monad
      over cells indexed by address, the global pointers, [new], [setNode],
      [delete] and the printed verdicts.
    - [MapSpec.v], [Module MapRefinement] (stdpp): the ordered-map interface
      ([Class MapOps] with the law classes [InsertLookupLaws] and
      [RemoveLaws]) against [gmap Z V], its instances for the two C++ classes,
      and a client [run] proved once against the interface.

    ** What is proved

    - AVL insertion (Avl.v): [insert] keeps [avl] and [bst] and is upsert on
      the sorted contents; [insertFix] restores [avl] after a one-level growth
      and never changes the items; a second insertion of a key only replaces
      its value.
    - AVL removal (AvlRemove.v): [remove] keeps [avl] and [bst]; it deletes
      exactly the key's item except when the key is at a root with at most
      one child, which the code leaves in place (a bug); [removeFix] restores
      [avl] after a child shrank and never changes the items.
    - Pointer swap (NodeSwap.v): on a heap with consistent links,
      [nodeSwap n1 n2] renames [n1] and [n2] in the whole pointer graph (the
      adjacent, sibling and root cases included) and keeps items with their
      nodes; on a heap storing a tree, [BinarySearchTree::nodeSwap] with the
      predecessor stores the tree [BinarySearchTree.nodeSwap] computes, and
      [AVLTree::nodeSwap] (which swaps the balances back) the tree
      [AVLTree.swapWithPredecessor] computes.
    - BST (Bst.v): [insert] is upsert, [remove] never dereferences NULL and
      deletes the key (root included), [operator[]] returns the value or
      [OutOfRange]; [isBalanced] accepts an unbalanced tree (Bst.v) and
      rejects a balanced AVL tree (Balance.v).
    - Balance (Balance.v): every AVL-built tree is height balanced and has
      [2 ^ (height / 2) <= size + 1].
    - Iteration (Iterator.v): [successor] / [predecessor] step to the next /
      previous node of the same tree ([predecessor] dereferences NULL before
      the first node); the loop from [begin()] visits [elements] in order and
      [begin()] on an empty tree dereferences NULL; iterating from [find(k)]
      visits the keys [>= k]; [operator++] reaches [end()] from any node;
      on an ordered tree [operator==] (which compares items) holds exactly
      for iterators on the same node.
    - Test drivers (BstTest.v, EqualPathsTest.v): [bst-test]'s printing
      loop, on any tree an [AVLTree] or a [BinarySearchTree] builds by
      [insert] and [remove], prints every item once with strictly increasing
      keys (and crashes on the empty tree, through [begin()]), and its
      [find(k) != end()] test prints "Found" exactly when the key is stored;
      each test of [equal-paths-test], from any heap in which its globals
      point to distinct live nodes, prints the verdict on the tree its
      [setNode] calls describe, whatever the nodes held before.
    - [clear] (Clear.v) deletes each node exactly once, in level order, and
      empties the tree.
    - [equalPaths] (EqualPaths.v) is complete, sound on full trees, and not
      sound in general.
    - Maps (MapSpec.v): any sequence of [insert] / [remove] / [operator[]] on
      a [BinarySearchTree], and of [insert] / [operator[]] on an [AVLTree],
      returns what the same calls on a [gmap] return; inserting items into a
      [BinarySearchTree] and removing all their keys empties it; after any
      such sequence, iterating the [BinarySearchTree] from [begin()] visits
      exactly the bindings of the [gmap], in key order.

    ** Fuel and measures

    The iteration loop [Iterator.iterate] takes fuel (the C++ loop has no
    bound); [traverse_elements] shows that [size t] steps are enough, so the
    loop provably returns.  [clear]'s loop needs no fuel: its measure
    [2 * (nodes in the queue) + (queue length)] decreases at every step.
    The heap readers [NodeSwap.shape] / [NodeSwap.read] and
    [EqualPathsTest.load] take fuel bounding the depth (a heap may hold a
    cycle); the theorems give the fuel explicitly: any bound on the depth
    for [shape], and the number of heap cells, at least the number of
    distinct nodes, for [load].  The reference level order
    [Clear.level_order] is structural ([levels] recurses on the tree).  All other recursion is
    structural (on the tree or on the path).

    ** Not modelled

    The ASCII printer ([print], [printRoot], [prettyPrintBST] and the final
    [ct.print()] of the driver: pure output, and print_bst.h is not in src/);
    the iteration loop tests [it != end()] by the NULL test it reduces to
    ([operator_neq_end]); the memory of the two tree classes (allocation is
    the creation of a [Node], [delete] the list of deleted items of
    [clear]; the equal-paths driver, which manages nodes by hand, and
    [nodeSwap] in NodeSwap.v have an explicit heap); the empty destructors [~Node] / [~AVLNode];
    [Node::getKey], read by pattern matching in the loops, which only call
    it on non-NULL nodes; the unused [KeyError]. *)

From Stdlib Require Import ZArith List Lia Sorted.
Import ListNotations.

Declare Scope avl_scope.
Delimit Scope avl_scope with avl.
Open Scope Z_scope.

(** ** Errors the C++ code can raise *)

(** [OutOfRange] is the [std::out_of_range] thrown by [operator[]];
    [NullDeref] stands for a dereference of a null pointer, which the code does
    not guard against; [UseAfterFree] for an access to, or a second [delete]
    of, a node already deleted (in the test drivers, which manage nodes by
    hand). *)
Inductive error : Type :=
| OutOfRange
| NullDeref
| UseAfterFree.

Inductive result (A : Type) : Type :=
| Ok (a : A)
| Err (e : error).
Arguments Ok {A} a.
Arguments Err {A} e.

Definition bind {A B : Type} (m : result A) (k : A -> result B) : result B :=
  match m with
  | Ok a => k a
  | Err e => Err e
  end.

Notation "'let*' x ':=' m 'in' k" := (bind m (fun x => k))
  (at level 10, x name, m at level 100, k at level 200) : avl_scope.

(** ** [int8_t] arithmetic *)

(** Conversion of an [int] to [int8_t] (two's complement, as the compilers the
    code targets do and as C++20 prescribes). *)
Definition wrap8 (z : Z) : Z := (z + 128) mod 256 - 128.

Lemma wrap8_small z : -128 <= z <= 127 -> wrap8 z = z.
Proof.
  intros H. unfold wrap8. rewrite Z.mod_small by lia. lia.
Qed.

Lemma wrap8_range z : -128 <= wrap8 z <= 127.
Proof.
  unfold wrap8. pose proof (Z.mod_pos_bound (z + 128) 256). lia.
Qed.

(** ** Strictly sorted key lists *)

Lemma StronglySorted_app_iff (l1 l2 : list Z) :
  StronglySorted Z.lt (l1 ++ l2) <->
  StronglySorted Z.lt l1 /\ StronglySorted Z.lt l2 /\
  Forall (fun x => Forall (Z.lt x) l2) l1.
Proof.
  induction l1 as [|x l1 IH]; simpl.
  - split; [intros H; repeat split; auto; constructor | tauto].
  - split.
    + intros H. apply StronglySorted_inv in H as [H1 H2].
      apply IH in H1 as (A & B & C). apply Forall_app in H2 as [D E].
      repeat split; auto. constructor; auto.
    + intros (H1 & H2 & H3). apply StronglySorted_inv in H1 as [A B].
      inversion H3; subst. constructor.
      * apply IH. auto.
      * apply Forall_app. auto.
Qed.

Lemma StronglySorted_mid (l1 l2 : list Z) (k : Z) :
  StronglySorted Z.lt (l1 ++ k :: l2) <->
  StronglySorted Z.lt l1 /\ StronglySorted Z.lt l2 /\
  Forall (Z.gt k) l1 /\ Forall (Z.lt k) l2.
Proof.
  rewrite StronglySorted_app_iff. split.
  - intros (A & B & C). apply StronglySorted_inv in B as [B1 B2].
    repeat split; auto.
    eapply Forall_impl; [|exact C]. intros x Hx. inversion Hx; lia.
  - intros (A & B & C & D). repeat split; auto.
    + constructor; auto.
    + eapply Forall_impl; [|exact C]. intros x Hx. constructor; [lia|].
      eapply Forall_impl; [|exact D]. intros y Hy. lia.
Qed.

(** ** Automation *)

Create HintDb avl discriminated.
Create Rewrite HintDb avl_rw.
#[export] Hint Resolve wrap8_small wrap8_range : avl.

(** Case analysis on the boolean comparisons of [Z] that the code performs. *)
Ltac zcase :=
  repeat match goal with
  | |- context [Z.eqb ?a ?b] =>
      let E := fresh "Hc" in destruct (Z.eqb_spec a b) as [E|E]; [subst|]
  | |- context [Z.ltb ?a ?b] => let E := fresh "Hc" in destruct (Z.ltb_spec a b) as [E|E]
  | |- context [Z.leb ?a ?b] => let E := fresh "Hc" in destruct (Z.leb_spec a b) as [E|E]
  end.

(** One step of [zcase]: split on the first comparison found. *)
Ltac zcase1 :=
  match goal with
  | |- context [Z.eqb ?a ?b] =>
      let E := fresh "Hc" in destruct (Z.eqb_spec a b) as [E|E]; [subst|]
  | |- context [Z.ltb ?a ?b] => let E := fresh "Hc" in destruct (Z.ltb_spec a b) as [E|E]
  end.

Ltac inv H := inversion H; subst; clear H.

Close Scope Z_scope.
