(* ===== verification/Tree.v ===== *)
(** Node data of [src/bst.h] and [src/avlbst.h] with the [Node] constructor
    and item getters, parent links as a zipper, the
    descent loops shared by [BinarySearchTree] and [AVLTree] ([internalFind],
    the insertion walk), the abstract contents of a tree (its in-order list of
    items, a strictly sorted association list) and the invariants [bst] and
    [avl] with their zipper forms. *)

From Stdlib Require Import ZArith List Lia Sorted.
From S2P Require Import Prelude.
Import ListNotations.
Open Scope Z_scope.
Open Scope bool_scope.

(** [Node<Key,Value>] / [AVLNode<Key,Value>]: left child, key, value, balance
    ([int8_t balance_], 0 for plain BST nodes), right child. [Leaf] is NULL. *)
Inductive tree (V : Type) : Type :=
| Leaf : tree V
| Node (l : tree V) (k : Z) (v : V) (b : Z) (r : tree V) : tree V.
Arguments Leaf {V}.
Arguments Node {V} l k v b r.

(** One [parent_] link: the focus is the left child of a node with key [k],
    value [v], balance [b] and right child [r], or the right child of a node
    with left child [l]. *)
Inductive frame (V : Type) : Type :=
| LeftOf (k : Z) (v : V) (b : Z) (r : tree V) : frame V
| RightOf (l : tree V) (k : Z) (v : V) (b : Z) : frame V.
Arguments LeftOf {V} k v b r.
Arguments RightOf {V} l k v b.

(** The chain of parents of a node, nearest first; [[]] when [getParent()] is
    NULL. *)
Definition path (V : Type) : Type := list (frame V).

(** Which child of its parent a node is ([n == p->getLeft()]). *)
Inductive side : Type := L | R.

Section Tree.
Context {V : Type}.

(** Re-linking a subtree under its parent ([parent->setLeft(child)] and
    [child->setParent(parent)]). *)
Definition plug_frame (t : tree V) (f : frame V) : tree V :=
  match f with
  | LeftOf k v b r => Node t k v b r
  | RightOf l k v b => Node l k v b t
  end.

(** The tree reached from a node by following parent links up to [root_]. *)
Fixpoint plug (t : tree V) (ctx : path V) : tree V :=
  match ctx with
  | [] => t
  | f :: c => plug (plug_frame t f) c
  end.

(** [BinarySearchTree::empty]: [root_ == NULL]. *)
Definition empty (t : tree V) : bool :=
  match t with Leaf => true | Node _ _ _ _ _ => false end.

(** [Node::setValue]. *)
Definition setValue (value : V) (t : tree V) : tree V :=
  match t with Leaf => Leaf | Node l k _ b r => Node l k value b r end.

(** [new Node<Key,Value>(key, value, parent)]: the constructor stores the
    item and sets [left_] and [right_] to NULL; the [parent_] link is the
    path the caller plugs the node into.  The balance slot is 0 (plain
    [Node]s have none). *)
Definition new_Node (key : Z) (value : V) : tree V := Node Leaf key value 0 Leaf.

(** [Node::getItem] and [Node::getValue], called through a node pointer:
    through NULL they dereference it. *)
Definition getItem (t : tree V) : result (Z * V) :=
  match t with Leaf => Err NullDeref | Node _ k v _ _ => Ok (k, v) end.

Definition getValue (t : tree V) : result V :=
  match t with Leaf => Err NullDeref | Node _ _ v _ _ => Ok v end.

(** [BinarySearchTree::numChildren]. *)
Definition numChildren (t : tree V) : nat :=
  match t with
  | Leaf => 0
  | Node l _ _ _ r =>
      if empty l && empty r then 0
      else if negb (empty l) && negb (empty r) then 2
      else 1
  end.

(** [BinarySearchTree::internalFind] (and its copy [AVLTree::internalFind]):
    the loop from [root_] that compares with [==], then [<], then [>]; the
    result is the node found with its parents, or NULL. *)
Fixpoint internalFind_loop (key : Z) (t : tree V) (ctx : path V)
  : option (tree V * path V) :=
  match t with
  | Leaf => None
  | Node l k v b r =>
      if key =? k then Some (t, ctx)
      else if key <? k then internalFind_loop key l (LeftOf k v b r :: ctx)
      else (* key > current_key *) internalFind_loop key r (RightOf l k v b :: ctx)
  end.

Definition internalFind (key : Z) (t : tree V) : option (tree V * path V) :=
  if empty t then None else internalFind_loop key t [].

(** The insertion walk of [insert] (both trees): go left when [key < key of
    current], else right, until the child on that side is NULL; the result is
    the empty slot with its parents (the head frame is the new node's parent). *)
Fixpoint descend (key : Z) (t : tree V) (ctx : path V) : path V :=
  match t with
  | Leaf => ctx
  | Node l k v b r =>
      if key <? k then descend key l (LeftOf k v b r :: ctx)
      else descend key r (RightOf l k v b :: ctx)
  end.

(** The loop of [predecessor] (both trees) for a node with a left child,
    started at that child: [while(temp->getRight() != NULL) temp = temp->getRight()];
    the result is the rightmost node with the parents met on the way. *)
Fixpoint rightmost (t : tree V) (ctx : path V) : tree V * path V :=
  match t with
  | Node l k v b (Node _ _ _ _ _ as r) => rightmost r (RightOf l k v b :: ctx)
  | _ => (t, ctx)
  end.

(** ** Abstract contents *)

(** In-order items ([std::pair<const Key, Value>]) of a tree: what iteration
    from [begin()] yields. *)
Fixpoint elements (t : tree V) : list (Z * V) :=
  match t with
  | Leaf => []
  | Node l k v _ r => elements l ++ (k, v) :: elements r
  end.

Definition keys (t : tree V) : list Z := map fst (elements t).

Fixpoint size (t : tree V) : nat :=
  match t with
  | Leaf => 0
  | Node l _ _ _ r => S (size l + size r)
  end.

(** Items before / after the focus of a zipper, in order. *)
Fixpoint ctx_pre (ctx : path V) : list (Z * V) :=
  match ctx with
  | [] => []
  | LeftOf _ _ _ _ :: c => ctx_pre c
  | RightOf l k v _ :: c => ctx_pre c ++ elements l ++ [(k, v)]
  end.

Fixpoint ctx_post (ctx : path V) : list (Z * V) :=
  match ctx with
  | [] => []
  | LeftOf k v _ r :: c => (k, v) :: elements r ++ ctx_post c
  | RightOf _ _ _ _ :: c => ctx_post c
  end.

(** The BST order invariant: in-order keys strictly increasing. *)
Definition bst (t : tree V) : Prop := StronglySorted Z.lt (keys t).

(** ** Sorted association lists: the abstract map a tree stands for *)

(** Upsert into a sorted association list. *)
Fixpoint assoc_put (k : Z) (v : V) (l : list (Z * V)) : list (Z * V) :=
  match l with
  | [] => [(k, v)]
  | (k', v') :: l' =>
      if k <? k' then (k, v) :: l
      else if k' <? k then (k', v') :: assoc_put k v l'
      else (k, v) :: l'
  end.

(** Removal of a key from a sorted association list. *)
Fixpoint assoc_del (k : Z) (l : list (Z * V)) : list (Z * V) :=
  match l with
  | [] => []
  | (k', v') :: l' =>
      if k <? k' then l
      else if k' <? k then (k', v') :: assoc_del k l'
      else l'
  end.

Fixpoint assoc_find (k : Z) (l : list (Z * V)) : option V :=
  match l with
  | [] => None
  | (k', v') :: l' => if k =? k' then Some v' else assoc_find k l'
  end.

(** ** Heights and the AVL invariant *)

Fixpoint height (t : tree V) : nat :=
  match t with
  | Leaf => 0%nat
  | Node l _ _ _ r => S (Nat.max (height l) (height r))
  end.

(** The balance factor a node must store: height(right) - height(left). *)
Definition hdiff (l r : tree V) : Z := Z.of_nat (height r) - Z.of_nat (height l).

(** Every stored balance is the true height difference and lies in {-1,0,1}. *)
Fixpoint avl (t : tree V) : Prop :=
  match t with
  | Leaf => True
  | Node l _ _ b r => avl l /\ avl r /\ b = hdiff l r /\ -1 <= b <= 1
  end.

(** The path of a zipper is AVL-consistent for a focus of height [h]: plugging
    any AVL tree of height [h] gives an AVL tree. *)
Fixpoint ctx_ok (h : nat) (ctx : path V) : Prop :=
  match ctx with
  | [] => True
  | LeftOf _ _ b r :: c =>
      avl r /\ b = Z.of_nat (height r) - Z.of_nat h /\ -1 <= b <= 1 /\
      ctx_ok (S (Nat.max h (height r))) c
  | RightOf l _ _ b :: c =>
      avl l /\ b = Z.of_nat h - Z.of_nat (height l) /\ -1 <= b <= 1 /\
      ctx_ok (S (Nat.max (height l) h)) c
  end.

(** Executable versions of the invariants. *)
Fixpoint sortedb (l : list Z) : bool :=
  match l with
  | [] => true
  | x :: l' => forallb (Z.ltb x) l' && sortedb l'
  end.

Definition bstb (t : tree V) : bool := sortedb (keys t).

Fixpoint avlb (t : tree V) : bool :=
  match t with
  | Leaf => true
  | Node l _ _ b r =>
      avlb l && avlb r && (b =? hdiff l r) && (-1 <=? b) && (b <=? 1)
  end.

(** The search for [key] goes through frame [f]: [key] is smaller than the
    key of a parent whose left subtree holds the focus, larger otherwise. *)
Definition frame_dir (key : Z) (f : frame V) : Prop :=
  match f with
  | LeftOf pk _ _ _ => key < pk
  | RightOf _ pk _ _ => pk < key
  end.

End Tree.

Section TreeLemmas.
Context {V : Type}.
Implicit Types (t : tree V) (ctx : path V) (A B : list (Z * V)).

Lemma app_mid_assoc {X : Type} (A B C D : list X) (x : X) :
  A ++ (B ++ x :: C) ++ D = (A ++ B) ++ x :: (C ++ D).
Proof. now rewrite <- !app_assoc. Qed.

Lemma plug_cons t f c : plug t (f :: c) = plug (plug_frame t f) c.
Proof. reflexivity. Qed.

Lemma plug_app t c1 c2 : plug t (c1 ++ c2) = plug (plug t c1) c2.
Proof. revert t; induction c1; simpl; auto. Qed.

Lemma ctx_pre_app (c1 c2 : path V) : ctx_pre (c1 ++ c2) = ctx_pre c2 ++ ctx_pre c1.
Proof.
  induction c1 as [|[] c1 IH]; simpl; [now rewrite app_nil_r | auto |].
  now rewrite IH, <- app_assoc.
Qed.

Lemma ctx_post_app (c1 c2 : path V) : ctx_post (c1 ++ c2) = ctx_post c1 ++ ctx_post c2.
Proof. induction c1 as [|[] c1 IH]; simpl; auto. now rewrite IH, <- app_assoc. Qed.

Lemma elements_plug_frame_eq t1 t2 (f : frame V) :
  elements t1 = elements t2 -> elements (plug_frame t1 f) = elements (plug_frame t2 f).
Proof. intros H. destruct f; simpl; now rewrite H. Qed.

Lemma elements_plug t ctx :
  elements (plug t ctx) = ctx_pre ctx ++ elements t ++ ctx_post ctx.
Proof.
  revert t; induction ctx as [|[k v b r | l k v b] c IH]; intros t; simpl.
  - now rewrite app_nil_r.
  - rewrite IH; simpl. now repeat rewrite <- app_assoc.
  - rewrite IH; simpl. now repeat rewrite <- app_assoc.
Qed.

(** Items on both sides of a key in a strictly sorted list. *)
Lemma sorted_split A B k v :
  StronglySorted Z.lt (map fst (A ++ (k, v) :: B)) ->
  Forall (fun p => fst p < k) A /\ Forall (fun p => k < fst p) B.
Proof.
  rewrite map_app; simpl. intros H. apply StronglySorted_mid in H as (_ & _ & H1 & H2).
  rewrite Forall_map in H1, H2. split.
  - eapply Forall_impl; [|exact H1]. simpl; intros; lia.
  - eapply Forall_impl; [|exact H2]. simpl; intros; lia.
Qed.

Lemma sortedb_spec (l : list Z) : sortedb l = true <-> StronglySorted Z.lt l.
Proof.
  induction l as [|x l IH]; simpl.
  - split; auto using SSorted_nil.
  - rewrite Bool.andb_true_iff, forallb_forall, IH. split.
    + intros [H1 H2]. constructor; auto. apply Forall_forall.
      intros y Hy. apply Z.ltb_lt; auto.
    + intros H. apply StronglySorted_inv in H as [H1 H2]. split; auto.
      intros y Hy. apply Z.ltb_lt. eapply Forall_forall in H2; eauto.
Qed.

Lemma bstb_spec t : bstb t = true <-> bst t.
Proof. apply sortedb_spec. Qed.

Lemma avlb_spec t : avlb t = true <-> avl t.
Proof.
  induction t as [|l IHl k v b r IHr]; simpl; [tauto|].
  rewrite !Bool.andb_true_iff, IHl, IHr, Z.eqb_eq, Z.leb_le, Z.leb_le. tauto.
Qed.

(** The directions used to check the invariants of a concrete tree by
    evaluation. *)
Lemma avl_of_avlb t : avlb t = true -> avl t.
Proof. apply avlb_spec. Qed.

Lemma bst_of_bstb t : bstb t = true -> bst t.
Proof. apply bstb_spec. Qed.

(** ** The AVL invariant along a zipper *)

Lemma avl_plug t ctx : avl t -> ctx_ok (height t) ctx -> avl (plug t ctx).
Proof.
  revert t; induction ctx as [|[k v b r | l k v b] c IH]; intros t Ht Hc;
    simpl in *; auto; destruct Hc as (H1 & H2 & H3 & H4);
    apply IH; simpl; auto; unfold hdiff; repeat split; auto; lia.
Qed.

Lemma avl_plug_inv t ctx : avl (plug t ctx) -> avl t /\ ctx_ok (height t) ctx.
Proof.
  revert t; induction ctx as [|[k v b r | l k v b] c IH]; intros t H;
    simpl in *; auto; apply IH in H as [(H1 & H2 & H3 & H4) H5];
    unfold hdiff in *; simpl in H5; repeat split; auto; lia.
Qed.

Lemma height_plug t1 t2 ctx :
  height t1 = height t2 -> height (plug t1 ctx) = height (plug t2 ctx).
Proof.
  revert t1 t2; induction ctx as [|[] c IH]; intros t1 t2 H; simpl; auto;
    apply IH; simpl; lia.
Qed.

(** ** Search *)

Lemma internalFind_loop_found key t ctx n c :
  internalFind_loop key t ctx = Some (n, c) ->
  plug n c = plug t ctx /\ exists l v b r, n = Node l key v b r.
Proof.
  revert ctx; induction t as [|l IHl k v b r IHr]; intros ctx; simpl; [discriminate|].
  zcase; intros Hf.
  - inv Hf. eauto 10.
  - apply IHl in Hf; simpl in Hf; tauto.
  - apply IHr in Hf; simpl in Hf; tauto.
Qed.

Lemma internalFind_loop_absent key t ctx :
  bst t -> internalFind_loop key t ctx = None -> ~ In key (keys t).
Proof.
  unfold bst, keys.
  revert ctx; induction t as [|l IHl k v b r IHr]; intros ctx Hs; simpl in *; [auto|].
  rewrite map_app in *; simpl in *.
  apply StronglySorted_mid in Hs as (Hl & Hr & Hlk & Hkr).
  rewrite in_app_iff; simpl. zcase; [discriminate| |]; intros Hf [Hin|[Hin|Hin]].
  - eapply IHl; eauto.
  - lia.
  - eapply Forall_forall in Hkr; [|exact Hin]. lia.
  - eapply Forall_forall in Hlk; [|exact Hin]. lia.
  - lia.
  - eapply IHr; eauto.
Qed.

(** The insertion walk splits the items of a subtree around the new key. *)
Lemma descend_spec key t ctx :
  bst t -> ~ In key (keys t) ->
  exists A B, elements t = A ++ B /\
    Forall (fun p => fst p < key) A /\ Forall (fun p => key < fst p) B /\
    ctx_pre (descend key t ctx) = ctx_pre ctx ++ A /\
    ctx_post (descend key t ctx) = B ++ ctx_post ctx.
Proof.
  unfold bst, keys.
  revert ctx; induction t as [|l IHl k v b r IHr]; intros ctx Hs Hin; simpl.
  - exists [], []. simpl. rewrite !app_nil_r. repeat split; auto.
  - simpl in *. rewrite map_app in *; simpl in *.
    apply StronglySorted_mid in Hs as (Hl & Hr & Hlk & Hkr).
    rewrite in_app_iff in Hin; simpl in Hin.
    rewrite Forall_map in Hlk, Hkr. zcase.
    + destruct (IHl (LeftOf k v b r :: ctx)) as (A & B & E & HA & HB & Hpre & Hpost);
        auto.
      exists A, (B ++ (k, v) :: elements r). simpl in Hpre, Hpost.
      rewrite E, Hpre, Hpost, <- !app_assoc. repeat split; auto.
      apply Forall_app; split; auto. constructor; simpl; [lia|].
      eapply Forall_impl; [|exact Hkr]. simpl; intros; lia.
    + destruct (IHr (RightOf l k v b :: ctx)) as (A & B & E & HA & HB & Hpre & Hpost);
        auto.
      exists (elements l ++ (k, v) :: A), B. simpl in Hpre, Hpost.
      rewrite E, Hpre, Hpost, <- !app_assoc. repeat split; auto.
      apply Forall_app; split.
      * eapply Forall_impl; [|exact Hlk]. simpl; intros; lia.
      * constructor; simpl; auto. assert (k <> key) by tauto. lia.
Qed.

(** ** The sorted association list operations *)

Lemma assoc_put_mid k v A B :
  Forall (fun p => fst p < k) A -> Forall (fun p => k < fst p) B ->
  assoc_put k v (A ++ B) = A ++ (k, v) :: B.
Proof.
  induction A as [|[k' v'] A IH]; intros HA HB; simpl.
  - destruct B as [|[k'' v''] B]; simpl; auto. inv HB. simpl in *.
    zcase; first [reflexivity | lia].
  - inv HA. simpl in *. zcase; try lia. now rewrite IH.
Qed.

Lemma assoc_put_replace k v v0 A B :
  Forall (fun p => fst p < k) A ->
  assoc_put k v (A ++ (k, v0) :: B) = A ++ (k, v) :: B.
Proof.
  induction A as [|[k' v'] A IH]; intros HA; simpl.
  - zcase; first [reflexivity | lia].
  - inv HA. simpl in *. zcase; try lia. now rewrite IH.
Qed.

Lemma assoc_del_mid k v0 A B :
  Forall (fun p => fst p < k) A -> assoc_del k (A ++ (k, v0) :: B) = A ++ B.
Proof.
  induction A as [|[k' v'] A IH]; intros HA; simpl.
  - zcase; first [reflexivity | lia].
  - inv HA. simpl in *. zcase; try lia. now rewrite IH.
Qed.

Lemma assoc_del_absent k (l : list (Z * V)) : ~ In k (map fst l) -> assoc_del k l = l.
Proof.
  induction l as [|[k' v'] l IH]; simpl; intros Hn; auto.
  zcase; auto; [rewrite IH; auto | lia].
Qed.

Lemma assoc_find_mid k v A B :
  Forall (fun p => fst p < k) A -> assoc_find k (A ++ (k, v) :: B) = Some v.
Proof.
  induction A as [|[k' v'] A IH]; intros HA; simpl.
  - now rewrite Z.eqb_refl.
  - inv HA. simpl in *. zcase; [lia | auto].
Qed.

Lemma assoc_find_absent k (l : list (Z * V)) : ~ In k (map fst l) -> assoc_find k l = None.
Proof.
  induction l as [|[k' v'] l IH]; simpl; intros Hn; auto. zcase; [tauto | auto].
Qed.

(** Inserting a key between the smaller and the larger items keeps the keys
    strictly sorted. *)
Lemma sorted_insert_mid k v A B :
  StronglySorted Z.lt (map fst (A ++ B)) ->
  Forall (fun p => fst p < k) A -> Forall (fun p => k < fst p) B ->
  StronglySorted Z.lt (map fst (A ++ (k, v) :: B)).
Proof.
  rewrite !map_app; simpl. intros H HA HB.
  apply StronglySorted_app_iff in H as (H1 & H2 & _).
  apply StronglySorted_mid. rewrite !Forall_map. repeat split; auto.
  eapply Forall_impl; [|exact HA]. simpl; intros; lia.
Qed.

(** Changing the value of an item keeps the keys. *)
Lemma keys_replace k v v0 A B :
  map fst (A ++ (k, v) :: B) = map fst (A ++ (k, v0) :: B).
Proof. now rewrite !map_app. Qed.

Lemma descend_nil key t ctx : descend key t ctx = [] -> t = Leaf /\ ctx = [].
Proof.
  revert ctx; induction t as [|l IHl k v b r IHr]; intros ctx; simpl; auto.
  zcase; intros H; [apply IHl in H | apply IHr in H]; destruct H; discriminate.
Qed.

Lemma assoc_put_keys k v (l : list (Z * V)) x :
  In x (map fst (assoc_put k v l)) -> x = k \/ In x (map fst l).
Proof.
  induction l as [|[k' v'] l IH]; simpl; [intuition congruence|].
  zcase; simpl; intros [Hx|Hx]; try apply IH in Hx; intuition congruence.
Qed.

Lemma assoc_put_sorted k v (l : list (Z * V)) :
  StronglySorted Z.lt (map fst l) -> StronglySorted Z.lt (map fst (assoc_put k v l)).
Proof.
  induction l as [|[k' v'] l IH]; simpl; intros Hs.
  - repeat constructor.
  - apply StronglySorted_inv in Hs as [H1 H2]. zcase; simpl.
    + constructor; [constructor; auto|]. constructor; [lia|].
      eapply Forall_impl; [|exact H2]. simpl; intros; lia.
    + constructor; auto. apply Forall_forall. intros x Hx.
      apply assoc_put_keys in Hx as [->|Hx]; [lia|].
      eapply Forall_forall in H2; eauto.
    + assert (k = k') by lia. subst. constructor; auto.
Qed.

Lemma descend_plug key t ctx : plug Leaf (descend key t ctx) = plug t ctx.
Proof.
  revert ctx; induction t as [|l IHl k v b r IHr]; intros ctx; simpl; auto.
  zcase; [rewrite IHl | rewrite IHr]; reflexivity.
Qed.

Lemma internalFind_found key t n c :
  internalFind key t = Some (n, c) ->
  plug n c = t /\ exists l v b r, n = Node l key v b r.
Proof.
  unfold internalFind. destruct (empty t); [discriminate|].
  intros H; apply internalFind_loop_found in H; exact H.
Qed.

Lemma assoc_del_keys k (l : list (Z * V)) x :
  In x (map fst (assoc_del k l)) -> In x (map fst l).
Proof.
  induction l as [|[k' v'] l IH]; simpl; [tauto|].
  zcase; simpl; intuition.
Qed.

Lemma assoc_del_sorted k (l : list (Z * V)) :
  StronglySorted Z.lt (map fst l) -> StronglySorted Z.lt (map fst (assoc_del k l)).
Proof.
  induction l as [|[k' v'] l IH]; simpl; intros Hs; auto.
  apply StronglySorted_inv in Hs as [H1 H2]. zcase; simpl; auto.
  - constructor; auto.
  - constructor; auto. apply Forall_forall. intros x Hx.
    apply assoc_del_keys in Hx. eapply Forall_forall in H2; eauto.
Qed.

Lemma assoc_put_put k v1 v2 (l : list (Z * V)) :
  assoc_put k v2 (assoc_put k v1 l) = assoc_put k v2 l.
Proof.
  induction l as [|[k' v'] l IH]; simpl.
  - now rewrite Z.ltb_irrefl.
  - zcase; simpl; rewrite ?Z.ltb_irrefl; zcase; try lia; auto. now rewrite IH.
Qed.

Lemma length_assoc_put k v (l : list (Z * V)) :
  StronglySorted Z.lt (map fst l) ->
  length (assoc_put k v l) =
  (match assoc_find k l with Some _ => length l | None => S (length l) end)%nat.
Proof.
  induction l as [|[k' v'] l IH]; simpl; auto. intros Hs.
  apply StronglySorted_inv in Hs as [Hs Hl].
  assert (Hn : k < k' -> assoc_find k l = None).
  { intros Hk. apply assoc_find_absent. intros Hin.
    eapply Forall_forall in Hl; eauto. lia. }
  zcase; simpl; rewrite ?IH, ?Hn by auto;
    repeat match goal with |- context [match ?o with Some _ => _ | None => _ end] =>
      destruct o end; simpl; lia.
Qed.

Lemma assoc_find_put_eq k v (l : list (Z * V)) : assoc_find k (assoc_put k v l) = Some v.
Proof.
  induction l as [|[k' v'] l IH]; simpl; [now rewrite Z.eqb_refl|].
  zcase; simpl; rewrite ?Z.eqb_refl; auto. zcase; [lia | auto].
Qed.

Lemma size_elements t : size t = length (elements t).
Proof.
  induction t as [|l IHl k v b r IHr]; simpl; auto.
  rewrite length_app; simpl. lia.
Qed.

(** The predecessor loop ends at a node without right child, below the start
    through right links only (so nothing of the subtree follows it). *)
Lemma rightmost_spec t ctx q c' :
  rightmost t ctx = (q, c') -> t <> Leaf ->
  exists d pl pk pv pb, c' = d ++ ctx /\ q = Node pl pk pv pb Leaf /\
    plug q d = t /\ ctx_post d = [].
Proof.
  revert ctx; induction t as [|l _ k v b r IHr]; intros ctx Hr Hn; [congruence|].
  destruct r as [|rl rk rv rb rr].
  - simpl in Hr. inv Hr. exists [], l, k, v, b. auto.
  - cbn [rightmost] in Hr. apply IHr in Hr as (d & pl & pk & pv & pb & -> & -> & Hq & Hd);
      [|discriminate].
    exists (d ++ [RightOf l k v b]), pl, pk, pv, pb.
    rewrite <- app_assoc, plug_app, Hq, ctx_post_app, Hd. auto.
Qed.

Lemma rightmost_app t c1 c2 :
  rightmost t (c1 ++ c2) = (fst (rightmost t c1), snd (rightmost t c1) ++ c2).
Proof.
  revert c1; induction t as [|l _ k v b r IHr]; intros c1; [reflexivity|].
  destruct r as [|rl rk rv rb rr]; [reflexivity|].
  cbn [rightmost]. exact (IHr (RightOf l k v b :: c1)).
Qed.

(** Deleting the key of a found node from the sorted contents. *)
Lemma assoc_del_found l k v b r ctx :
  bst (plug (Node l k v b r) ctx) ->
  assoc_del k (elements (plug (Node l k v b r) ctx)) =
  ctx_pre ctx ++ elements l ++ elements r ++ ctx_post ctx.
Proof.
  unfold bst, keys. rewrite elements_plug. cbn [elements]. rewrite app_mid_assoc.
  intros Hs. rewrite assoc_del_mid; [now rewrite <- app_assoc|].
  eapply sorted_split; eauto.
Qed.

(** The contents around a node moved to the place of its predecessor [pl],
    found at the end of the right spine [d] of its left subtree. *)
Lemma swap_contents pl pk pv pb x r d ctx :
  ctx_post d = [] ->
  ctx_pre (d ++ LeftOf pk pv x r :: ctx) ++ elements pl ++ elements (@Leaf V) ++
    ctx_post (d ++ LeftOf pk pv x r :: ctx) =
  ctx_pre ctx ++ elements (plug (Node pl pk pv pb Leaf) d) ++ elements r ++ ctx_post ctx.
Proof.
  intros Hd. rewrite ctx_pre_app, ctx_post_app, Hd, elements_plug, Hd. cbn.
  rewrite !app_nil_r. now repeat rewrite <- app_assoc.
Qed.

(** ** The two outcomes of the search that starts an insertion *)

Lemma internalFind_absent key t :
  bst t -> internalFind key t = None -> ~ In key (keys t).
Proof.
  unfold internalFind. destruct t; [simpl; auto|]. apply internalFind_loop_absent.
Qed.

(** An existing key gets the new value in place: upsert. *)
Lemma elements_setValue_found key value t n c :
  bst t -> internalFind key t = Some (n, c) ->
  elements (plug (setValue value n) c) = assoc_put key value (elements t).
Proof.
  unfold internalFind. destruct (empty t); [discriminate|]. intros Hs Hf.
  apply internalFind_loop_found in Hf as [Ht (l & v0 & b & r & ->)]. simpl in Ht.
  subst t. unfold bst, keys in Hs. rewrite !elements_plug in *. simpl in *.
  rewrite app_mid_assoc in Hs. rewrite !app_mid_assoc, assoc_put_replace; auto.
  eapply sorted_split; eauto.
Qed.

(** A new node hung in the slot the insertion walk finds: upsert. *)
Lemma elements_descend_slot key value b t :
  bst t -> ~ In key (keys t) ->
  elements (plug (Node Leaf key value b Leaf) (descend key t [])) =
  assoc_put key value (elements t).
Proof.
  intros Hs Hn. destruct (descend_spec key t [] Hs Hn)
    as (A & B & E & HA & HB & Hpre & Hpost).
  rewrite elements_plug, Hpre, Hpost, E, assoc_put_mid by auto. now rewrite app_nil_r.
Qed.

(** ** The search finds the node of a key *)

Lemma plug_node_nonempty t ctx : empty t = false -> empty (plug t ctx) = false.
Proof.
  revert t; induction ctx as [|f c IH]; intros t Ht; [exact Ht|].
  apply IH. destruct f; reflexivity.
Qed.

Lemma internalFind_loop_plug key (n : tree V) (c c' : path V) :
  Forall (frame_dir key) c ->
  internalFind_loop key (plug n c) c' = internalFind_loop key n (c ++ c').
Proof.
  revert n; induction c as [|f c IH]; intros n Hc; [reflexivity|].
  apply Forall_cons_iff in Hc as [Hf Hc]. rewrite plug_cons, IH by exact Hc.
  destruct f as [pk pv pb pr | pl pk pv pb]; cbn [plug_frame internalFind_loop frame_dir] in *;
    zcase; try lia; reflexivity.
Qed.

(** The item of every parent lies after the focus (left child) or before it
    (right child) in order. *)
Lemma frame_items (c : path V) (f : frame V) :
  In f c ->
  match f with
  | LeftOf pk pv _ _ => In (pk, pv) (ctx_post c)
  | RightOf _ pk pv _ => In (pk, pv) (ctx_pre c)
  end.
Proof.
  induction c as [|g c IH]; intros Hin; [destruct Hin|].
  destruct Hin as [<-|Hin].
  - destruct g; cbn; rewrite ?in_app_iff; cbn; auto.
  - specialize (IH Hin). destruct f, g; cbn; rewrite ?in_app_iff; cbn; auto.
Qed.

Lemma frames_dir_bst l k v b r (c : path V) :
  bst (plug (Node l k v b r) c) -> Forall (frame_dir k) c.
Proof.
  unfold bst, keys. rewrite elements_plug. cbn [elements]. rewrite app_mid_assoc.
  intros Hs. destruct (sorted_split _ _ _ _ Hs) as [HA HB].
  apply Forall_forall. intros f Hf. pose proof (frame_items c f Hf) as Hi.
  destruct f as [pk pv pb pr | pl pk pv pb]; cbn.
  - rewrite Forall_forall in HB. apply (HB (pk, pv)), in_app_iff. now right.
  - rewrite Forall_forall in HA. apply (HA (pk, pv)), in_app_iff. now left.
Qed.

(** In an ordered tree, [internalFind] of the key of a node returns that very
    node with its parents: a key identifies one position. *)
Lemma internalFind_position l k v b r (c : path V) :
  bst (plug (Node l k v b r) c) ->
  internalFind k (plug (Node l k v b r) c) = Some (Node l k v b r, c).
Proof.
  intros Hs. unfold internalFind. rewrite plug_node_nonempty by reflexivity.
  rewrite internalFind_loop_plug by (eapply frames_dir_bst; eauto).
  cbn. rewrite Z.eqb_refl, app_nil_r. reflexivity.
Qed.

End TreeLemmas.

Lemma ctx_ok_eq {V : Type} h h' (c : path V) : h = h' -> ctx_ok h c -> ctx_ok h' c.
Proof. now intros ->. Qed.

#[export] Hint Resolve avl_plug height_plug : avl.

(** Split the conjunctions of the hypotheses (the unfolded [avl] facts). *)
Ltac split_hyps :=
  repeat match goal with H : _ /\ _ |- _ => destruct H end.

(** Close an [avl] goal on a concrete tree shape from height facts. *)
Ltac avl_arith :=
  cbn [avl] in *; unfold hdiff in *; cbn [height] in *; split_hyps; repeat split;
  cbn [height]; auto; lia.

(** Close the path obligation of [avl_plug] when only the focus height
    expression changed. *)
Ltac height_arith := cbn [avl] in *; unfold hdiff in *; cbn [height] in *;
  split_hyps; lia.
Ltac ctx_arith Hc := eapply ctx_ok_eq; [|exact Hc]; height_arith.
