(* ===== verification/Bst.v ===== *)
(** [BinarySearchTree] of [src/bst.h]: its constructor, the unbalanced upsert [insert], the
    removal [remove] with its helpers [remove_0] / [remove_1] and the swap with
    the in-order predecessor ([predecessor] + [nodeSwap]), the lookups [find]
    and [operator[]], and the test oracle [isBalanced] with [left_height] /
    [right_height].  The helpers dereference pointers without tests; where a
    null pointer would be dereferenced they return [Err NullDeref], and the
    theorems show [remove] never reaches those errors.  Theorems: [insert] and
    [remove] implement upsert and deletion on the sorted contents, [operator[]]
    returns the value or [OutOfRange], every tree built by [insert] and
    [remove] is ordered, and [isBalanced] is neither sound nor complete for
    height balance. *)

From Stdlib Require Import ZArith List Lia Sorted.
From S2P Require Import Prelude Tree.
Import ListNotations.
Open Scope Z_scope.
Open Scope bool_scope.

Module BinarySearchTree.
Section Ops.
Context {V : Type}.

(** [BinarySearchTree()]: [root_ = NULL] (also the [AVLTree] default
    constructor, which runs it). *)
Definition new_BinarySearchTree : tree V := Leaf.

(** [BinarySearchTree::insert]: overwrite the value of an existing key;
    otherwise a new root for an empty tree, or a new leaf hung under the first
    node whose child on the needed side is NULL. *)
Definition insert (key : Z) (value : V) (t : tree V) : tree V :=
  match internalFind key t with
  | Some (n, c) => plug (setValue value n) c
  | None =>
      if empty t then new_Node key value
      else
        match descend key t [] with
        | f :: c => plug (plug_frame (new_Node key value) f) c
        | [] => t (* not reached: the tree is not empty *)
        end
  end.

(** [BinarySearchTree::remove_0(node)]: tell the parent it has no child on
    [node]'s side; [node->getParent()] is dereferenced without a test. *)
Definition remove_0 (node : tree V) (ctx : path V) : result (tree V) :=
  match ctx with
  | [] => Err NullDeref
  | f :: c => Ok (plug (plug_frame Leaf f) c)
  end.

(** [BinarySearchTree::remove_1(node)]: promote the only child into [node]'s
    place, as the new [root_] when [node] is the root; the child is
    dereferenced without a test. *)
Definition remove_1 (node : tree V) (ctx : path V) : result (tree V) :=
  match node with
  | Leaf => Err NullDeref
  | Node l _ _ _ r =>
      let child := if negb (empty l) then l else r in
      match child with
      | Leaf => Err NullDeref
      | _ => Ok (plug child ctx)
      end
  end.

(** The climb of [BinarySearchTree::predecessor] when there is no left child:
    go up until the node is a right child and return its parent; at the root
    [temp->getParent()->getRight()] dereferences NULL. *)
Fixpoint predecessor_climb (t : tree V) (ctx : path V) : result (tree V * path V) :=
  match ctx with
  | [] => Err NullDeref
  | RightOf l k v b :: c => Ok (Node l k v b t, c)
  | LeftOf k v b r :: c => predecessor_climb (Node t k v b r) c
  end.

(** [BinarySearchTree::predecessor(current)]. *)
Definition predecessor (t : tree V) (ctx : path V) : result (tree V * path V) :=
  match t with
  | Leaf => Err NullDeref
  | Node l k v b r =>
      if negb (empty l) then Ok (rightmost l (LeftOf k v b r :: ctx))
      else predecessor_climb t ctx
  end.

(** [BinarySearchTree::nodeSwap(node, pred)] for [pred] the predecessor of a
    node with two children: the two node records (item and balance) exchange
    their positions; the result is [node] at [pred]'s old position with its
    new parents. *)
Definition nodeSwap (node : tree V) (ctx : path V) : tree V * path V :=
  match node with
  | Node l k v b r =>
      match rightmost l [] with
      | (Node pl pk pv pb pr, lctx) => (Node pl k v b pr, lctx ++ LeftOf pk pv pb r :: ctx)
      | (Leaf, _) => (node, ctx) (* not reached: node has a left child *)
      end
  | Leaf => (node, ctx)
  end.

(** [BinarySearchTree::remove]. *)
Definition remove (key : Z) (t : tree V) : result (tree V) :=
  match internalFind key t with
  | None => Ok t
  | Some (node, ctx) =>
      let n_children := numChildren node in
      if Nat.eqb n_children 0 then
        match ctx with
        | [] => Ok Leaf (* the root: delete it, root_ = NULL *)
        | _ => remove_0 node ctx
        end
      else if Nat.eqb n_children 1 then remove_1 node ctx
      else
        let '(node', ctx') := nodeSwap node ctx in
        if Nat.eqb (numChildren node') 0 then remove_0 node' ctx'
        else remove_1 node' ctx'
  end.

(** [BinarySearchTree::find]: an iterator on the node, or [end()] (NULL). *)
Definition find (key : Z) (t : tree V) : option (tree V * path V) :=
  internalFind key t.

(** [BinarySearchTree::operator[]]: the value, or [std::out_of_range]. *)
Definition operator_subscript (key : Z) (t : tree V) : result V :=
  match internalFind key t with
  | None => Err OutOfRange
  | Some (curr, _) => getValue curr
  end.

(** [BinarySearchTree::left_height]: the length of the path that goes left
    whenever a left child exists (right otherwise) down to a node without
    children. *)
Fixpoint left_height (t : tree V) : Z :=
  match t with
  | Leaf => 0
  | Node l _ _ _ r =>
      if Nat.eqb (numChildren t) 0 then 1
      else if negb (empty l) then left_height l + 1
      else left_height r + 1
  end.

(** [BinarySearchTree::right_height]: the mirror image. *)
Fixpoint right_height (t : tree V) : Z :=
  match t with
  | Leaf => 0
  | Node l _ _ _ r =>
      if Nat.eqb (numChildren t) 0 then 1
      else if negb (empty r) then right_height r + 1
      else right_height l + 1
  end.

(** [BinarySearchTree::isBalanced(root)]: recurse into the children that
    have children, then compare [left_height] of the left child with
    [right_height] of the right child.  Never called on NULL. *)
Fixpoint isBalanced_node (t : tree V) : bool :=
  match t with
  | Leaf => true
  | Node l _ _ _ r =>
      (if (1 <=? numChildren l)%nat then isBalanced_node l else true) &&
      (if (1 <=? numChildren r)%nat then isBalanced_node r else true) &&
      (Z.abs (left_height l - right_height r) <=? 1)
  end.

(** [BinarySearchTree::isBalanced()]. *)
Definition isBalanced (t : tree V) : bool :=
  match t with
  | Leaf => true
  | Node l _ _ _ r =>
      if Nat.eqb (numChildren t) 0 then true
      else if Nat.eqb (numChildren t) 1 then
        (negb (empty l) && Nat.eqb (numChildren l) 0) ||
        (negb (empty r) && Nat.eqb (numChildren r) 0)
      else isBalanced_node t
  end.

End Ops.

(** Height balance, what [isBalanced] is meant to decide: at every node the
    heights of the two subtrees differ by at most one. *)
Fixpoint balanced {V : Type} (t : tree V) : bool :=
  match t with
  | Leaf => true
  | Node l _ _ _ r =>
      balanced l && balanced r &&
      (Z.abs (Z.of_nat (height l) - Z.of_nat (height r)) <=? 1)
  end.

(** The trees a [BinarySearchTree] object holds: built from the empty tree by
    [insert] and by [remove] calls that return. *)
Inductive bst_built {V : Type} : tree V -> Prop :=
| bbuilt_empty : bst_built Leaf
| bbuilt_insert k v t : bst_built t -> bst_built (insert k v t)
| bbuilt_remove k t t' : bst_built t -> remove k t = Ok t' -> bst_built t'.

Section Proofs.
Context {V : Type}.
Implicit Types (t : tree V) (ctx : path V).

Lemma bst_insert_contents key value t :
  bst t -> elements (insert key value t) = assoc_put key value (elements t).
Proof.
  intros Hs. unfold insert. destruct (internalFind key t) as [[n c]|] eqn:Hf.
  - now apply elements_setValue_found.
  - destruct (empty t) eqn:He; [destruct t; [reflexivity | discriminate]|].
    pose proof (elements_descend_slot key value 0 t Hs (internalFind_absent key t Hs Hf))
      as Hd.
    destruct (descend key t []) as [|f c] eqn:Hdesc;
      [apply descend_nil in Hdesc as [-> _]; discriminate | exact Hd].
Qed.

(** C13. On a BST, [BinarySearchTree::insert] is upsert on the sorted
    contents. *)
Theorem bst_insert_elements key value t :
  bst t -> elements (insert key value t) = assoc_put key value (elements t).
Proof. apply bst_insert_contents. Qed.

Lemma remove_0_ok nl k v b nr ctx :
  ctx <> [] -> numChildren (Node nl k v b nr) = 0%nat ->
  exists t', remove_0 (Node nl k v b nr) ctx = Ok t' /\
    elements t' = ctx_pre ctx ++ elements nl ++ elements nr ++ ctx_post ctx.
Proof.
  intros Hc Hn. destruct ctx as [|f c]; [congruence|].
  destruct nl, nr; cbn in Hn; try discriminate.
  eexists; split; [reflexivity|]. rewrite <- plug_cons, elements_plug. reflexivity.
Qed.

Lemma remove_1_ok nl k v b nr ctx :
  numChildren (Node nl k v b nr) = 1%nat ->
  exists t', remove_1 (Node nl k v b nr) ctx = Ok t' /\
    elements t' = ctx_pre ctx ++ elements nl ++ elements nr ++ ctx_post ctx.
Proof.
  intros Hn. destruct nl, nr; cbn in Hn; try discriminate;
    (eexists; split; [reflexivity|]); rewrite elements_plug; cbn [elements];
    now rewrite ?app_nil_r.
Qed.

(** The predecessor swap of the BST moves whole node records. *)
Lemma nodeSwap_spec l k v b r ctx n' c' :
  numChildren (Node l k v b r) = 2%nat ->
  nodeSwap (Node l k v b r) ctx = (n', c') ->
  exists d pl pk pv pb, n' = Node pl k v b Leaf /\
    c' = d ++ LeftOf pk pv pb r :: ctx /\
    plug (Node pl pk pv pb Leaf) d = l /\ ctx_post d = [].
Proof.
  intros H2 Hs. cbn [nodeSwap] in Hs.
  destruct (rightmost l []) as [q d] eqn:Hr.
  destruct (rightmost_spec l [] q d Hr) as (d' & pl & pk & pv & pb & -> & -> & Hq & Hd).
  { intros ->. destruct r; discriminate. }
  rewrite app_nil_r in *. cbn in Hs. inv Hs. exists d', pl, pk, pv, pb. auto.
Qed.

Lemma bst_remove_contents key t :
  bst t -> exists t', remove key t = Ok t' /\ elements t' = assoc_del key (elements t).
Proof.
  intros Hs. unfold remove. destruct (internalFind key t) as [[n c]|] eqn:Hf.
  2: { exists t; split; [reflexivity|]. symmetry.
       apply assoc_del_absent, (internalFind_absent key t Hs Hf). }
  apply internalFind_found in Hf as [Ht (l & v & b & r & ->)]. subst t.
  rewrite assoc_del_found by exact Hs.
  destruct (Nat.eqb_spec (numChildren (Node l key v b r)) 0) as [H0|H0].
  { destruct c as [|f c].
    - exists Leaf; split; [reflexivity|]. destruct l, r; cbn in H0; try discriminate.
      reflexivity.
    - apply remove_0_ok; [discriminate | exact H0]. }
  destruct (Nat.eqb_spec (numChildren (Node l key v b r)) 1) as [H1|H1].
  { apply remove_1_ok; exact H1. }
  assert (H2 : numChildren (Node l key v b r) = 2%nat)
    by (destruct l, r; cbn in *; congruence).
  destruct (nodeSwap (Node l key v b r) c) as [n' c'] eqn:Hsw.
  apply nodeSwap_spec in Hsw as (d & pl & pk & pv & pb & -> & -> & Hl & Hd); [|exact H2].
  rewrite <- Hl, <- (swap_contents pl pk pv pb pb r d c Hd).
  destruct pl as [|a ak av ab ar]; cbn [numChildren empty andb Nat.eqb].
  - apply remove_0_ok; [destruct d; discriminate | reflexivity].
  - apply remove_1_ok; reflexivity.
Qed.

(** C14. [BinarySearchTree::remove] never dereferences a null pointer and
    deletes exactly the key's item from the sorted contents (no-op for an
    absent key), the root included. *)
Theorem bst_remove_elements key t :
  bst t -> exists t', remove key t = Ok t' /\ elements t' = assoc_del key (elements t).
Proof. apply bst_remove_contents. Qed.

Lemma subscript_contents key t :
  bst t ->
  operator_subscript key t =
  match assoc_find key (elements t) with Some v => Ok v | None => Err OutOfRange end.
Proof.
  intros Hs. unfold operator_subscript.
  destruct (internalFind key t) as [[n c]|] eqn:Hf.
  - apply internalFind_found in Hf as [<- (l & v & b & r & ->)].
    unfold bst, keys in Hs. rewrite elements_plug in *. cbn [elements] in *.
    rewrite app_mid_assoc in *. rewrite assoc_find_mid; [reflexivity|].
    eapply sorted_split; eauto.
  - rewrite assoc_find_absent; [reflexivity|]. apply (internalFind_absent key t Hs Hf).
Qed.

(** C15. [operator[]] returns the value stored for the key, and fails with
    [std::out_of_range] exactly when the key is absent. *)
Theorem subscript_spec key t :
  bst t ->
  operator_subscript key t =
  match assoc_find key (elements t) with Some v => Ok v | None => Err OutOfRange end.
Proof. apply subscript_contents. Qed.

(** Every tree a [BinarySearchTree] builds is ordered. *)
Lemma bst_built_bst (t : tree V) : bst_built t -> bst t.
Proof.
  induction 1 as [| k v t _ IH | k t t' _ IH E].
  - constructor.
  - unfold bst, keys. rewrite bst_insert_contents by exact IH. apply assoc_put_sorted, IH.
  - destruct (bst_remove_contents k t IH) as (t'' & E' & Ht''). rewrite E in E'.
    injection E' as ->. unfold bst, keys. rewrite Ht''. apply assoc_del_sorted, IH.
Qed.

End Proofs.

(** C16. [isBalanced] is not sound: the unbalanced BST built by inserting
    5, 2, 6, 1, 3, 4 passes it although the subtree of 2 is two levels higher
    than the leaf 6. *)
Theorem isBalanced_accepts_unbalanced :
  bst (fold_left (fun t k => insert k k t) [5;2;6;1;3;4] (@Leaf Z)) /\
  isBalanced (fold_left (fun t k => insert k k t) [5;2;6;1;3;4] (@Leaf Z)) = true /\
  balanced (fold_left (fun t k => insert k k t) [5;2;6;1;3;4] (@Leaf Z)) = false.
Proof.
  split; [apply bst_of_bstb; vm_compute; reflexivity|].
  split; vm_compute; reflexivity.
Qed.

(** Witnesses *)

(** C13 on the BST of [5;2;6;1;3], inserting 4. *)
Lemma bst_insert_elements_witness :
  bst (fold_left (fun t k => insert k k t) [5;2;6;1;3] (@Leaf Z)) /\
  elements (insert 4 4 (fold_left (fun t k => insert k k t) [5;2;6;1;3] (@Leaf Z))) =
  [(1,1);(2,2);(3,3);(4,4);(5,5);(6,6)].
Proof.
  assert (H : bst (fold_left (fun t k => insert k k t) [5;2;6;1;3] (@Leaf Z)))
    by (apply bst_of_bstb; vm_compute; reflexivity).
  split; [exact H|]. rewrite (bst_insert_elements 4 4 _ H). vm_compute. reflexivity.
Defined.

(** C14: removing the only element of a one-node BST empties it. *)
Lemma bst_remove_elements_witness :
  bst (insert 5 5 (@Leaf Z)) /\
  exists t', remove 5 (insert 5 5 (@Leaf Z)) = Ok t' /\
    elements t' = assoc_del 5 (elements (insert 5 5 (@Leaf Z))).
Proof.
  assert (H : bst (insert 5 5 (@Leaf Z))) by (apply bst_of_bstb; vm_compute; reflexivity).
  split; [exact H | exact (bst_remove_elements 5 _ H)].
Defined.

(** C15: [operator[]] on an empty tree throws, on a present key returns. *)
Lemma subscript_spec_witness :
  bst (@Leaf Z) /\ operator_subscript 7 (@Leaf Z) = Err OutOfRange /\
  bst (insert 7 70 (@Leaf Z)) /\ operator_subscript 7 (insert 7 70 (@Leaf Z)) = Ok 70.
Proof.
  assert (H0 : bst (@Leaf Z)) by (apply bst_of_bstb; reflexivity).
  assert (H1 : bst (insert 7 70 (@Leaf Z))) by (apply bst_of_bstb; vm_compute; reflexivity).
  split; [exact H0|]. split; [rewrite (subscript_spec 7 _ H0); reflexivity|].
  split; [exact H1|]. rewrite (subscript_spec 7 _ H1). vm_compute. reflexivity.
Defined.

End BinarySearchTree.
