(* ===== verification/Clear.v ===== *)
(** [BinarySearchTree::clear] of [src/bst.h] and the destructor that runs it:
    a breadth-first teardown with a [std::queue] of node pointers.  The model
    records the items of the nodes in the order they are [delete]d; the loop
    is defined by well-founded recursion (Equations) on
    [2 * (nodes in the queue) + (length of the queue)].  Theorems: [clear]
    terminates on every tree, deletes every node exactly once (the deleted
    items are a permutation of [elements]), never dereferences NULL, and
    leaves [root_] NULL; the order of deletion is exactly the level order of
    the tree (root first, then each level left to right), given by a
    structural reference definition [level_order]. *)

From Equations Require Import Equations.
From stdpp Require Import base list.
From Stdlib Require Import ZArith Lia.
From S2P Require Import Prelude Tree.

Module Clear.

(** The number of nodes reachable from the queue. *)
Fixpoint qsize {V : Type} (q : list (tree V)) : nat :=
  match q with
  | [] => 0
  | t :: q' => size t + qsize q'
  end.

(** [if (child != NULL) nodes.push(child);] *)
Definition push_child {V : Type} (t : tree V) : list (tree V) :=
  if empty t then [] else [t].

(** The loop [while (!nodes.empty())]: take the front node, push its
    non-NULL children, pop it and [delete] it.  A NULL at the front would be
    dereferenced ([current->getLeft()]). *)
Equations? clear_loop {V : Type} (q : list (tree V)) (freed : list (Z * V)) :
  result (list (Z * V)) by wf (2 * qsize q + length q)%nat lt :=
  clear_loop [] freed := Ok freed;
  clear_loop (Leaf :: _) _ := Err NullDeref;
  clear_loop (Node l k v b r :: q) freed :=
    clear_loop (q ++ push_child l ++ push_child r) (freed ++ [(k, v)]).
Proof.
  assert (Hq : forall q1 q2 : list (tree V), (qsize (q1 ++ q2) = qsize q1 + qsize q2)%nat).
  { induction q1 as [|t q1 IH]; intros q2; cbn; [reflexivity | rewrite IH; lia]. }
  rewrite !Hq, !length_app. unfold push_child.
  destruct l, r; cbn [empty qsize size length]; lia.
Qed.

(** [BinarySearchTree::clear()]: the new [root_] (NULL) and the items of the
    deleted nodes, in the order of deletion. *)
Definition clear {V : Type} (t : tree V) : tree V * result (list (Z * V)) :=
  (Leaf, if negb (empty t) then clear_loop [t] [] else Ok []).

(** [BinarySearchTree::~BinarySearchTree()]: [if(!empty()) clear();].  The
    [AVLTree] and the [BinarySearchTree<char,int>] of the test driver are
    destroyed through it (neither class declares another destructor). *)
Definition destructor {V : Type} (t : tree V) : tree V * result (list (Z * V)) :=
  if negb (empty t) then clear t else (t, Ok []).

(** ** Level order, the reference for the deletion order *)

(** Level-wise concatenation of two lists of levels. *)
Fixpoint zip_app {A : Type} (xs ys : list (list A)) : list (list A) :=
  match xs, ys with
  | [], _ => ys
  | _, [] => xs
  | x :: xs', y :: ys' => (x ++ y) :: zip_app xs' ys'
  end.

(** The items of a tree level by level, from the root down, each level from
    left to right. *)
Fixpoint levels {V : Type} (t : tree V) : list (list (Z * V)) :=
  match t with
  | Leaf => []
  | Node l k v _ r => [(k, v)] :: zip_app (levels l) (levels r)
  end.

Definition level_order {V : Type} (t : tree V) : list (Z * V) := concat (levels t).

(** The levels of a forest whose trees all start at the same depth. *)
Definition forest_levels {V : Type} (f : list (tree V)) : list (list (Z * V)) :=
  fold_right (fun t acc => zip_app (levels t) acc) [] f.

(** The items of the roots of a forest, and the forest of their children
    (as the loop pushes them). *)
Definition roots {V : Type} (f : list (tree V)) : list (Z * V) :=
  flat_map (fun t => match t with Leaf => [] | Node _ k v _ _ => [(k, v)] end) f.

Definition children {V : Type} (f : list (tree V)) : list (tree V) :=
  flat_map (fun t => match t with Leaf => [] | Node l _ _ _ r => push_child l ++ push_child r end) f.

Section Proofs.
Context {V : Type}.

Lemma push_child_elements (t : tree V) : concat (map elements (push_child t)) = elements t.
Proof. destruct t; cbn; [reflexivity | now rewrite app_nil_r]. Qed.

Lemma push_child_nonnull (t : tree V) : Forall (fun u => u <> Leaf) (push_child t).
Proof. destruct t; constructor; [discriminate | constructor]. Qed.

(** The loop deletes, after the nodes already deleted, each node reachable
    from the queue exactly once. *)
Lemma clear_loop_frees (q : list (tree V)) (freed : list (Z * V)) :
  Forall (fun u => u <> Leaf) q ->
  exists out, clear_loop q freed = Ok out /\ out ≡ₚ freed ++ concat (map elements q).
Proof.
  funelim (clear_loop q freed); intros Hq.
  - exists freed. split; [reflexivity|]. cbn. now rewrite app_nil_r.
  - apply Forall_cons_1 in Hq as [[] _]. reflexivity.
  - apply Forall_cons_1 in Hq as [_ Hq].
    destruct H as (out & E & P).
    { apply Forall_app; split; [exact Hq|].
      apply Forall_app; split; apply push_child_nonnull. }
    exists out. split; [exact E|]. rewrite P.
    rewrite !map_app, !concat_app, !push_child_elements. cbn [map concat elements].
    solve_Permutation.
Qed.

(** C30. [clear] terminates on every tree, never dereferences NULL, deletes
    every node exactly once (the deleted items are a permutation of the
    tree's items) and leaves [root_] NULL. *)
Theorem clear_frees_all (t : tree V) :
  exists freed, clear t = (Leaf, Ok freed) /\ freed ≡ₚ elements t.
Proof.
  destruct t as [|l k v b r]; [exists []; split; reflexivity|].
  destruct (clear_loop_frees [Node l k v b r] []) as (out & E & P).
  { constructor; [discriminate | constructor]. }
  exists out. unfold clear. cbn [empty negb]. rewrite E. split; [reflexivity|].
  rewrite P. cbn. now rewrite app_nil_r.
Qed.

Lemma zip_app_nil_r {A : Type} (xs : list (list A)) : zip_app xs [] = xs.
Proof. now destruct xs. Qed.

Lemma zip_app_assoc {A : Type} (xs ys zs : list (list A)) :
  zip_app xs (zip_app ys zs) = zip_app (zip_app xs ys) zs.
Proof.
  revert ys zs; induction xs as [|x xs IH]; intros [|y ys] [|z zs]; cbn; try reflexivity.
  now rewrite IH, app_assoc.
Qed.

Lemma forest_levels_app (f g : list (tree V)) :
  forest_levels (f ++ g) = zip_app (forest_levels f) (forest_levels g).
Proof.
  induction f as [|t f IH]; [reflexivity|]. cbn [app forest_levels fold_right].
  fold (forest_levels (f ++ g)) (forest_levels f). now rewrite IH, zip_app_assoc.
Qed.

Lemma forest_levels_push (t : tree V) : forest_levels (push_child t) = levels t.
Proof. destruct t; cbn; [reflexivity | now rewrite ?zip_app_nil_r]. Qed.

Lemma forest_levels_cons (t : tree V) f : forest_levels (t :: f) = zip_app (levels t) (forest_levels f).
Proof. reflexivity. Qed.

Lemma roots_node l k (v : V) b r f : roots (Node l k v b r :: f) = (k, v) :: roots f.
Proof. reflexivity. Qed.

Lemma children_node l k (v : V) b r f :
  children (Node l k v b r :: f) = (push_child l ++ push_child r) ++ children f.
Proof. reflexivity. Qed.

(** A non-empty forest without NULLs: its first level is its roots, the
    rest the levels of their children. *)
Lemma forest_levels_step (f : list (tree V)) :
  f <> [] -> Forall (fun u => u <> Leaf) f ->
  forest_levels f = roots f :: forest_levels (children f).
Proof.
  induction f as [|t f IH]; intros Hne Hf; [congruence|].
  apply Forall_cons_1 in Hf as [Ht Hf]. destruct t as [|l k v b r]; [congruence|].
  rewrite forest_levels_cons, roots_node, children_node, !forest_levels_app, !forest_levels_push.
  cbn [levels]. destruct f as [|t' f'].
  - cbn. now rewrite ?zip_app_nil_r, ?app_nil_r.
  - rewrite IH by (discriminate || exact Hf). cbn [zip_app]. now rewrite <- zip_app_assoc.
Qed.

(** The queue invariant: a queue holds the rest [a] of the level being
    deleted followed by the start [b] of the next one; the loop deletes the
    roots of [a], then the levels of [b] with the children of [a]. *)
Lemma clear_loop_levels (q : list (tree V)) (freed : list (Z * V)) :
  forall a b, q = a ++ b -> Forall (fun u => u <> Leaf) q ->
  clear_loop q freed = Ok (freed ++ roots a ++ concat (forest_levels (b ++ children a))).
Proof.
  funelim (clear_loop q freed); intros a c Hq Hnn.
  - symmetry in Hq. apply app_eq_nil in Hq as [-> ->]. cbn. now rewrite app_nil_r.
  - apply Forall_cons_1 in Hnn as [[] _]. reflexivity.
  - apply Forall_cons_1 in Hnn as [_ Hnn].
    assert (Hnn' : Forall (fun u => u <> Leaf) (q ++ push_child l ++ push_child r))
      by (apply Forall_app; split; [exact Hnn|]; apply Forall_app; split; apply push_child_nonnull).
    destruct a as [|t a].
    + cbn [app] in Hq. subst c.
      rewrite (H q (push_child l ++ push_child r) eq_refl Hnn').
      cbn [roots children flat_map app]. rewrite app_nil_r.
      rewrite (forest_levels_step (Node l k v b r :: q)) by (discriminate || now constructor).
      rewrite roots_node, children_node. cbn [concat app]. now rewrite <- !app_assoc.
    + injection Hq as Ht Hq. subst t q.
      rewrite (H a (c ++ push_child l ++ push_child r)) by (exact Hnn' || now rewrite <- !app_assoc).
      rewrite roots_node, children_node. now rewrite <- !app_assoc.
Qed.

(** C36. [clear] deletes the nodes in level order: its queue loop deletes
    exactly the items of [level_order t] (the root, then each level from
    left to right), on every tree, and leaves [root_] NULL. *)
Theorem clear_level_order (t : tree V) : clear t = (Leaf, Ok (level_order t)).
Proof.
  destruct t as [|l k v b r]; [reflexivity|]. unfold clear. cbn [empty negb].
  rewrite (clear_loop_levels [Node l k v b r] [] [Node l k v b r] [] eq_refl)
    by (constructor; [discriminate | constructor]).
  unfold level_order. cbn [levels concat roots children flat_map app].
  rewrite app_nil_r, forest_levels_app, !forest_levels_push. reflexivity.
Qed.

End Proofs.

End Clear.
