(* ===== verification/Avl.v ===== *)
(** [AVLTree] of [src/avlbst.h]: the [AVLNode] constructor, balance
    bookkeeping ([AVLNode::getBalance],
    [setBalance], [updateBalance]), the rotations, the case test [zigzig], the
    retrace [insertFix] and [insert], and the operations of [remove]
    ([predecessor], [swapWithPredecessor], [removal_case_0], [removal_case_1], [removeFix],
    [removeAt]; their proofs are in [AvlRemove.v]).  Each operation
    works on a zipper (a node and its parents) and returns the whole tree, i.e.
    the new [root_].  Theorems: rotations keep the in-order contents and undo
    each other; [insert] is upsert on the sorted contents and preserves both
    the BST order and the AVL invariant (stored balances correct and in
    {-1,0,1}), so the [int8_t] balance never wraps. *)

From Stdlib Require Import ZArith List Lia Sorted.
From S2P Require Import Prelude Tree.
Import ListNotations.
Open Scope Z_scope.

Module AVLTree.
Section Ops.
Context {V : Type}.

(** [AVLNode::getBalance] (the code never reads the balance of NULL). *)
Definition getBalance (t : tree V) : Z :=
  match t with Leaf => 0 | Node _ _ _ b _ => b end.

(** [AVLNode::setBalance]. *)
Definition setBalance (b : Z) (t : tree V) : tree V :=
  match t with Leaf => Leaf | Node l k v _ r => Node l k v b r end.

(** [new AVLNode<Key,Value>(key, value, parent)]: the base [Node]
    constructor, then [balance_(0)]. *)
Definition new_AVLNode (key : Z) (value : V) : tree V := setBalance 0 (new_Node key value).

(** [AVLNode::updateBalance]: [balance_ += diff] on an [int8_t]. *)
Definition updateBalance (diff : Z) (t : tree V) : tree V :=
  match t with Leaf => Leaf | Node l k v b r => Node l k v (wrap8 (b + diff)) r end.

(** An update applied through [getLeft()] / [getRight()]. *)
Definition onLeft (f : tree V -> tree V) (t : tree V) : tree V :=
  match t with Leaf => Leaf | Node l k v b r => Node (f l) k v b r end.

Definition onRight (f : tree V -> tree V) (t : tree V) : tree V :=
  match t with Leaf => Leaf | Node l k v b r => Node l k v b (f r) end.

(** [AVLTree::rotateRight(node)]: [child = node->getLeft()] takes the place of
    [node] under its parent (or as [root_]: the caller plugs the result back
    into [node]'s path), [node] becomes [child]'s right child and [child]'s
    former right subtree becomes [node]'s left child.  Balances are not
    touched.  The code dereferences [child] without a test; it is never NULL
    where the code rotates, and the model leaves such a tree as it is. *)
Definition rotateRight (t : tree V) : tree V :=
  match t with
  | Node (Node a ck cv cb c) k v b r => Node a ck cv cb (Node c k v b r)
  | _ => t
  end.

(** [AVLTree::rotateLeft(node)]: the mirror image. *)
Definition rotateLeft (t : tree V) : tree V :=
  match t with
  | Node l k v b (Node c ck cv cb d) => Node (Node l k v b c) ck cv cb d
  | _ => t
  end.

(** [AVLTree::zigzig(g, p, n)]: [nside] is the side of [n] under [p] and
    [pside] the side of [p] under [g]. *)
Definition zigzig (pside nside : side) : bool :=
  match nside with
  | L => match pside with L => true | R => false end
  | R => match pside with R => true | L => false end
  end.

(** [AVLTree::insertFix(parent, current)]: [parent] is the focus, [nside] the
    side of [current] under it, [ctx] the parents of [parent]. *)
Fixpoint insertFix (parent : tree V) (nside : side) (ctx : path V) {struct ctx}
  : tree V :=
  match ctx with
  | [] => parent
  | LeftOf gk gv gb gr :: c =>
      (* parent is a left child of grandparent *)
      let grandparent := updateBalance (-1) (Node parent gk gv gb gr) in
      let gp_balance := getBalance grandparent in
      if gp_balance =? -1 then insertFix grandparent L c
      else if gp_balance =? -2 then
        if zigzig L nside then
          (* rotateRight(g); parent 0, grandparent 0 *)
          plug (setBalance 0 (onRight (setBalance 0) (rotateRight grandparent))) c
        else
          (* rotateLeft(p); rotateRight(g): current on top, parent left,
             grandparent right *)
          let t := rotateRight (onLeft rotateLeft grandparent) in
          let curr_bal := getBalance t in
          if curr_bal =? -1 then
            plug (setBalance 0 (onLeft (setBalance 0) (onRight (setBalance 1) t))) c
          else if curr_bal =? 0 then
            plug (setBalance 0 (onLeft (setBalance 0) (onRight (setBalance 0) t))) c
          else
            plug (setBalance 0 (onLeft (setBalance (-1)) (onRight (setBalance 0) t))) c
      else plug grandparent c
  | RightOf gl gk gv gb :: c =>
      (* parent is a right child of grandparent *)
      let grandparent := updateBalance 1 (Node gl gk gv gb parent) in
      let gp_balance := getBalance grandparent in
      if gp_balance =? 1 then insertFix grandparent R c
      else if gp_balance =? 2 then
        if zigzig R nside then
          (* rotateLeft(g); parent 0, grandparent 0 *)
          plug (setBalance 0 (onLeft (setBalance 0) (rotateLeft grandparent))) c
        else
          (* rotateRight(p); rotateLeft(g): current on top, grandparent left,
             parent right *)
          let t := rotateLeft (onRight rotateRight grandparent) in
          let curr_bal := getBalance t in
          if curr_bal =? 1 then
            plug (setBalance 0 (onRight (setBalance 0) (onLeft (setBalance (-1)) t))) c
          else if curr_bal =? 0 then
            plug (setBalance 0 (onRight (setBalance 0) (onLeft (setBalance 0) t))) c
          else
            plug (setBalance 0 (onRight (setBalance 1) (onLeft (setBalance 0) t))) c
      else plug grandparent c
  end.

(** [AVLTree::insert]: a new root in an empty tree; an existing key gets the
    new value; otherwise the walk attaches a new node (balance 0) under the
    first node whose child on the needed side is NULL, updates that parent's
    balance by -1 / +1 and retraces with [insertFix] unless it became 0. *)
Definition insert (item_key : Z) (item_value : V) (t : tree V) : tree V :=
  if empty t then new_AVLNode item_key item_value
  else
    match internalFind item_key t with
    | Some (n, c) => plug (setValue item_value n) c
    | None =>
        let item_node := new_AVLNode item_key item_value in
        match descend item_key t [] with
        | LeftOf pk pv pb pr :: c =>
            let parent := updateBalance (-1) (Node item_node pk pv pb pr) in
            if getBalance parent =? 0 then plug parent c else insertFix parent L c
        | RightOf pl pk pv pb :: c =>
            let parent := updateBalance 1 (Node pl pk pv pb item_node) in
            if getBalance parent =? 0 then plug parent c else insertFix parent R c
        | [] => t (* not reached: the tree is not empty *)
        end
    end.

(** [getLeft()] / [getRight()] of a node. *)
Definition getLeft (t : tree V) : tree V :=
  match t with Leaf => Leaf | Node l _ _ _ _ => l end.

Definition getRight (t : tree V) : tree V :=
  match t with Leaf => Leaf | Node _ _ _ _ r => r end.

(** The climb of [AVLTree::predecessor] when there is no left child: up
    until the node is a right child, then its parent; at the root
    [temp->getParent()->getRight()] dereferences NULL. *)
Fixpoint predecessor_climb (t : tree V) (ctx : path V) : result (tree V * path V) :=
  match ctx with
  | [] => Err NullDeref
  | RightOf l k v b :: c => Ok (Node l k v b t, c)
  | LeftOf k v b r :: c => predecessor_climb (Node t k v b r) c
  end.

(** [AVLTree::predecessor(current)]: the rightmost node of the left subtree,
    or the climb. *)
Definition predecessor (t : tree V) (ctx : path V) : result (tree V * path V) :=
  match t with
  | Leaf => Err NullDeref
  | Node l k v b r =>
      if negb (empty l) then Ok (rightmost l (LeftOf k v b r :: ctx))
      else predecessor_climb t ctx
  end.

(** [pred = predecessor(node); nodeSwap(node, pred)] in [AVLTree::remove], for
    a node with two children: [BinarySearchTree::nodeSwap] exchanges the
    positions of the two nodes and [AVLTree::nodeSwap] then exchanges their
    balances, so every position keeps its balance and only the items move.
    The result is [node] at its new position (where [pred] was: no right
    child) with its new parents, among which [pred] now stands in [node]'s old
    place. *)
Definition swapWithPredecessor (node : tree V) (ctx : path V) : tree V * path V :=
  match node with
  | Node l k v b r =>
      match rightmost l [] with
      | (Node pl pk pv pb pr, lctx) => (Node pl k v pb pr, lctx ++ LeftOf pk pv b r :: ctx)
      | (Leaf, _) => (node, ctx) (* not reached: node has a left child *)
      end
  | Leaf => (node, ctx)
  end.

(** [AVLTree::removal_case_0(node)]: what takes the place of the removed leaf
    under its parent (or as [root_]): NULL. *)
Definition removal_case_0 (node : tree V) : tree V := Leaf.

(** [AVLTree::removal_case_1(node)]: the only child, promoted into [node]'s
    place (re-parented to [node]'s parent, or made [root_]). *)
Definition removal_case_1 (node : tree V) : tree V :=
  match node with
  | Leaf => Leaf
  | Node l _ _ _ r => if negb (empty l) then l else r
  end.

(** [AVLTree::removeFix(node, diff)]: [node] is the focus with parents [ctx];
    [ndiff] is computed from [node]'s side before any change (it is left
    uninitialised in the code when there is no parent, and then never read);
    [retrace] is the tail call [removeFix(parent, ndiff)], which stops at once
    when [parent] is NULL. *)
Fixpoint removeFix (node : tree V) (diff : Z) (ctx : path V) {struct ctx} : tree V :=
  let ndiff := match ctx with LeftOf _ _ _ _ :: _ => 1 | _ => -1 end in
  let retrace (t : tree V) :=
    match ctx with [] => t | f :: c => removeFix (plug_frame t f) ndiff c end in
  let node := updateBalance diff node in
  let node_bal := getBalance node in
  if node_bal =? 0 then retrace node
  else if node_bal =? -2 then
    let child := getLeft node in
    let child_bal := getBalance child in
    if child_bal =? -1 then
      (* zig-zig: rotateRight(node); node 0, child 0 *)
      retrace (setBalance 0 (onRight (setBalance 0) (rotateRight node)))
    else if child_bal =? 0 then
      (* zig-zig: rotateRight(node); node -1, child 1; height unchanged *)
      plug (setBalance 1 (onRight (setBalance (-1)) (rotateRight node))) ctx
    else
      (* zig-zag: rotateLeft(child); rotateRight(node): grandchild on top,
         child left, node right *)
      let grandchild := getRight child in
      let grandchild_bal := getBalance grandchild in
      let t := rotateRight (onLeft rotateLeft node) in
      if grandchild_bal =? 1 then
        retrace (setBalance 0 (onRight (setBalance 0) (onLeft (setBalance (-1)) t)))
      else if grandchild_bal =? 0 then
        retrace (setBalance 0 (onRight (setBalance 0) (onLeft (setBalance 0) t)))
      else
        retrace (setBalance 0 (onRight (setBalance 1) (onLeft (setBalance 0) t)))
  else if node_bal =? 2 then
    let child := getRight node in
    let child_bal := getBalance child in
    if child_bal =? 1 then
      (* zig-zig: rotateLeft(node); node 0, child 0 *)
      retrace (setBalance 0 (onLeft (setBalance 0) (rotateLeft node)))
    else if child_bal =? 0 then
      (* zig-zig: rotateLeft(node); node 1, child -1; height unchanged *)
      plug (setBalance (-1) (onLeft (setBalance 1) (rotateLeft node))) ctx
    else
      (* zig-zag: rotateRight(child); rotateLeft(node): grandchild on top,
         node left, child right *)
      let grandchild := getLeft child in
      let grandchild_bal := getBalance grandchild in
      let t := rotateLeft (onRight rotateRight node) in
      if grandchild_bal =? -1 then
        retrace (setBalance 0 (onLeft (setBalance 0) (onRight (setBalance 1) t)))
      else if grandchild_bal =? 0 then
        retrace (setBalance 0 (onLeft (setBalance 0) (onRight (setBalance 0) t)))
      else
        retrace (setBalance 0 (onLeft (setBalance (-1)) (onRight (setBalance 0) t)))
  else plug node ctx.

(** The part of [AVLTree::remove] after the predecessor swap: only when
    [node] has a parent, compute [diff] from its side, splice [node] out and
    retrace from the parent.  A node without parent (the root, with at most
    one child) is left in place. *)
Definition removeAt (node : tree V) (ctx : path V) : tree V :=
  match ctx with
  | [] => plug node ctx
  | f :: c =>
      let diff := match f with LeftOf _ _ _ _ => 1 | RightOf _ _ _ _ => -1 end in
      let n_children := numChildren node in
      let spliced :=
        if Nat.eqb n_children 0 then removal_case_0 node else removal_case_1 node in
      removeFix (plug_frame spliced f) diff c
  end.

(** [AVLTree::remove]: find the node; if it has two children, swap it with
    its predecessor first. *)
Definition remove (key : Z) (t : tree V) : tree V :=
  match internalFind key t with
  | None => t
  | Some (node, ctx) =>
      if Nat.eqb (numChildren node) 2 then
        let '(node', ctx') := swapWithPredecessor node ctx in removeAt node' ctx'
      else removeAt node ctx
  end.

End Ops.

(** The balance a node stores when its [s] side is the higher one. *)
Definition heavy (s : side) : Z := match s with L => -1 | R => 1 end.

Section Contents.
Context {V : Type}.
Implicit Types (t : tree V) (ctx : path V).

(** A fresh [AVLNode] is a leaf with balance 0. *)
Lemma new_AVLNode_leaf k (v : V) : new_AVLNode k v = Node Leaf k v 0 Leaf.
Proof. reflexivity. Qed.

(** ** Balances and rotations never change the in-order contents *)

Lemma elements_setBalance b t : elements (setBalance b t) = elements t.
Proof. now destruct t. Qed.

Lemma elements_updateBalance d t : elements (updateBalance d t) = elements t.
Proof. now destruct t. Qed.

Lemma elements_rotateRight t : elements (rotateRight t) = elements t.
Proof.
  destruct t as [|[|a ck cv cb c] k v b r]; simpl; auto. now rewrite <- app_assoc.
Qed.

Lemma elements_rotateLeft t : elements (rotateLeft t) = elements t.
Proof.
  destruct t as [|l k v b [|c ck cv cb d]]; simpl; auto. now rewrite <- app_assoc.
Qed.

Lemma elements_onLeft f t :
  (forall x, elements (f x) = elements x) -> elements (onLeft f t) = elements t.
Proof. intros Hf; destruct t; simpl; auto. now rewrite Hf. Qed.

Lemma elements_onRight f t :
  (forall x, elements (f x) = elements x) -> elements (onRight f t) = elements t.
Proof. intros Hf; destruct t; simpl; auto. now rewrite Hf. Qed.

(** The two rotations undo each other where they rotate. *)
Lemma rotateLeft_rotateRight t : getLeft t <> Leaf -> rotateLeft (rotateRight t) = t.
Proof. destruct t as [|[|] ? ? ? ?]; cbn; congruence. Qed.

Lemma rotateRight_rotateLeft t : getRight t <> Leaf -> rotateRight (rotateLeft t) = t.
Proof. destruct t as [|? ? ? ? []]; cbn; congruence. Qed.

End Contents.

#[export] Hint Rewrite @elements_setBalance @elements_updateBalance
  @elements_rotateRight @elements_rotateLeft : avl_rw.
#[export] Hint Rewrite @elements_onLeft @elements_onRight
  using (intros; autorewrite with avl_rw; reflexivity) : avl_rw.

Section InsertContents.
Context {V : Type}.
Implicit Types (t : tree V) (ctx : path V).

(** Rebuilding the tree from a subtree with the same contents. *)
Lemma elements_plug_eq t1 t2 ctx :
  elements t1 = elements t2 -> elements (plug t1 ctx) = elements (plug t2 ctx).
Proof. intros H. now rewrite !elements_plug, H. Qed.

Lemma insertFix_contents p s ctx :
  elements (insertFix p s ctx) = elements (plug p ctx).
Proof.
  revert p s; induction ctx as [|[gk gv gb gr | gl gk gv gb] c IH]; intros p s;
    cbn [insertFix plug plug_frame]; auto;
    repeat match goal with |- context [if ?b then _ else _] => destruct b end;
    rewrite ?IH; apply elements_plug_eq; autorewrite with avl_rw; reflexivity.
Qed.

(** C10. The retrace [insertFix] (its rotations and balance updates) never
    changes the in-order items of the tree. *)
Lemma elements_insertFix p s ctx :
  elements (insertFix p s ctx) = elements (plug p ctx).
Proof. apply insertFix_contents. Qed.

(** Retracing after hanging [item] in the slot [f :: c] only changes
    balances. *)
Lemma elements_insert_slot (item : tree V) (f : frame V) (c : path V) d s :
  elements (insertFix (updateBalance d (plug_frame item f)) s c) =
  elements (plug item (f :: c)) /\
  elements (plug (updateBalance d (plug_frame item f)) c) = elements (plug item (f :: c)).
Proof.
  rewrite insertFix_contents. change (plug item (f :: c)) with (plug (plug_frame item f) c).
  split; apply elements_plug_eq; now destruct f.
Qed.

Lemma insert_contents key value (t : tree V) :
  bst t -> elements (insert key value t) = assoc_put key value (elements t).
Proof.
  intros Hs. unfold insert. rewrite !new_AVLNode_leaf. destruct (empty t) eqn:He.
  { destruct t; [reflexivity | discriminate]. }
  destruct (internalFind key t) as [[n c]|] eqn:Hf.
  { now apply elements_setValue_found. }
  pose proof (elements_descend_slot key value 0 t Hs (internalFind_absent key t Hs Hf))
    as Hd.
  destruct (descend key t []) as [|f c] eqn:Hdesc.
  { apply descend_nil in Hdesc as [-> _]. discriminate. }
  rewrite <- Hd.
  destruct f as [pk pv pb pr | pl pk pv pb]; cbv zeta; destruct (_ =? 0).
  - exact (proj2 (elements_insert_slot _ (LeftOf pk pv pb pr) c (-1) L)).
  - exact (proj1 (elements_insert_slot _ (LeftOf pk pv pb pr) c (-1) L)).
  - exact (proj2 (elements_insert_slot _ (RightOf pl pk pv pb) c 1 R)).
  - exact (proj1 (elements_insert_slot _ (RightOf pl pk pv pb) c 1 R)).
Qed.

(** C3. [insert] is upsert on the sorted contents. *)
Theorem insert_elements key value (t : tree V) :
  bst t -> elements (insert key value t) = assoc_put key value (elements t).
Proof. apply insert_contents. Qed.

Lemma insert_keeps_bst key value (t : tree V) : bst t -> bst (insert key value t).
Proof.
  intros Hs. unfold bst, keys. rewrite insert_contents by exact Hs.
  apply assoc_put_sorted, Hs.
Qed.

(** C8. [insert] keeps the in-order keys strictly increasing. *)
Corollary insert_bst key value (t : tree V) : bst t -> bst (insert key value t).
Proof. apply insert_keeps_bst. Qed.

(** C11. Upsert: inserting a key a second time leaves the contents of a
    single insertion of the second value, and does not change the size. *)
Theorem insert_insert_same key v1 v2 (t : tree V) :
  bst t ->
  elements (insert key v2 (insert key v1 t)) = elements (insert key v2 t) /\
  size (insert key v2 (insert key v1 t)) = size (insert key v1 t).
Proof.
  intros Hs. pose proof (insert_keeps_bst key v1 t Hs) as Hs1.
  rewrite !size_elements, !insert_contents by auto. rewrite assoc_put_put.
  split; auto. rewrite !length_assoc_put by exact Hs. reflexivity.
Qed.

End InsertContents.
End AVLTree.

Module AVLInsertInv.
Import AVLTree.
Section InsertAvl.
Context {V : Type}.
Implicit Types (t p : tree V) (ctx : path V).

Lemma insertFix_keeps_avl p s ctx h :
  avl p -> height p = S h -> ctx_ok h ctx -> getBalance p = heavy s ->
  avl (insertFix p s ctx).
Proof.
  revert p s h; induction ctx as [|[gk gv gb gr | gl gk gv gb] c IH];
    intros p s h Hp Hh Hc Hb; [exact Hp| |];
    destruct Hc as (Hgr & Hgb & Hgb1 & Hc);
    destruct p as [|a pk pv pb pc]; try discriminate;
    simpl in Hb, Hh; cbn [insertFix updateBalance getBalance];
    rewrite wrap8_small by lia;
    assert (gb = -1 \/ gb = 0 \/ gb = 1) as [-> | [-> | ->]] by lia; simpl.
  - destruct s; simpl in Hb; subst pb; simpl.
    + apply avl_plug; [avl_arith | ctx_arith Hc].
    + destruct pc as [|n1 nk nv nb n2]; [simpl in *; split_hyps; unfold hdiff in *; simpl in *; lia|].
      simpl in Hp; split_hyps.
      assert (nb = -1 \/ nb = 0 \/ nb = 1) as [-> | [-> | ->]] by lia; simpl;
        (apply avl_plug; [avl_arith | ctx_arith Hc]).
  - apply (IH _ L (S h)); [avl_arith | height_arith | ctx_arith Hc | reflexivity].
  - apply avl_plug; [avl_arith | ctx_arith Hc].
  - apply avl_plug; [avl_arith | ctx_arith Hc].
  - apply (IH _ R (S h)); [avl_arith | height_arith | ctx_arith Hc | reflexivity].
  - destruct s; simpl in Hb; subst pb; simpl.
    + destruct a as [|n1 nk nv nb n2]; [simpl in *; split_hyps; unfold hdiff in *; simpl in *; lia|].
      simpl in Hp; split_hyps.
      assert (nb = -1 \/ nb = 0 \/ nb = 1) as [-> | [-> | ->]] by lia; simpl;
        (apply avl_plug; [avl_arith | ctx_arith Hc]).
    + apply avl_plug; [avl_arith | ctx_arith Hc].
Qed.

(** C6. The retrace invariant of [insertFix]: if [p] is AVL, grew by one
    level (to [S h]) on its [s] side, whose balance it records, and its
    parents are consistent with the old height [h], then the tree
    [insertFix] returns is AVL. *)
Lemma insertFix_avl p s ctx h :
  avl p -> height p = S h -> ctx_ok h ctx -> getBalance p = heavy s ->
  avl (insertFix p s ctx).
Proof. apply insertFix_keeps_avl. Qed.

Lemma insert_keeps_avl key value t : avl t -> avl (insert key value t).
Proof.
  intros Ht. unfold insert. rewrite !new_AVLNode_leaf. destruct (empty t) eqn:He.
  { repeat split; cbn; lia. }
  destruct (internalFind key t) as [[n c]|] eqn:Hf.
  { apply internalFind_found in Hf as [<- (l & v & b & r & ->)].
    apply avl_plug_inv in Ht as [Hn Hc]. apply avl_plug; [exact Hn | exact Hc]. }
  pose proof (descend_plug key t []) as Hd. simpl in Hd.
  pose proof Ht as Ht0. rewrite <- Hd in Ht. apply avl_plug_inv in Ht as [_ Hc].
  destruct (descend key t []) as [|[pk pv pb pr | pl pk pv pb] c];
    [exact Ht0 | |]; destruct Hc as (Hpr & Hpb & Hpb1 & Hc); cbv zeta;
    cbn [updateBalance getBalance]; rewrite wrap8_small by lia;
    cbn [height] in Hpb; assert (pb = 0 \/ pb = 1 \/ pb = -1) as [-> | [-> | ->]] by lia;
    simpl.
  - apply (insertFix_keeps_avl _ L _ 1); [avl_arith | height_arith | ctx_arith Hc | reflexivity].
  - apply avl_plug; [avl_arith | ctx_arith Hc].
  - lia.
  - apply (insertFix_keeps_avl _ R _ 1); [avl_arith | height_arith | ctx_arith Hc | reflexivity].
  - lia.
  - apply avl_plug; [avl_arith | ctx_arith Hc].
Qed.

(** C1. [insert] preserves the AVL invariant: afterwards every stored
    balance is the true height difference of the node's subtrees and lies in
    {-1,0,1}. *)
Theorem insert_avl key value t : avl t -> avl (insert key value t).
Proof. apply insert_keeps_avl. Qed.

End InsertAvl.
End AVLInsertInv.

(** ** Witnesses: the theorems applied to concrete trees *)

Module AVLInsertWitnesses.
Import AVLTree AVLInsertInv.

(** C1 on the tree of spec scenario 1 (keys 5,3,8,1,4,7,9), inserting 6. *)
Lemma insert_avl_witness :
  avl (fold_left (fun t k => insert k k t) [5;3;8;1;4;7;9] (@Leaf Z)) /\
  avl (insert 6 6 (fold_left (fun t k => insert k k t) [5;3;8;1;4;7;9] (@Leaf Z))).
Proof.
  assert (H : avl (fold_left (fun t k => insert k k t) [5;3;8;1;4;7;9] (@Leaf Z)))
    by (apply avl_of_avlb; vm_compute; reflexivity).
  split; [exact H | apply insert_avl; exact H].
Defined.

(** C3 on the same tree: inserting 6 puts it between 5 and 7. *)
Lemma insert_elements_witness :
  bst (fold_left (fun t k => insert k k t) [5;3;8;1;4;7;9] (@Leaf Z)) /\
  elements (insert 6 6 (fold_left (fun t k => insert k k t) [5;3;8;1;4;7;9] (@Leaf Z))) =
  [(1,1);(3,3);(4,4);(5,5);(6,6);(7,7);(8,8);(9,9)].
Proof.
  assert (H : bst (fold_left (fun t k => insert k k t) [5;3;8;1;4;7;9] (@Leaf Z)))
    by (apply bst_of_bstb; vm_compute; reflexivity).
  split; [exact H|]. rewrite (insert_elements 6 6 _ H). vm_compute. reflexivity.
Defined.

(** C6 at the retrace of spec scenario 2: after 10 and 20, inserting 30
    leaves the parent 20 right-heavy under the right-heavy root 10. *)
Lemma insertFix_avl_witness :
  avl (Node Leaf 20 20 1 (Node Leaf 30 30 0 Leaf)) /\
  height (Node Leaf 20 20 1 (Node Leaf 30 30 0 Leaf)) = S 1 /\
  ctx_ok 1 [RightOf (@Leaf Z) 10 10 1] /\
  getBalance (Node Leaf 20 20 1 (Node (@Leaf Z) 30 30 0 Leaf)) = heavy R /\
  avl (insertFix (Node Leaf 20 20 1 (Node Leaf 30 30 0 Leaf)) R [RightOf Leaf 10 10 1]).
Proof.
  assert (Hp : avl (Node Leaf 20 20 1 (Node (@Leaf Z) 30 30 0 Leaf)))
    by (apply avl_of_avlb; vm_compute; reflexivity).
  assert (Hc : ctx_ok 1 [RightOf (@Leaf Z) 10 10 1]) by (cbn; repeat split; lia).
  split; [exact Hp|]. split; [reflexivity|]. split; [exact Hc|]. split; [reflexivity|].
  apply (insertFix_avl _ R _ 1 Hp eq_refl Hc eq_refl).
Defined.

(** C8 on the tree of spec scenario 3 (keys 30,10,20). *)
Lemma insert_bst_witness :
  bst (fold_left (fun t k => insert k k t) [30;10] (@Leaf Z)) /\
  bst (insert 20 20 (fold_left (fun t k => insert k k t) [30;10] (@Leaf Z))).
Proof.
  assert (H : bst (fold_left (fun t k => insert k k t) [30;10] (@Leaf Z)))
    by (apply bst_of_bstb; vm_compute; reflexivity).
  split; [exact H | apply insert_bst; exact H].
Defined.

(** C11: inserting key 4 twice. *)
Lemma insert_insert_same_witness :
  bst (fold_left (fun t k => insert k k t) [5;3;8;1;4;7;9] (@Leaf Z)) /\
  size (insert 4 0 (insert 4 1 (fold_left (fun t k => insert k k t) [5;3;8;1;4;7;9] (@Leaf Z))))
  = size (insert 4 1 (fold_left (fun t k => insert k k t) [5;3;8;1;4;7;9] (@Leaf Z))).
Proof.
  assert (H : bst (fold_left (fun t k => insert k k t) [5;3;8;1;4;7;9] (@Leaf Z)))
    by (apply bst_of_bstb; vm_compute; reflexivity).
  split; [exact H | apply (insert_insert_same 4 1 0 _ H)].
Defined.

End AVLInsertWitnesses.
