(* ===== verification/NodeSwap.v ===== *)
(** [BinarySearchTree::nodeSwap] and [AVLTree::nodeSwap] at the level of
    pointers.  The zipper model of the other files exchanges node records
    ([BinarySearchTree.nodeSwap], [AVLTree.swapWithPredecessor]); this file
    justifies that abstraction against the code of [src/bst.h] and
    [src/avlbst.h], which re-links [parent_], [left_] and [right_] pointers.

    Memory is modelled field by field (one map per member, the Burstall-Bornat
    component model): [parent_], [left_], [right_], the [item_] and the AVL
    [balance_] of every node address.  A pointer is [option loc] ([None] is
    NULL); dereferencing NULL is [Err NullDeref].  The code runs in a state
    and error monad over the memory and [root_].

    Theorems: on a heap whose links are consistent (each child points back to
    its parent, no node is its own parent, ...), [nodeSwap n1 n2] renames
    [n1] and [n2] in the whole pointer graph: every link of the result is
    the transposition of the corresponding link of the other node, in all
    cases (adjacent nodes, siblings, the root), while items stay with their
    nodes; [AVLTree::nodeSwap] also exchanges the balances back.  On a heap
    that stores a tree, swapping a node with its predecessor therefore
    stores exactly the tree the zipper operations compute. *)

From Stdlib Require Import ZArith List Lia Bool Arith.
From S2P Require Import Prelude Tree Bst Avl.
Import ListNotations.
Open Scope Z_scope.

Module NodeSwap.

(** Node addresses and pointers. *)
Definition loc : Type := nat.
Definition ptr : Type := option loc.

Section Heap.
Context {V : Type}.

(** The members of every node object, one map per member. *)
Record heap : Type := Heap {
  parent_ : loc -> ptr;
  left_ : loc -> ptr;
  right_ : loc -> ptr;
  item_ : loc -> Z * V;
  balance_ : loc -> Z
}.

(** The heap and the tree's [root_]. *)
Record state : Type := State { mem : heap; root_ : ptr }.

(** A store to one member of one node. *)
Definition upd {A : Type} (f : loc -> A) (x : loc) (a : A) : loc -> A :=
  fun y => if Nat.eqb y x then a else f y.

(** Pointer comparison [p == q]. *)
Definition ptr_eqb (p q : ptr) : bool :=
  match p, q with
  | None, None => true
  | Some x, Some y => Nat.eqb x y
  | _, _ => false
  end.

(** [p != NULL]. *)
Definition notNull (p : ptr) : bool := match p with Some _ => true | None => false end.

End Heap.

Arguments heap V : clear implicits.
Arguments state V : clear implicits.

(** The state and error monad the code runs in. *)
Definition M (V A : Type) : Type := state V -> result (A * state V).

Definition ret {V A : Type} (a : A) : M V A := fun s => Ok (a, s).

Definition mbind {V A B : Type} (m : M V A) (k : A -> M V B) : M V B :=
  fun s => match m s with Ok (a, s') => k a s' | Err e => Err e end.

Declare Scope ptr_scope.
Delimit Scope ptr_scope with ptr.
Notation "x <- m ;; k" := (mbind m (fun x => k))
  (at level 61, m at next level, right associativity) : ptr_scope.
Notation "m ;;; k" := (mbind m (fun _ => k))
  (at level 61, right associativity) : ptr_scope.

Section Code.
Context {V : Type}.
Local Open Scope ptr_scope.

(** Reads through a pointer: [n->getParent()], [n->getLeft()],
    [n->getRight()], [n->getBalance()]. *)
Definition deref {A : Type} (f : heap V -> loc -> A) (n : ptr) : M V A :=
  fun s => match n with None => Err NullDeref | Some x => Ok (f (mem s) x, s) end.

Definition getParent (n : ptr) : M V ptr := deref parent_ n.
Definition getLeft (n : ptr) : M V ptr := deref left_ n.
Definition getRight (n : ptr) : M V ptr := deref right_ n.
Definition getBalance (n : ptr) : M V Z := deref balance_ n.

(** Stores through a pointer: [n->setParent(p)], [n->setLeft(p)],
    [n->setRight(p)], [n->setBalance(b)]. *)
Definition store (f : heap V -> loc -> heap V) (n : ptr) : M V unit :=
  fun s => match n with
           | None => Err NullDeref
           | Some x => Ok (tt, State (f (mem s) x) (root_ s))
           end.

Definition setParent (n p : ptr) : M V unit :=
  store (fun h x => Heap (upd (parent_ h) x p) (left_ h) (right_ h) (item_ h) (balance_ h)) n.
Definition setLeft (n p : ptr) : M V unit :=
  store (fun h x => Heap (parent_ h) (upd (left_ h) x p) (right_ h) (item_ h) (balance_ h)) n.
Definition setRight (n p : ptr) : M V unit :=
  store (fun h x => Heap (parent_ h) (left_ h) (upd (right_ h) x p) (item_ h) (balance_ h)) n.
Definition setBalance (n : ptr) (b : Z) : M V unit :=
  store (fun h x => Heap (parent_ h) (left_ h) (right_ h) (item_ h) (upd (balance_ h) x b)) n.

Definition getRoot : M V ptr := fun s => Ok (root_ s, s).
Definition setRoot (p : ptr) : M V unit := fun s => Ok (tt, State (mem s) p).

(** [if (c) stmt;] *)
Definition when (c : bool) (m : M V unit) : M V unit := if c then m else ret tt.

(** [n1isLeft]: [n1p != NULL && (n1 == n1p->getLeft())]. *)
Definition isLeftChild (n np : ptr) : M V bool :=
  if notNull np then l <- getLeft np ;; ret (ptr_eqb n l) else ret false.

(** The three member swaps of [nodeSwap]: [temp = n1->getParent();
    n1->setParent(n2->getParent()); n2->setParent(temp);] and the same for
    [left_] and [right_]. *)
Definition swapMembers (n1 n2 : ptr) : M V unit :=
  temp <- getParent n1 ;; p <- getParent n2 ;; setParent n1 p ;;; setParent n2 temp ;;;
  temp <- getLeft n1 ;; l <- getLeft n2 ;; setLeft n1 l ;;; setLeft n2 temp ;;;
  temp <- getRight n1 ;; r <- getRight n2 ;; setRight n1 r ;;; setRight n2 temp.

(** The four cases where one node is a child of the other (tested on the
    members saved before the swap). *)
Definition fixAdjacent (n1 n2 n1r n2r n1lt n2lt : ptr) : M V unit :=
  if notNull n1r && ptr_eqb n1r n2 then setRight n2 n1 ;;; setParent n1 n2
  else if notNull n2r && ptr_eqb n2r n1 then setRight n1 n2 ;;; setParent n2 n1
  else if notNull n1lt && ptr_eqb n1lt n2 then setLeft n2 n1 ;;; setParent n1 n2
  else if notNull n2lt && ptr_eqb n2lt n1 then setLeft n1 n2 ;;; setParent n2 n1
  else ret tt.

(** The neighbours of [n1] (its old parent and children, other than [n2])
    are re-pointed to [n2]; the code repeats the block with [n1] and [n2]
    exchanged. *)
Definition relinkNeighbours (n1 n2 n1p n1r n1lt : ptr) (n1isLeft : bool) : M V unit :=
  when (notNull n1p && negb (ptr_eqb n1p n2))
    (if n1isLeft then setLeft n1p n2 else setRight n1p n2) ;;;
  when (notNull n1r && negb (ptr_eqb n1r n2)) (setParent n1r n2) ;;;
  when (notNull n1lt && negb (ptr_eqb n1lt n2)) (setParent n1lt n2).

(** [if (this->root_ == n1) this->root_ = n2; else if (this->root_ == n2)
    this->root_ = n1;] *)
Definition swapRoot (n1 n2 : ptr) : M V unit :=
  rt <- getRoot ;;
  if ptr_eqb rt n1 then setRoot n2
  else if ptr_eqb rt n2 then setRoot n1
  else ret tt.

(** [BinarySearchTree::nodeSwap(n1, n2)]. *)
Definition nodeSwap (n1 n2 : ptr) : M V unit :=
  if ptr_eqb n1 n2 || negb (notNull n1) || negb (notNull n2) then ret tt else
  n1p <- getParent n1 ;; n1r <- getRight n1 ;; n1lt <- getLeft n1 ;;
  n1isLeft <- isLeftChild n1 n1p ;;
  n2p <- getParent n2 ;; n2r <- getRight n2 ;; n2lt <- getLeft n2 ;;
  n2isLeft <- isLeftChild n2 n2p ;;
  swapMembers n1 n2 ;;;
  fixAdjacent n1 n2 n1r n2r n1lt n2lt ;;;
  relinkNeighbours n1 n2 n1p n1r n1lt n1isLeft ;;;
  relinkNeighbours n2 n1 n2p n2r n2lt n2isLeft ;;;
  swapRoot n1 n2.

(** [AVLTree::nodeSwap(n1, n2)]: the BST swap, then the balances are
    exchanged. *)
Definition avl_nodeSwap (n1 n2 : ptr) : M V unit :=
  nodeSwap n1 n2 ;;;
  tempB <- getBalance n1 ;; b2 <- getBalance n2 ;;
  setBalance n1 b2 ;;; setBalance n2 tempB.

End Code.

(** ** The effect of [nodeSwap] as a function of the heap *)

Section Effect.
Context {V : Type}.
Implicit Types (h : heap V) (r : ptr).

(** Pure stores to one member. *)
Definition sp h x p : heap V := Heap (upd (parent_ h) x p) (left_ h) (right_ h) (item_ h) (balance_ h).
Definition sl h x p : heap V := Heap (parent_ h) (upd (left_ h) x p) (right_ h) (item_ h) (balance_ h).
Definition sr h x p : heap V := Heap (parent_ h) (left_ h) (upd (right_ h) x p) (item_ h) (balance_ h).

(** A store through a pointer the code has tested for NULL. *)
Definition through (f : heap V -> loc -> ptr -> heap V) h (n : ptr) (p : ptr) : heap V :=
  match n with Some x => f h x p | None => h end.

Definition members_h h n1 n2 : heap V :=
  Heap (upd (upd (parent_ h) n1 (parent_ h n2)) n2 (parent_ h n1))
       (upd (upd (left_ h) n1 (left_ h n2)) n2 (left_ h n1))
       (upd (upd (right_ h) n1 (right_ h n2)) n2 (right_ h n1))
       (item_ h) (balance_ h).

Definition adjacent_h h n1 n2 (n1r n2r n1lt n2lt : ptr) : heap V :=
  if ptr_eqb n1r (Some n2) then sp (sr h n2 (Some n1)) n1 (Some n2)
  else if ptr_eqb n2r (Some n1) then sp (sr h n1 (Some n2)) n2 (Some n1)
  else if ptr_eqb n1lt (Some n2) then sp (sl h n2 (Some n1)) n1 (Some n2)
  else if ptr_eqb n2lt (Some n1) then sp (sl h n1 (Some n2)) n2 (Some n1)
  else h.

Definition relink_h h (n1 n2 n1p n1r n1lt : ptr) (isL : bool) : heap V :=
  let h := if notNull n1p && negb (ptr_eqb n1p n2)
           then (if isL then through sl h n1p n2 else through sr h n1p n2) else h in
  let h := if notNull n1r && negb (ptr_eqb n1r n2) then through sp h n1r n2 else h in
  if notNull n1lt && negb (ptr_eqb n1lt n2) then through sp h n1lt n2 else h.

Definition is_left h (n : loc) (np : ptr) : bool :=
  match np with Some p => ptr_eqb (Some n) (left_ h p) | None => false end.

(** The heap after [nodeSwap n1 n2] of two distinct nodes. *)
Definition nodeSwap_h h n1 n2 : heap V :=
  relink_h
    (relink_h
       (adjacent_h (members_h h n1 n2) n1 n2 (right_ h n1) (right_ h n2) (left_ h n1) (left_ h n2))
       (Some n1) (Some n2) (parent_ h n1) (right_ h n1) (left_ h n1) (is_left h n1 (parent_ h n1)))
    (Some n2) (Some n1) (parent_ h n2) (right_ h n2) (left_ h n2) (is_left h n2 (parent_ h n2)).

Definition swap_loc (n1 n2 y : loc) : loc :=
  if Nat.eqb y n1 then n2 else if Nat.eqb y n2 then n1 else y.

Definition swap_ptr (n1 n2 : loc) (p : ptr) : ptr := option_map (swap_loc n1 n2) p.

Lemma ptr_eqb_null p (n : loc) : notNull p && ptr_eqb p (Some n) = ptr_eqb p (Some n).
Proof. now destruct p. Qed.

Lemma swapMembers_effect h r n1 n2 :
  swapMembers (Some n1) (Some n2) (State h r) = Ok (tt, State (members_h h n1 n2) r).
Proof. reflexivity. Qed.

Lemma fixAdjacent_effect h r n1 n2 n1r n2r n1lt n2lt :
  fixAdjacent (Some n1) (Some n2) n1r n2r n1lt n2lt (State h r) =
  Ok (tt, State (adjacent_h h n1 n2 n1r n2r n1lt n2lt) r).
Proof.
  unfold fixAdjacent, adjacent_h. rewrite !ptr_eqb_null.
  destruct (ptr_eqb n1r (Some n2)), (ptr_eqb n2r (Some n1)), (ptr_eqb n1lt (Some n2)),
    (ptr_eqb n2lt (Some n1)); reflexivity.
Qed.

Lemma when_effect (c : bool) (m : M V unit) s s' :
  (c = true -> m s = Ok (tt, s')) -> (c = false -> s' = s) -> when c m s = Ok (tt, s').
Proof. destruct c; cbn; intros H1 H2; [now apply H1 | now rewrite H2]. Qed.

Lemma relinkNeighbours_effect h r n1 n2 n1p n1r n1lt isL :
  relinkNeighbours n1 n2 n1p n1r n1lt isL (State h r) =
  Ok (tt, State (relink_h h n1 n2 n1p n1r n1lt isL) r).
Proof.
  unfold relinkNeighbours, relink_h.
  destruct n1p, n1r, n1lt, isL; cbn [notNull andb negb];
    destruct_all bool; repeat (destruct (ptr_eqb _ _)); reflexivity.
Qed.

Lemma swapRoot_effect h r n1 n2 :
  n1 <> n2 -> swapRoot (Some n1) (Some n2) (State h r) = Ok (tt, State h (swap_ptr n1 n2 r)).
Proof.
  intros Hn. destruct r as [x|]; [|reflexivity]. unfold swapRoot, swap_ptr, swap_loc. cbn.
  destruct (Nat.eqb_spec x n1); [reflexivity|]. destruct (Nat.eqb_spec x n2); reflexivity.
Qed.

Lemma bind_ok {A B : Type} (m : M V A) (k : A -> M V B) s a s' :
  m s = Ok (a, s') -> mbind m k s = k a s'.
Proof. unfold mbind. now intros ->. Qed.

Lemma isLeftChild_effect n np s :
  isLeftChild (V := V) (Some n) np s = Ok (is_left (mem s) n np, s).
Proof. destruct np; reflexivity. Qed.

(** [nodeSwap] of two distinct nodes always succeeds, with the heap
    [nodeSwap_h] and the root renamed. *)
Lemma nodeSwap_effect h r n1 n2 :
  n1 <> n2 ->
  nodeSwap (Some n1) (Some n2) (State h r) = Ok (tt, State (nodeSwap_h h n1 n2) (swap_ptr n1 n2 r)).
Proof.
  intros Hn. unfold nodeSwap. apply Nat.eqb_neq in Hn as Hb. cbn [ptr_eqb notNull negb orb]. rewrite Hb. cbn [orb].
  do 3 (erewrite bind_ok by reflexivity; cbv beta).
  erewrite bind_ok by apply isLeftChild_effect; cbv beta.
  do 3 (erewrite bind_ok by reflexivity; cbv beta).
  erewrite bind_ok by apply isLeftChild_effect; cbv beta.
  erewrite bind_ok by apply swapMembers_effect; cbv beta.
  erewrite bind_ok by apply fixAdjacent_effect; cbv beta.
  erewrite bind_ok by apply relinkNeighbours_effect; cbv beta.
  erewrite bind_ok by apply relinkNeighbours_effect; cbv beta.
  now apply swapRoot_effect.
Qed.

(** How each member of the result reads, block by block. *)
Lemma parent_members h n1 n2 y :
  parent_ (members_h h n1 n2) y =
  if Nat.eqb y n2 then parent_ h n1 else if Nat.eqb y n1 then parent_ h n2 else parent_ h y.
Proof. reflexivity. Qed.

Lemma left_members h n1 n2 y :
  left_ (members_h h n1 n2) y =
  if Nat.eqb y n2 then left_ h n1 else if Nat.eqb y n1 then left_ h n2 else left_ h y.
Proof. reflexivity. Qed.

Lemma right_members h n1 n2 y :
  right_ (members_h h n1 n2) y =
  if Nat.eqb y n2 then right_ h n1 else if Nat.eqb y n1 then right_ h n2 else right_ h y.
Proof. reflexivity. Qed.

Ltac block_cases :=
  repeat (cbn; first
    [ match goal with |- context [Nat.eqb ?a ?b] => destruct (Nat.eqb a b) eqn:? end
    | match goal with |- context [match ?p with Some _ => _ | None => _ end] => destruct p end
    | match goal with |- context [if ?c then _ else _] => destruct c eqn:? end ]);
  first [reflexivity | congruence].

Lemma parent_adjacent h n1 n2 n1r n2r n1lt n2lt y :
  parent_ (adjacent_h h n1 n2 n1r n2r n1lt n2lt) y =
  if ptr_eqb n1r (Some n2) then (if Nat.eqb y n1 then Some n2 else parent_ h y)
  else if ptr_eqb n2r (Some n1) then (if Nat.eqb y n2 then Some n1 else parent_ h y)
  else if ptr_eqb n1lt (Some n2) then (if Nat.eqb y n1 then Some n2 else parent_ h y)
  else if ptr_eqb n2lt (Some n1) then (if Nat.eqb y n2 then Some n1 else parent_ h y)
  else parent_ h y.
Proof. unfold adjacent_h, sp, sl, sr, upd, ptr_eqb. block_cases. Qed.

Lemma left_adjacent h n1 n2 n1r n2r n1lt n2lt y :
  left_ (adjacent_h h n1 n2 n1r n2r n1lt n2lt) y =
  if ptr_eqb n1r (Some n2) then left_ h y
  else if ptr_eqb n2r (Some n1) then left_ h y
  else if ptr_eqb n1lt (Some n2) then (if Nat.eqb y n2 then Some n1 else left_ h y)
  else if ptr_eqb n2lt (Some n1) then (if Nat.eqb y n1 then Some n2 else left_ h y)
  else left_ h y.
Proof. unfold adjacent_h, sp, sl, sr, upd, ptr_eqb. block_cases. Qed.

Lemma right_adjacent h n1 n2 n1r n2r n1lt n2lt y :
  right_ (adjacent_h h n1 n2 n1r n2r n1lt n2lt) y =
  if ptr_eqb n1r (Some n2) then (if Nat.eqb y n2 then Some n1 else right_ h y)
  else if ptr_eqb n2r (Some n1) then (if Nat.eqb y n1 then Some n2 else right_ h y)
  else right_ h y.
Proof. unfold adjacent_h, sp, sl, sr, upd, ptr_eqb. block_cases. Qed.

Lemma parent_relink h n1 n2 n1p n1r n1lt isL y :
  parent_ (relink_h h n1 n2 n1p n1r n1lt isL) y =
  if ptr_eqb (Some y) n1lt && negb (ptr_eqb n1lt n2) then n2
  else if ptr_eqb (Some y) n1r && negb (ptr_eqb n1r n2) then n2
  else parent_ h y.
Proof.
  unfold relink_h, through, sp, sl, sr, upd, ptr_eqb.
  destruct n1p, n1r, n1lt, isL; cbn [notNull andb ptr_eqb]; block_cases.
Qed.

Lemma left_relink h n1 n2 n1p n1r n1lt isL y :
  left_ (relink_h h n1 n2 n1p n1r n1lt isL) y =
  if isL && ptr_eqb (Some y) n1p && negb (ptr_eqb n1p n2) then n2 else left_ h y.
Proof.
  unfold relink_h, through, sp, sl, sr, upd, ptr_eqb.
  destruct n1p, n1r, n1lt, isL; cbn [notNull andb ptr_eqb]; block_cases.
Qed.

Lemma right_relink h n1 n2 n1p n1r n1lt isL y :
  right_ (relink_h h n1 n2 n1p n1r n1lt isL) y =
  if negb isL && ptr_eqb (Some y) n1p && negb (ptr_eqb n1p n2) then n2 else right_ h y.
Proof.
  unfold relink_h, through, sp, sl, sr, upd, ptr_eqb.
  destruct n1p, n1r, n1lt, isL; cbn [notNull andb negb ptr_eqb]; block_cases.
Qed.

Lemma data_relink h n1 n2 n1p n1r n1lt isL :
  item_ (relink_h h n1 n2 n1p n1r n1lt isL) = item_ h /\
  balance_ (relink_h h n1 n2 n1p n1r n1lt isL) = balance_ h.
Proof.
  unfold relink_h, through, sp, sl, sr.
  destruct n1p, n1r, n1lt, isL; cbn [notNull andb negb ptr_eqb];
    repeat match goal with |- context [if ?c then _ else _] => destruct c end; split; reflexivity.
Qed.

Lemma data_adjacent h n1 n2 n1r n2r n1lt n2lt :
  item_ (adjacent_h h n1 n2 n1r n2r n1lt n2lt) = item_ h /\
  balance_ (adjacent_h h n1 n2 n1r n2r n1lt n2lt) = balance_ h.
Proof.
  unfold adjacent_h, sp, sl, sr.
  repeat match goal with |- context [if ?c then _ else _] => destruct c end; split; reflexivity.
Qed.

(** Consistent links: each child points back to its parent and each parent
    to its child, a node's two children differ, and no node is its own
    parent or its parent's parent.  Every heap of a [BinarySearchTree]
    satisfies it. *)
Record links_ok h : Prop := {
  left_parent : forall x c, left_ h x = Some c -> parent_ h c = Some x;
  right_parent : forall x c, right_ h x = Some c -> parent_ h c = Some x;
  parent_child : forall c x, parent_ h c = Some x -> left_ h x = Some c \/ right_ h x = Some c;
  children_distinct : forall x c, left_ h x = Some c -> right_ h x <> Some c;
  parent_irrefl : forall x, parent_ h x <> Some x;
  parent_asym : forall x y, parent_ h x = Some y -> parent_ h y <> Some x
}.

Ltac links_facts Hok :=
  repeat match goal with
  | H : left_ ?h ?x = Some ?c |- _ =>
      lazymatch goal with _ : parent_ h c = Some x |- _ => fail | _ => pose proof (left_parent _ Hok _ _ H) end
  | H : right_ ?h ?x = Some ?c |- _ =>
      lazymatch goal with _ : parent_ h c = Some x |- _ => fail | _ => pose proof (right_parent _ Hok _ _ H) end
  | H : parent_ ?h ?c = Some ?x |- _ =>
      lazymatch goal with
      | _ : left_ h x = Some c |- _ => fail | _ : right_ h x = Some c |- _ => fail
      | _ => destruct (parent_child _ Hok _ _ H) end
  end.

Ltac links_contra Hok := first
  [ congruence
  | exfalso; match goal with H : parent_ _ ?x = Some ?x |- _ => exact (parent_irrefl _ Hok _ H) end
  | exfalso; match goal with H : parent_ _ ?x = Some ?y, H' : parent_ _ ?y = Some ?x |- _ =>
                               exact (parent_asym _ Hok _ _ H H') end
  | exfalso; match goal with H : left_ _ ?x = Some ?c, H' : right_ _ ?x = Some ?c |- _ =>
                               exact (children_distinct _ Hok _ _ H H') end ].

Ltac links_rw := repeat match goal with
  | H : parent_ ?h ?x = _ |- context [parent_ ?h ?x] => rewrite H
  | H : left_ ?h ?x = _ |- context [left_ ?h ?x] => rewrite H
  | H : right_ ?h ?x = _ |- context [right_ ?h ?x] => rewrite H end.

(** Case analysis on the links around [n1] and [n2]: every stuck member
    read and every address comparison is split, and the branches the link
    invariant rules out are closed. *)
Ltac links_cases Hok :=
  repeat (cbn [ptr_eqb andb negb option_map notNull] in *; links_facts Hok;
          try (links_contra Hok);
          first [ progress links_rw
                | match goal with |- context [Nat.eqb ?a ?b] => destruct (Nat.eqb_spec a b); subst end
                | match goal with |- context [left_ ?h ?x] => destruct (left_ h x) eqn:? end
                | match goal with |- context [right_ ?h ?x] => destruct (right_ h x) eqn:? end
                | match goal with |- context [parent_ ?h ?x] => destruct (parent_ h x) eqn:? end ]).

Lemma parent_nodeSwap h n1 n2 y :
  links_ok h -> n1 <> n2 ->
  parent_ (nodeSwap_h h n1 n2) y = swap_ptr n1 n2 (parent_ h (swap_loc n1 n2 y)).
Proof.
  intros Hok Hn. unfold nodeSwap_h.
  rewrite !parent_relink, parent_adjacent, !parent_members.
  unfold swap_ptr, swap_loc. links_cases Hok.
Qed.

Lemma left_nodeSwap h n1 n2 y :
  links_ok h -> n1 <> n2 ->
  left_ (nodeSwap_h h n1 n2) y = swap_ptr n1 n2 (left_ h (swap_loc n1 n2 y)).
Proof.
  intros Hok Hn. unfold nodeSwap_h.
  rewrite !left_relink, left_adjacent, !left_members.
  unfold is_left, swap_ptr, swap_loc. links_cases Hok.
Qed.

Lemma right_nodeSwap h n1 n2 y :
  links_ok h -> n1 <> n2 ->
  right_ (nodeSwap_h h n1 n2) y = swap_ptr n1 n2 (right_ h (swap_loc n1 n2 y)).
Proof.
  intros Hok Hn. unfold nodeSwap_h.
  rewrite !right_relink, right_adjacent, !right_members.
  unfold is_left, swap_ptr, swap_loc. links_cases Hok.
Qed.

Lemma data_nodeSwap h n1 n2 :
  item_ (nodeSwap_h h n1 n2) = item_ h /\ balance_ (nodeSwap_h h n1 n2) = balance_ h.
Proof.
  unfold nodeSwap_h.
  destruct (data_relink (relink_h (adjacent_h (members_h h n1 n2) n1 n2 (right_ h n1) (right_ h n2)
      (left_ h n1) (left_ h n2)) (Some n1) (Some n2) (parent_ h n1) (right_ h n1) (left_ h n1)
      (is_left h n1 (parent_ h n1))) (Some n2) (Some n1) (parent_ h n2) (right_ h n2) (left_ h n2)
      (is_left h n2 (parent_ h n2))) as [-> ->].
  destruct (data_relink (adjacent_h (members_h h n1 n2) n1 n2 (right_ h n1) (right_ h n2)
      (left_ h n1) (left_ h n2)) (Some n1) (Some n2) (parent_ h n1) (right_ h n1) (left_ h n1)
      (is_left h n1 (parent_ h n1))) as [-> ->].
  destruct (data_adjacent (members_h h n1 n2) n1 n2 (right_ h n1) (right_ h n2)
      (left_ h n1) (left_ h n2)) as [-> ->].
  split; reflexivity.
Qed.

End Effect.

(** ** The tree a heap stores *)

Section Trees.
Context {V : Type}.
Implicit Types (h : heap V) (t : tree loc) (c : path loc).

(** The pointer structure below [p], read through [left_] and [right_]
    ([fuel] bounds the depth): a tree whose node values are the addresses
    (keys and balances left at 0). *)
Fixpoint shape (fuel : nat) h (p : ptr) : option (tree loc) :=
  match p with
  | None => Some Leaf
  | Some x =>
      match fuel with
      | O => None
      | S f =>
          match shape f h (left_ h x), shape f h (right_ h x) with
          | Some l, Some r => Some (Node l 0 x 0 r)
          | _, _ => None
          end
      end
  end.

(** A tree of addresses labelled with the data of its nodes. *)
Fixpoint relabel (lab : loc -> Z * V * Z) t : tree V :=
  match t with
  | Leaf => Leaf
  | Node l _ x _ r => let '(k, v, b) := lab x in Node (relabel lab l) k v b (relabel lab r)
  end.

Definition relabel_frame (lab : loc -> Z * V * Z) (f : frame loc) : frame V :=
  match f with
  | LeftOf _ x _ r => let '(k, v, b) := lab x in LeftOf k v b (relabel lab r)
  | RightOf l _ x _ => let '(k, v, b) := lab x in RightOf (relabel lab l) k v b
  end.

Definition relabel_path (lab : loc -> Z * V * Z) c : path V := map (relabel_frame lab) c.

(** The data of a node: key, value and balance. *)
Definition lab_of h (x : loc) : Z * V * Z := (fst (item_ h x), snd (item_ h x), balance_ h x).

(** The tree the heap stores below [p]. *)
Definition read (fuel : nat) h (p : ptr) : option (tree V) :=
  option_map (relabel (lab_of h)) (shape fuel h p).

(** The addresses of a tree, in order. *)
Definition locs t : list loc := map snd (elements t).

End Trees.

(** ** From pointer renaming to the exchange of two nodes of the tree *)

Section TreeProofs.
Context {V : Type}.
Implicit Types (h : heap V) (t : tree loc) (c : path loc) (lab : loc -> Z * V * Z).

(** Renaming the addresses of a tree of addresses. *)
Fixpoint map_locs (g : loc -> loc) t : tree loc :=
  match t with
  | Leaf => Leaf
  | Node l k x b r => Node (map_locs g l) k (g x) b (map_locs g r)
  end.

Lemma swap_loc_invol n1 n2 y : n1 <> n2 -> swap_loc n1 n2 (swap_loc n1 n2 y) = y.
Proof.
  intros Hn. unfold swap_loc.
  destruct (Nat.eqb_spec y n1), (Nat.eqb_spec y n2); subst;
    repeat match goal with |- context [Nat.eqb ?a ?b] => destruct (Nat.eqb_spec a b) end; congruence.
Qed.

(** A heap whose child links are those of [h] renamed reads as the renamed
    shape. *)
Lemma shape_rename h h' n1 n2 :
  n1 <> n2 ->
  (forall y, left_ h' y = swap_ptr n1 n2 (left_ h (swap_loc n1 n2 y))) ->
  (forall y, right_ h' y = swap_ptr n1 n2 (right_ h (swap_loc n1 n2 y))) ->
  forall fuel p, shape fuel h' (swap_ptr n1 n2 p) = option_map (map_locs (swap_loc n1 n2)) (shape fuel h p).
Proof.
  intros Hn HL HR fuel. induction fuel as [|f IH]; intros [x|]; try reflexivity.
  cbn [swap_ptr option_map shape]. rewrite HL, HR, swap_loc_invol by exact Hn.
  fold (swap_ptr n1 n2 (left_ h x)) (swap_ptr n1 n2 (right_ h x)). rewrite !IH.
  destruct (shape f h (left_ h x)), (shape f h (right_ h x)); reflexivity.
Qed.

Lemma relabel_map lab g t : relabel lab (map_locs g t) = relabel (fun x => lab (g x)) t.
Proof. induction t as [|l IHl k x b r IHr]; cbn; [reflexivity|]. now rewrite IHl, IHr. Qed.

Lemma locs_node l k x b r : locs (Node l k x b r) = locs l ++ x :: locs r.
Proof. unfold locs. cbn [elements]. now rewrite map_app. Qed.

Lemma relabel_agree lab lab' t :
  (forall x, In x (locs t) -> lab x = lab' x) -> relabel lab t = relabel lab' t.
Proof.
  induction t as [|l IHl k x b r IHr]; intros H; [reflexivity|]. rewrite locs_node in H. cbn.
  rewrite (H x) by (apply in_or_app; right; left; reflexivity).
  rewrite IHl, IHr by (intros y Hy; apply H, in_or_app; cbn; tauto). reflexivity.
Qed.

(** The addresses of the nodes of a path (other than the focus). *)
Definition path_locs c : list loc := map snd (ctx_pre c ++ ctx_post c).

Ltac in_tac := unfold path_locs, locs in *; cbn [ctx_pre ctx_post elements] in *;
  repeat (rewrite ?map_app, ?in_app_iff in *; cbn [map snd In] in * ); tauto.

Lemma relabel_path_agree lab lab' c :
  (forall x, In x (path_locs c) -> lab x = lab' x) -> relabel_path lab c = relabel_path lab' c.
Proof.
  induction c as [|f c IH]; intros H; [reflexivity|].
  change (relabel_frame lab f :: relabel_path lab c = relabel_frame lab' f :: relabel_path lab' c).
  f_equal; [|apply IH; intros y Hy; apply H; destruct f; in_tac].
  destruct f as [k x b r | l k x b]; cbn [relabel_frame];
    rewrite (H x) by in_tac; [rewrite (relabel_agree lab lab' r) | rewrite (relabel_agree lab lab' l)];
    try reflexivity; intros y Hy; apply H; in_tac.
Qed.

Lemma relabel_plug lab t c : relabel lab (plug t c) = plug (relabel lab t) (relabel_path lab c).
Proof.
  revert t; induction c as [|[k x b r | l k x b] c IH]; intros t; [reflexivity| |];
    cbn [plug plug_frame relabel_path map relabel_frame]; rewrite IH; cbn [relabel];
    destruct (lab x) as [[k' v'] b']; reflexivity.
Qed.

Lemma relabel_rightmost lab t c :
  rightmost (relabel lab t) (relabel_path lab c) =
  (relabel lab (fst (rightmost t c)), relabel_path lab (snd (rightmost t c))).
Proof.
  revert c; induction t as [|l _ k x b r IHr]; intros c; [reflexivity|].
  destruct r as [|rl rk rx rb rr].
  - cbn. destruct (lab x) as [[k' v'] b']. reflexivity.
  - cbn [relabel]. destruct (lab x) as [[k' v'] b'] eqn:E. destruct (lab rx) as [[rk' rv'] rb'] eqn:E'.
    cbn [rightmost]. specialize (IHr (RightOf l k x b :: c)). cbn [relabel relabel_path map relabel_frame] in IHr.
    rewrite E, E' in IHr. exact IHr.
Qed.

Lemma NoDup_pair {A : Type} (X Y : list A) a b :
  NoDup (X ++ a :: b :: Y) -> a <> b /\ (forall y, In y (X ++ Y) -> y <> a /\ y <> b).
Proof.
  intros H. pose proof (NoDup_remove_2 _ _ _ H) as Ha. apply NoDup_remove_1 in H.
  pose proof (NoDup_remove_2 _ _ _ H) as Hb.
  split; [intros ->; apply Ha, in_or_app; right; now left|].
  intros y Hy; split; intros ->; [apply Ha | apply Hb]; [|exact Hy].
  apply in_app_iff in Hy as [Hy|Hy]; apply in_or_app; [now left | right; now right].
Qed.

(** The predecessor [n2] of [n1] (rightmost node of its left subtree), in a
    tree of distinct addresses: relabelling with data that differ from
    [lab] only at [n1] and [n2] changes exactly those two positions. *)
Lemma relabel_exchange lab lab' l k1 n1 b1 rr ctx pl k2 n2 b2 pr lctx :
  NoDup (locs (plug (Node l k1 n1 b1 rr) ctx)) ->
  rightmost l [] = (Node pl k2 n2 b2 pr, lctx) ->
  (forall x, x <> n1 -> x <> n2 -> lab' x = lab x) ->
  n1 <> n2 /\ pr = Leaf /\
  relabel lab' (plug (Node l k1 n1 b1 rr) ctx) =
  plug (let '(k, v, b) := lab' n2 in Node (relabel lab pl) k v b Leaf)
       (relabel_path lab lctx ++
        (let '(k, v, b) := lab' n1 in LeftOf k v b (relabel lab rr)) :: relabel_path lab ctx).
Proof.
  intros Hnd Hr Hlab.
  assert (Hl : l <> Leaf) by (intros ->; discriminate Hr).
  destruct (rightmost_spec _ _ _ _ Hr Hl) as (d & pl' & pk & pv & pb & Hc & Hq & Hp & Hd).
  injection Hq as <- <- <- <- ->. rewrite app_nil_r in Hc. subst lctx l.
  replace (plug (Node (plug (Node pl k2 n2 b2 Leaf) d) k1 n1 b1 rr) ctx)
    with (plug (Node pl k2 n2 b2 Leaf) (d ++ LeftOf k1 n1 b1 rr :: ctx)) in Hnd |- *
    by (rewrite plug_app; reflexivity).
  unfold locs in Hnd. rewrite elements_plug, ctx_pre_app, ctx_post_app, Hd in Hnd.
  cbn [ctx_pre ctx_post elements app] in Hnd. rewrite !map_app in Hnd. cbn [map snd] in Hnd.
  rewrite <- !app_assoc in Hnd. cbn [app] in Hnd.
  rewrite (app_assoc (map snd (ctx_pre d))), (app_assoc (map snd (ctx_pre ctx))) in Hnd.
  apply NoDup_pair in Hnd as [Hne Hout].
  assert (Hag : forall x, In x (map snd (ctx_pre ctx) ++ map snd (ctx_pre d) ++ map snd (elements pl) ++
                               map snd (elements rr) ++ map snd (ctx_post ctx)) -> lab' x = lab x).
  { intros x Hx. destruct (Hout x) as [H2 H1]; [rewrite ?map_app, !in_app_iff in *; tauto|].
    now apply Hlab. }
  split; [congruence|]. split; [reflexivity|].
  rewrite relabel_plug. unfold relabel_path at 1. rewrite map_app. cbn [map relabel_frame relabel].
  rewrite (relabel_agree lab' lab pl), (relabel_agree lab' lab rr)
    by (intros x Hx; apply Hag; unfold locs in Hx; rewrite !in_app_iff; tauto).
  fold (relabel_path lab' d) (relabel_path lab' ctx).
  rewrite (relabel_path_agree lab' lab d), (relabel_path_agree lab' lab ctx);
    [reflexivity| |]; intros x Hx; apply Hag; unfold path_locs in Hx; rewrite ?Hd, ?app_nil_r, ?map_app in Hx;
    rewrite !in_app_iff in *; tauto.
Qed.

Lemma relabel_ext lab lab' t : (forall x, lab x = lab' x) -> relabel lab t = relabel lab' t.
Proof. intros H. apply relabel_agree. intros x _. apply H. Qed.

(** After a renaming of the child links, the heap reads as the old shape
    labelled with the new data taken at the renamed addresses. *)
Lemma read_renamed h h' r n1 n2 fuel lt :
  n1 <> n2 ->
  (forall y, left_ h' y = swap_ptr n1 n2 (left_ h (swap_loc n1 n2 y))) ->
  (forall y, right_ h' y = swap_ptr n1 n2 (right_ h (swap_loc n1 n2 y))) ->
  shape fuel h r = Some lt ->
  read fuel h' (swap_ptr n1 n2 r) = Some (relabel (fun x => lab_of h' (swap_loc n1 n2 x)) lt).
Proof.
  intros Hn HL HR Hs. unfold read. rewrite (shape_rename h h' n1 n2 Hn HL HR), Hs.
  cbn [option_map]. now rewrite relabel_map.
Qed.

Lemma swap_loc_other n1 n2 x : x <> n1 -> x <> n2 -> swap_loc n1 n2 x = x.
Proof.
  intros H1 H2. unfold swap_loc. now rewrite (proj2 (Nat.eqb_neq _ _) H1), (proj2 (Nat.eqb_neq _ _) H2).
Qed.

Lemma swap_loc_l n1 n2 : swap_loc n1 n2 n1 = n2.
Proof. unfold swap_loc. now rewrite Nat.eqb_refl. Qed.

Lemma swap_loc_r n1 n2 : n1 <> n2 -> swap_loc n1 n2 n2 = n1.
Proof.
  intros Hn. unfold swap_loc. rewrite (proj2 (Nat.eqb_neq n2 n1)) by congruence. now rewrite Nat.eqb_refl.
Qed.

(** The rightmost descent commutes with relabelling, from an empty path. *)
Lemma relabel_rightmost_nil lab l pl k2 n2 b2 pr lctx :
  rightmost l [] = (Node pl k2 n2 b2 pr, lctx) ->
  rightmost (relabel lab l) [] =
  (relabel lab (Node pl k2 n2 b2 pr), relabel_path lab lctx).
Proof.
  intros Hr. pose proof (relabel_rightmost lab l []) as E. cbn [relabel_path map] in E.
  rewrite Hr in E. exact E.
Qed.

End TreeProofs.

Section Theorems.
Context {V : Type}.
Implicit Types (h : heap V).

(** C35. [BinarySearchTree::nodeSwap(n1, n2)] of two distinct nodes of a
    heap with consistent links never dereferences NULL and renames [n1] and
    [n2] in the whole pointer structure: the new [parent_], [left_] and
    [right_] of every node are those the other of the two nodes (or the node
    itself) had, with [n1] and [n2] exchanged, [root_] is renamed the same
    way, and every item and balance stays with its node.  This covers every
    case the code distinguishes: adjacent nodes on either side, siblings,
    the root and NULL neighbours. *)
Theorem nodeSwap_renames h r n1 n2 :
  links_ok h -> n1 <> n2 ->
  exists h', nodeSwap (Some n1) (Some n2) (State h r) = Ok (tt, State h' (swap_ptr n1 n2 r)) /\
    (forall y, parent_ h' y = swap_ptr n1 n2 (parent_ h (swap_loc n1 n2 y)) /\
               left_ h' y = swap_ptr n1 n2 (left_ h (swap_loc n1 n2 y)) /\
               right_ h' y = swap_ptr n1 n2 (right_ h (swap_loc n1 n2 y))) /\
    item_ h' = item_ h /\ balance_ h' = balance_ h.
Proof.
  intros Hok Hn. exists (nodeSwap_h h n1 n2). split; [now apply nodeSwap_effect|].
  split; [|apply data_nodeSwap].
  intros y. split; [|split]; [apply parent_nodeSwap | apply left_nodeSwap | apply right_nodeSwap]; assumption.
Qed.

(** C34. [BinarySearchTree::nodeSwap] refines the zipper model: if the heap
    stores, below [root_], a tree of distinct nodes in which [n2] is the
    rightmost node of the left subtree of [n1] (the [predecessor] that
    [remove] passes), then after [nodeSwap(n1, n2)] the heap stores exactly
    the tree [BinarySearchTree.nodeSwap] computes: [n1] with its item and
    balance where [n2] was and [n2] where [n1] was. *)
Theorem nodeSwap_refines h r fuel l k1 n1 b1 rr ctx pl k2 n2 b2 pr lctx :
  links_ok h ->
  shape fuel h r = Some (plug (Node l k1 n1 b1 rr) ctx) ->
  NoDup (locs (plug (Node l k1 n1 b1 rr) ctx)) ->
  rightmost l [] = (Node pl k2 n2 b2 pr, lctx) ->
  exists h', nodeSwap (Some n1) (Some n2) (State h r) = Ok (tt, State h' (swap_ptr n1 n2 r)) /\
    read fuel h r = Some (plug (relabel (lab_of h) (Node l k1 n1 b1 rr)) (relabel_path (lab_of h) ctx)) /\
    read fuel h' (swap_ptr n1 n2 r) =
      Some (let '(n, c) := BinarySearchTree.nodeSwap (relabel (lab_of h) (Node l k1 n1 b1 rr))
                                                     (relabel_path (lab_of h) ctx) in plug n c).
Proof.
  intros Hok Hs Hnd Hr.
  destruct (relabel_exchange (lab_of h) (fun x => lab_of h (swap_loc n1 n2 x)) l k1 n1 b1 rr ctx
              pl k2 n2 b2 pr lctx Hnd Hr) as (Hn & -> & E);
    [intros x H1 H2; now rewrite swap_loc_other|].
  exists (nodeSwap_h h n1 n2). split; [now apply nodeSwap_effect|].
  split; [unfold read; rewrite Hs; cbn [option_map]; now rewrite relabel_plug|].
  destruct (data_nodeSwap h n1 n2) as [Hi Hb].
  rewrite (read_renamed h (nodeSwap_h h n1 n2) r n1 n2 fuel _ Hn
             (fun y => left_nodeSwap h n1 n2 y Hok Hn) (fun y => right_nodeSwap h n1 n2 y Hok Hn) Hs).
  rewrite (relabel_ext _ (fun x => lab_of h (swap_loc n1 n2 x)))
    by (intros x; unfold lab_of; now rewrite Hi, Hb).
  rewrite E, swap_loc_l, swap_loc_r by exact Hn. cbn [relabel].
  destruct (lab_of h n1) as [[k v] b] eqn:E1. cbn [BinarySearchTree.nodeSwap].
  rewrite (relabel_rightmost_nil (lab_of h) _ _ _ _ _ _ _ Hr). cbn [relabel].
  destruct (lab_of h n2) as [[k' v'] b']. reflexivity.
Qed.

(** The heap after [AVLTree::nodeSwap] of two distinct nodes: the BST swap,
    then each node takes the balance of the other. *)
Definition avl_nodeSwap_h h n1 n2 : heap V :=
  Heap (parent_ (nodeSwap_h h n1 n2)) (left_ (nodeSwap_h h n1 n2)) (right_ (nodeSwap_h h n1 n2))
       (item_ h) (upd (upd (balance_ h) n1 (balance_ h n2)) n2 (balance_ h n1)).

Lemma avl_nodeSwap_effect h r n1 n2 :
  n1 <> n2 ->
  avl_nodeSwap (Some n1) (Some n2) (State h r) =
  Ok (tt, State (avl_nodeSwap_h h n1 n2) (swap_ptr n1 n2 r)).
Proof.
  intros Hn. unfold avl_nodeSwap. erewrite bind_ok by (apply nodeSwap_effect, Hn). cbv beta.
  destruct (data_nodeSwap h n1 n2) as [Hi Hb]. cbn. rewrite Hi, Hb. reflexivity.
Qed.

Lemma swap_balance_at (b : loc -> Z) n1 n2 x :
  n1 <> n2 -> upd (upd b n1 (b n2)) n2 (b n1) (swap_loc n1 n2 x) = b x.
Proof.
  intros Hn. unfold upd, swap_loc.
  destruct (Nat.eqb_spec x n1), (Nat.eqb_spec x n2); subst;
    repeat match goal with |- context [Nat.eqb ?a ?b] => destruct (Nat.eqb_spec a b) end; congruence.
Qed.

(** C39. [AVLTree::nodeSwap] refines [AVLTree.swapWithPredecessor], the
    step of the model of [AVLTree::remove] for a node with two children: if
    the heap stores a tree of distinct nodes in which [n2] is the rightmost
    node of the left subtree of [n1], then after [nodeSwap(n1, n2)] the heap
    stores the tree in which the items of the two positions are exchanged
    and each position keeps its balance, exactly as [swapWithPredecessor]
    computes. *)
Theorem avl_nodeSwap_refines h r fuel l k1 n1 b1 rr ctx pl k2 n2 b2 pr lctx :
  links_ok h ->
  shape fuel h r = Some (plug (Node l k1 n1 b1 rr) ctx) ->
  NoDup (locs (plug (Node l k1 n1 b1 rr) ctx)) ->
  rightmost l [] = (Node pl k2 n2 b2 pr, lctx) ->
  exists h', avl_nodeSwap (Some n1) (Some n2) (State h r) = Ok (tt, State h' (swap_ptr n1 n2 r)) /\
    read fuel h r = Some (plug (relabel (lab_of h) (Node l k1 n1 b1 rr)) (relabel_path (lab_of h) ctx)) /\
    read fuel h' (swap_ptr n1 n2 r) =
      Some (let '(n, c) := AVLTree.swapWithPredecessor (relabel (lab_of h) (Node l k1 n1 b1 rr))
                                                      (relabel_path (lab_of h) ctx) in plug n c).
Proof.
  intros Hok Hs Hnd Hr.
  destruct (relabel_exchange (lab_of h)
              (fun x => (fst (item_ h (swap_loc n1 n2 x)), snd (item_ h (swap_loc n1 n2 x)), balance_ h x))
              l k1 n1 b1 rr ctx pl k2 n2 b2 pr lctx Hnd Hr) as (Hn & -> & E);
    [intros x H1 H2; now rewrite swap_loc_other|].
  exists (avl_nodeSwap_h h n1 n2). split; [now apply avl_nodeSwap_effect|].
  split; [unfold read; rewrite Hs; cbn [option_map]; now rewrite relabel_plug|].
  rewrite (read_renamed h (avl_nodeSwap_h h n1 n2) r n1 n2 fuel _ Hn
             (fun y => left_nodeSwap h n1 n2 y Hok Hn) (fun y => right_nodeSwap h n1 n2 y Hok Hn) Hs).
  rewrite (relabel_ext _ (fun x => (fst (item_ h (swap_loc n1 n2 x)), snd (item_ h (swap_loc n1 n2 x)),
                                    balance_ h x)))
    by (intros x; unfold lab_of; cbn [avl_nodeSwap_h item_ balance_]; now rewrite swap_balance_at).
  rewrite E, swap_loc_l, swap_loc_r by exact Hn. cbn [relabel].
  destruct (lab_of h n1) as [[k v] b] eqn:E1. cbn [AVLTree.swapWithPredecessor].
  rewrite (relabel_rightmost_nil (lab_of h) _ _ _ _ _ _ _ Hr). cbn [relabel].
  destruct (lab_of h n2) as [[k' v'] b'] eqn:E2.
  unfold lab_of in E1, E2. injection E1 as -> -> ->. injection E2 as -> -> ->. reflexivity.
Qed.

End Theorems.


(** ** Witnesses *)

Section Examples.

(** A heap storing the tree 20 (10 (-, 15), 30) at addresses 1 (root), 2, 4
    and 3: the predecessor of the root is 4, two levels below it. *)
Definition ex_heap : heap Z :=
  Heap (fun x => match x with 2%nat | 3%nat => Some 1%nat | 4%nat => Some 2%nat | _ => None end)
       (fun x => match x with 1%nat => Some 2%nat | _ => None end)
       (fun x => match x with 1%nat => Some 3%nat | 2%nat => Some 4%nat | _ => None end)
       (fun x => match x with 1%nat => (20, 20) | 2%nat => (10, 10) | 3%nat => (30, 30)
                         | 4%nat => (15, 15) | _ => (0, 0) end)
       (fun x => match x with 1%nat => -1 | 2%nat => 1 | _ => 0 end).

Definition ex_left : tree loc := Node Leaf 0 2%nat 0 (Node Leaf 0 4%nat 0 Leaf).
Definition ex_right : tree loc := Node Leaf 0 3%nat 0 Leaf.

Lemma ex_heap_links : links_ok ex_heap.
Proof.
  split.
  - intros x c H. destruct x as [|[|[|[|[|x]]]]]; cbn in H; try discriminate; injection H as <-; reflexivity.
  - intros x c H. destruct x as [|[|[|[|[|x]]]]]; cbn in H; try discriminate; injection H as <-; reflexivity.
  - intros c x H. destruct c as [|[|[|[|[|c]]]]]; cbn in H; try discriminate; injection H as <-; cbn; auto.
  - intros x c H. destruct x as [|[|[|[|[|x]]]]]; cbn in H; try discriminate; injection H as <-; discriminate.
  - intros x. destruct x as [|[|[|[|[|x]]]]]; cbn; discriminate.
  - intros x y H. destruct x as [|[|[|[|[|x]]]]]; cbn in H; try discriminate; injection H as <-; discriminate.
Qed.

Lemma ex_shape : shape 3%nat ex_heap (Some 1%nat) = Some (plug (Node ex_left 0 1%nat 0 ex_right) []).
Proof. reflexivity. Qed.

Lemma ex_nodup : NoDup (locs (plug (Node ex_left 0 1%nat 0 ex_right) [])).
Proof. cbn. repeat constructor; cbn; intuition discriminate. Qed.

Lemma ex_rightmost : rightmost ex_left [] = (Node Leaf 0 4%nat 0 Leaf, [RightOf Leaf 0 2%nat 0]).
Proof. reflexivity. Qed.

(** Witness of C35: swapping the root 1 with its predecessor 4. *)
Lemma nodeSwap_renames_witness :
  links_ok ex_heap /\ 1%nat <> 4%nat /\
  exists h', nodeSwap (Some 1%nat) (Some 4%nat) (State ex_heap (Some 1%nat)) =
             Ok (tt, State h' (swap_ptr 1%nat 4%nat (Some 1%nat))) /\
    (forall y, parent_ h' y = swap_ptr 1%nat 4%nat (parent_ ex_heap (swap_loc 1%nat 4%nat y)) /\
               left_ h' y = swap_ptr 1%nat 4%nat (left_ ex_heap (swap_loc 1%nat 4%nat y)) /\
               right_ h' y = swap_ptr 1%nat 4%nat (right_ ex_heap (swap_loc 1%nat 4%nat y))) /\
    item_ h' = item_ ex_heap /\ balance_ h' = balance_ ex_heap.
Proof.
  split; [exact ex_heap_links|]. split; [discriminate|].
  exact (nodeSwap_renames ex_heap (Some 1%nat) 1%nat 4%nat ex_heap_links ltac:(discriminate)).
Defined.

(** Witness of C34 on the same heap. *)
Lemma nodeSwap_refines_witness :
  links_ok ex_heap /\
  shape 3%nat ex_heap (Some 1%nat) = Some (plug (Node ex_left 0 1%nat 0 ex_right) []) /\
  NoDup (locs (plug (Node ex_left 0 1%nat 0 ex_right) [])) /\
  rightmost ex_left [] = (Node Leaf 0 4%nat 0 Leaf, [RightOf Leaf 0 2%nat 0]) /\
  exists h', nodeSwap (Some 1%nat) (Some 4%nat) (State ex_heap (Some 1%nat)) =
             Ok (tt, State h' (swap_ptr 1%nat 4%nat (Some 1%nat))) /\
    read 3%nat ex_heap (Some 1%nat) =
      Some (plug (relabel (lab_of ex_heap) (Node ex_left 0 1%nat 0 ex_right))
                 (relabel_path (lab_of ex_heap) [])) /\
    read 3%nat h' (swap_ptr 1%nat 4%nat (Some 1%nat)) =
      Some (let '(n, c) := BinarySearchTree.nodeSwap (relabel (lab_of ex_heap) (Node ex_left 0 1%nat 0 ex_right))
                                                     (relabel_path (lab_of ex_heap) []) in plug n c).
Proof.
  split; [exact ex_heap_links|]. split; [exact ex_shape|]. split; [exact ex_nodup|].
  split; [exact ex_rightmost|].
  exact (nodeSwap_refines ex_heap (Some 1%nat) 3%nat ex_left 0 1%nat 0 ex_right [] Leaf 0 4%nat 0 Leaf
           [RightOf Leaf 0 2%nat 0] ex_heap_links ex_shape ex_nodup ex_rightmost).
Defined.

(** Witness of C39 on the same heap. *)
Lemma avl_nodeSwap_refines_witness :
  links_ok ex_heap /\
  shape 3%nat ex_heap (Some 1%nat) = Some (plug (Node ex_left 0 1%nat 0 ex_right) []) /\
  NoDup (locs (plug (Node ex_left 0 1%nat 0 ex_right) [])) /\
  rightmost ex_left [] = (Node Leaf 0 4%nat 0 Leaf, [RightOf Leaf 0 2%nat 0]) /\
  exists h', avl_nodeSwap (Some 1%nat) (Some 4%nat) (State ex_heap (Some 1%nat)) =
             Ok (tt, State h' (swap_ptr 1%nat 4%nat (Some 1%nat))) /\
    read 3%nat ex_heap (Some 1%nat) =
      Some (plug (relabel (lab_of ex_heap) (Node ex_left 0 1%nat 0 ex_right))
                 (relabel_path (lab_of ex_heap) [])) /\
    read 3%nat h' (swap_ptr 1%nat 4%nat (Some 1%nat)) =
      Some (let '(n, c) := AVLTree.swapWithPredecessor (relabel (lab_of ex_heap) (Node ex_left 0 1%nat 0 ex_right))
                                                      (relabel_path (lab_of ex_heap) []) in plug n c).
Proof.
  split; [exact ex_heap_links|]. split; [exact ex_shape|]. split; [exact ex_nodup|].
  split; [exact ex_rightmost|].
  exact (avl_nodeSwap_refines ex_heap (Some 1%nat) 3%nat ex_left 0 1%nat 0 ex_right [] Leaf 0 4%nat 0 Leaf
           [RightOf Leaf 0 2%nat 0] ex_heap_links ex_shape ex_nodup ex_rightmost).
Defined.

End Examples.

End NodeSwap.
