(* ===== verification/AvlRemove.v ===== *)
(** Proofs about [AVLTree::remove] (model in [Avl.v]): the retrace
    [removeFix] keeps the contents, the predecessor swap and the splice
    remove exactly the item of the key, [remove] preserves the AVL invariant,
    and the root with at most one child is never removed.  That the record
    swap of the model is what the pointer re-linking of [AVLTree::nodeSwap]
    does is proved in [NodeSwap.v]. *)

From Stdlib Require Import ZArith List Lia Sorted.
From S2P Require Import Prelude Tree Avl.
Import ListNotations.
Open Scope Z_scope.

Module AVLRemoveProofs.
Import AVLTree.

Section Spec.
Context {V : Type}.

(** The case the code leaves alone: the key sits at the root, which has at
    most one child. *)
Definition root_kept (key : Z) (t : tree V) : bool :=
  match t with
  | Leaf => false
  | Node _ k _ _ _ => (k =? key) && negb (Nat.eqb (numChildren t) 2)
  end.

(** One child of a node lost one level; [hl], [hr] are the old heights. *)
Definition shrunk (diff : Z) (l r : tree V) (hl hr : nat) : Prop :=
  (diff = 1 /\ S (height l) = hl /\ height r = hr) \/
  (diff = -1 /\ height l = hl /\ S (height r) = hr).

End Spec.

Section Contents.
Context {V : Type}.
Implicit Types (t node : tree V) (ctx : path V).

Lemma removeFix_contents node diff ctx :
  elements (removeFix node diff ctx) = elements (plug node ctx).
Proof.
  revert node diff; induction ctx as [|f c IH]; intros node diff;
    cbn [removeFix];
    repeat match goal with |- context [if ?b then _ else _] => destruct b end;
    rewrite ?IH; cbn [plug]; try apply elements_plug_eq;
    try apply elements_plug_frame_eq; autorewrite with avl_rw; reflexivity.
Qed.

(** C12. The retrace [removeFix] never changes the in-order items. *)
Lemma elements_removeFix node diff ctx :
  elements (removeFix node diff ctx) = elements (plug node ctx).
Proof. apply removeFix_contents. Qed.

(** The subtree that replaces a node with at most one child. *)
Lemma splice_spec (nl : tree V) k v b nr :
  let node := Node nl k v b nr in
  numChildren node <> 2%nat ->
  let X := if Nat.eqb (numChildren node) 0 then removal_case_0 node
           else removal_case_1 node in
  elements X = elements nl ++ elements nr /\
  (avl node -> avl X /\ S (height X) = height node).
Proof.
  intros node Hn X. subst node X.
  destruct nl as [|a ak av ab ar], nr as [|c ck cv cb cr]; cbn in Hn |- *;
    try congruence; (split; [now rewrite ?app_nil_r | intros H; split; avl_arith]).
Qed.

Lemma removeAt_elements nl k v b nr ctx :
  numChildren (Node nl k v b nr) <> 2%nat -> ctx <> [] ->
  elements (removeAt (Node nl k v b nr) ctx) =
  ctx_pre ctx ++ elements nl ++ elements nr ++ ctx_post ctx.
Proof.
  intros Hn Hc. destruct ctx as [|f c]; [congruence|]. unfold removeAt; cbv zeta.
  rewrite removeFix_contents, <- plug_cons, elements_plug.
  destruct (splice_spec nl k v b nr Hn) as [-> _]. now rewrite <- app_assoc.
Qed.

(** The predecessor swap moves the removed node to the predecessor's place
    (no right child) below the predecessor, which takes the old place. *)
Lemma swap_spec l k v b r ctx n' c' :
  numChildren (Node l k v b r) = 2%nat ->
  swapWithPredecessor (Node l k v b r) ctx = (n', c') ->
  exists d pl pk pv pb, n' = Node pl k v pb Leaf /\
    c' = d ++ LeftOf pk pv b r :: ctx /\
    plug (Node pl pk pv pb Leaf) d = l /\ ctx_post d = [].
Proof.
  intros H2 Hs. cbn [swapWithPredecessor] in Hs.
  destruct (rightmost l []) as [q d] eqn:Hr.
  destruct (rightmost_spec l [] q d Hr) as (d' & pl & pk & pv & pb & -> & -> & Hq & Hd).
  { intros ->. destruct r; discriminate. }
  rewrite app_nil_r in *. cbn in Hs. inv Hs. exists d', pl, pk, pv, pb. auto.
Qed.

Lemma remove_contents key t :
  bst t -> root_kept key t = false ->
  elements (remove key t) = assoc_del key (elements t).
Proof.
  intros Hs Hk. unfold remove.
  destruct (internalFind key t) as [[n c]|] eqn:Hf.
  2: { symmetry. apply assoc_del_absent, (internalFind_absent key t Hs Hf). }
  apply internalFind_found in Hf as [Ht (l & v & b & r & ->)]. subst t.
  rewrite assoc_del_found by exact Hs.
  destruct (Nat.eqb_spec (numChildren (Node l key v b r)) 2) as [H2|H2].
  - destruct (swapWithPredecessor (Node l key v b r) c) as [n' c'] eqn:Hsw.
    apply swap_spec in Hsw as (d & pl & pk & pv & pb & -> & -> & Hl & Hd);
      [|exact H2].
    rewrite removeAt_elements; [| destruct pl; cbn; discriminate
                                | destruct d; discriminate].
    rewrite swap_contents with (pb := pb) by exact Hd. now rewrite Hl.
  - apply removeAt_elements; auto. intros ->. cbn [plug root_kept] in Hk.
    rewrite Z.eqb_refl in Hk. apply Nat.eqb_neq in H2. rewrite H2 in Hk.
    discriminate.
Qed.

(** C4. Away from the root case the code skips, [remove] deletes the key
    from the sorted contents (and is a no-op for an absent key). *)
Theorem remove_elements key t :
  bst t -> root_kept key t = false ->
  elements (remove key t) = assoc_del key (elements t).
Proof. apply remove_contents. Qed.

Lemma remove_root_unchanged key t : root_kept key t = true -> remove key t = t.
Proof.
  destruct t as [|l k v b r]; [discriminate|]. cbn [root_kept].
  intros H. apply andb_prop in H as [Hk H2]. apply Z.eqb_eq in Hk. subst k.
  unfold remove, internalFind. cbn [empty internalFind_loop]. rewrite Z.eqb_refl.
  apply Bool.negb_true_iff in H2. rewrite H2. reflexivity.
Qed.

(** C5. The code never removes the root when it has at most one child:
    [remove] leaves such a tree unchanged, so a one-element tree cannot be
    emptied. *)
Theorem remove_root_kept key t : root_kept key t = true -> remove key t = t.
Proof. apply remove_root_unchanged. Qed.

(** [remove] keeps a tree ordered: the contents are unchanged or lose the key. *)
Lemma remove_keeps_bst key t : bst t -> bst (remove key t).
Proof.
  intros Hs. destruct (root_kept key t) eqn:Hk.
  - now rewrite remove_root_unchanged.
  - unfold bst, keys. rewrite remove_contents by auto. apply assoc_del_sorted, Hs.
Qed.

(** C9. [remove] keeps the in-order keys strictly increasing. *)
Corollary remove_bst key t : bst t -> bst (remove key t).
Proof. apply remove_keeps_bst. Qed.

End Contents.

(** Finish a branch of [removeFix]: either the retrace continues with a
    subtree one level lower ([Hup]) or the tree is re-plugged unchanged in
    height. *)
Ltac rm_finish Hup Hc :=
  first [ apply Hup; [avl_arith | height_arith]
        | apply avl_plug; [avl_arith | ctx_arith Hc] ].

(** Walk the branches of [removeFix]: expose the child or grandchild whose
    balance is read, and split on the balance tests. *)
Ltac rm_branches Hup Hc :=
  repeat first
    [ solve [rm_finish Hup Hc]
    | match goal with |- context [getBalance ?x] =>
        is_var x; destruct x; [exfalso; height_arith|] end;
      cbn -[plug removeFix avl]
    | zcase1; cbn -[plug removeFix avl] ].

Section RemoveAvl.
Context {V : Type}.

Lemma removeFix_keeps_avl (ctx : path V) : forall l k v b r diff hl hr,
  avl l -> avl r -> b = Z.of_nat hr - Z.of_nat hl -> -1 <= b <= 1 ->
  shrunk diff l r hl hr -> ctx_ok (S (Nat.max hl hr)) ctx ->
  avl (removeFix (Node l k v b r) diff ctx).
Proof.
  induction ctx as [|f c IH]; intros l k v b r diff hl hr Hl Hr Hb Hb1 Hsh Hc.
  - assert (Hup : forall X : tree V, avl X -> height X = Nat.max hl hr -> avl X) by auto.
    cbn [removeFix updateBalance getBalance].
    destruct Hsh as [(-> & Hhl & Hhr) | (-> & Hhl & Hhr)];
      rewrite wrap8_small by lia;
      (assert (b = -1 \/ b = 0 \/ b = 1) as [-> | [-> | ->]] by lia);
      cbn -[plug removeFix avl]; rm_branches Hup Hc.
  - assert (Hup : forall X : tree V, avl X -> height X = Nat.max hl hr ->
      avl (removeFix (plug_frame X f)
             (match f with LeftOf _ _ _ _ => 1 | RightOf _ _ _ _ => -1 end) c)).
    { intros X HX HhX.
      destruct f as [pk pv pb pr | pl pk pv pb]; destruct Hc as (Hp & Hpb & Hpb1 & Hc');
        cbn [plug_frame].
      - apply (IH X pk pv pb pr 1 (S (Nat.max hl hr)) (height pr));
          [exact HX | exact Hp | lia | lia | left; repeat split; lia | exact Hc'].
      - apply (IH pl pk pv pb X (-1) (height pl) (S (Nat.max hl hr)));
          [exact Hp | exact HX | lia | lia | right; repeat split; lia | exact Hc']. }
    cbn [removeFix updateBalance getBalance].
    destruct Hsh as [(-> & Hhl & Hhr) | (-> & Hhl & Hhr)];
      rewrite wrap8_small by lia;
      (assert (b = -1 \/ b = 0 \/ b = 1) as [-> | [-> | ->]] by lia);
      cbn -[plug removeFix avl]; rm_branches Hup Hc.
Qed.

(** C7. The retrace invariant of [removeFix]: if the node's stored balance
    is the old one, one child shrank by one level on the side [diff] names,
    and the parents are consistent with the node's old height, then the tree
    [removeFix] returns is AVL. *)
Lemma removeFix_avl (ctx : path V) : forall l k v b r diff hl hr,
  avl l -> avl r -> b = Z.of_nat hr - Z.of_nat hl -> -1 <= b <= 1 ->
  shrunk diff l r hl hr -> ctx_ok (S (Nat.max hl hr)) ctx ->
  avl (removeFix (Node l k v b r) diff ctx).
Proof. apply removeFix_keeps_avl. Qed.

(** The predecessor swap only moves items: the tree keeps its shape and
    balances. *)
Lemma swap_avl (l : tree V) k v b r ctx n' c' :
  numChildren (Node l k v b r) = 2%nat ->
  swapWithPredecessor (Node l k v b r) ctx = (n', c') ->
  avl (plug (Node l k v b r) ctx) -> avl (plug n' c').
Proof.
  intros H2 Hs Ha. apply swap_spec in Hs as (d & pl & pk & pv & pb & -> & -> & Hl & _);
    [|exact H2].
  rewrite plug_app. cbn [plug plug_frame].
  apply avl_plug_inv in Ha as [(HAl & HAr & HAb & HAb1) Hc].
  subst l. apply avl_plug_inv in HAl as [Hq Hd].
  assert (Hh : height (plug (Node pl k v pb Leaf) d) =
               height (plug (Node pl pk pv pb Leaf) d)) by (apply height_plug; reflexivity).
  apply avl_plug.
  - cbn [avl]. unfold hdiff in *. rewrite Hh.
    split; [apply avl_plug; [exact Hq | exact Hd] | repeat split; first [assumption | lia]].
  - cbn [height] in *. rewrite Hh. exact Hc.
Qed.

Lemma removeAt_avl (nl : tree V) k v b nr ctx :
  avl (plug (Node nl k v b nr) ctx) -> numChildren (Node nl k v b nr) <> 2%nat ->
  avl (removeAt (Node nl k v b nr) ctx).
Proof.
  intros Ha Hn. destruct ctx as [|f c]; [exact Ha|].
  apply avl_plug_inv in Ha as [Hnode Hc].
  destruct (splice_spec nl k v b nr Hn) as [_ Hs]. destruct (Hs Hnode) as [HX HhX].
  unfold removeAt; cbv zeta.
  destruct f as [pk pv pb pr | pl pk pv pb]; destruct Hc as (Hp & Hpb & Hpb1 & Hc');
    cbn [plug_frame].
  - apply (removeFix_keeps_avl c _ pk pv pb pr 1 (height (Node nl k v b nr)) (height pr));
      [exact HX | exact Hp | lia | lia | left; repeat split; lia | exact Hc'].
  - apply (removeFix_keeps_avl c pl pk pv pb _ (-1) (height pl) (height (Node nl k v b nr)));
      [exact Hp | exact HX | lia | lia | right; repeat split; lia | exact Hc'].
Qed.

Lemma remove_keeps_avl key (t : tree V) : avl t -> avl (remove key t).
Proof.
  intros Ht. unfold remove.
  destruct (internalFind key t) as [[n c]|] eqn:Hf; [|exact Ht].
  apply internalFind_found in Hf as [<- (l & v & b & r & ->)].
  destruct (Nat.eqb_spec (numChildren (Node l key v b r)) 2) as [H2|H2].
  - destruct (swapWithPredecessor (Node l key v b r) c) as [n' c'] eqn:Hsw.
    pose proof (swap_avl l key v b r c n' c' H2 Hsw Ht) as Ha.
    apply swap_spec in Hsw as (d & pl & pk & pv & pb & -> & -> & _ & _); [|exact H2].
    apply removeAt_avl; [exact Ha | destruct pl; cbn; discriminate].
  - apply removeAt_avl; auto.
Qed.

(** C2. [remove] preserves the AVL invariant. *)
Theorem remove_avl key (t : tree V) : avl t -> avl (remove key t).
Proof. apply remove_keeps_avl. Qed.

End RemoveAvl.
End AVLRemoveProofs.

(** ** Witnesses: the theorems applied to concrete trees *)

Module AVLRemoveWitnesses.
Import AVLTree AVLRemoveProofs.

(** C2 on a 15-node tree (spec scenario 4), removing its root 8. *)
Lemma remove_avl_witness :
  avl (fold_left (fun t k => insert k k t)
         [8;4;12;2;6;10;14;1;3;5;7;9;11;13;15] (@Leaf Z)) /\
  avl (remove 8 (fold_left (fun t k => insert k k t)
                   [8;4;12;2;6;10;14;1;3;5;7;9;11;13;15] (@Leaf Z))).
Proof.
  assert (H : avl (fold_left (fun t k => insert k k t)
                     [8;4;12;2;6;10;14;1;3;5;7;9;11;13;15] (@Leaf Z)))
    by (apply avl_of_avlb; vm_compute; reflexivity).
  split; [exact H | apply remove_avl; exact H].
Defined.

(** C4 on the same tree: removing the root 8 leaves the other keys. *)
Lemma remove_elements_witness :
  bst (fold_left (fun t k => insert k k t)
         [8;4;12;2;6;10;14;1;3;5;7;9;11;13;15] (@Leaf Z)) /\
  root_kept 8 (fold_left (fun t k => insert k k t)
         [8;4;12;2;6;10;14;1;3;5;7;9;11;13;15] (@Leaf Z)) = false /\
  map fst (elements (remove 8 (fold_left (fun t k => insert k k t)
         [8;4;12;2;6;10;14;1;3;5;7;9;11;13;15] (@Leaf Z)))) =
  [1;2;3;4;5;6;7;9;10;11;12;13;14;15].
Proof.
  assert (H : bst (fold_left (fun t k => insert k k t)
                     [8;4;12;2;6;10;14;1;3;5;7;9;11;13;15] (@Leaf Z)))
    by (apply bst_of_bstb; vm_compute; reflexivity).
  assert (Hk : root_kept 8 (fold_left (fun t k => insert k k t)
                     [8;4;12;2;6;10;14;1;3;5;7;9;11;13;15] (@Leaf Z)) = false)
    by (vm_compute; reflexivity).
  split; [exact H|]. split; [exact Hk|].
  rewrite (remove_elements 8 _ H Hk). vm_compute. reflexivity.
Defined.

(** C5: a one-element tree keeps its element. *)
Lemma remove_root_kept_witness :
  root_kept 1 (insert 1 1 (@Leaf Z)) = true /\
  remove 1 (insert 1 1 (@Leaf Z)) = Node Leaf 1 1 0 Leaf.
Proof.
  assert (H : root_kept 1 (insert 1 1 (@Leaf Z)) = true) by (vm_compute; reflexivity).
  split; [exact H|]. rewrite (remove_root_kept 1 _ H). reflexivity.
Defined.

(** C7 at the retrace after removing 1 from the tree of 2,1,3,4: the root 2
    lost its left child and becomes right-heavy by two. *)
Lemma removeFix_avl_witness :
  avl (@Leaf Z) /\ avl (Node Leaf 3 3 1 (Node (@Leaf Z) 4 4 0 Leaf)) /\
  shrunk 1 (@Leaf Z) (Node Leaf 3 3 1 (Node Leaf 4 4 0 Leaf)) 1 2 /\
  avl (removeFix (Node Leaf 2 2 1 (Node (@Leaf Z) 3 3 1 (Node Leaf 4 4 0 Leaf))) 1 []).
Proof.
  assert (Hr : avl (Node Leaf 3 3 1 (Node (@Leaf Z) 4 4 0 Leaf)))
    by (apply avl_of_avlb; vm_compute; reflexivity).
  assert (Hs : shrunk 1 (@Leaf Z) (Node Leaf 3 3 1 (Node Leaf 4 4 0 Leaf)) 1 2)
    by (left; cbn; repeat split).
  split; [exact I|]. split; [exact Hr|]. split; [exact Hs|].
  apply (removeFix_avl [] Leaf 2 2 1 _ 1 1 2 I Hr); [lia | lia | exact Hs | exact I].
Defined.

(** C9 on the tree of spec scenario 4, removing 4. *)
Lemma remove_bst_witness :
  bst (fold_left (fun t k => insert k k t)
         [8;4;12;2;6;10;14;1;3;5;7;9;11;13;15] (@Leaf Z)) /\
  bst (remove 4 (fold_left (fun t k => insert k k t)
                   [8;4;12;2;6;10;14;1;3;5;7;9;11;13;15] (@Leaf Z))).
Proof.
  assert (H : bst (fold_left (fun t k => insert k k t)
                     [8;4;12;2;6;10;14;1;3;5;7;9;11;13;15] (@Leaf Z)))
    by (apply bst_of_bstb; vm_compute; reflexivity).
  split; [exact H | apply remove_bst; exact H].
Defined.

End AVLRemoveWitnesses.
