(* ===== verification/Balance.v ===== *)
(** Height balance.  The AVL invariant [avl] (stored balances equal the
    height differences and lie in {-1,0,1}) implies the property the
    assignment states for an AVL tree, [balanced]: at every node the two
    subtrees differ in height by at most one.  Hence every tree that
    [AVLTree::insert] and [AVLTree::remove] build from the empty tree is
    balanced (and ordered).  The test oracle [BinarySearchTree::isBalanced] of [src/bst.h]
    rejects some of these trees: it is not complete. *)

From Stdlib Require Import ZArith List Lia.
From S2P Require Import Prelude Tree Bst Avl AvlRemove.
Import ListNotations.
Open Scope Z_scope.

Module HeightBalance.
Import BinarySearchTree.

Section Balanced.
Context {V : Type}.

Lemma avl_balanced (t : tree V) : avl t -> balanced t = true.
Proof.
  induction t as [|l IHl k v b r IHr]; [reflexivity|].
  cbn [avl balanced]. intros (Hl & Hr & -> & Hb). unfold hdiff in Hb.
  rewrite IHl, IHr by assumption. apply Z.leb_le, Z.abs_le. lia.
Qed.

End Balanced.

(** The trees reachable from the empty tree by AVL insertions and removals. *)
Inductive avl_built {V : Type} : tree V -> Prop :=
| built_empty : avl_built Leaf
| built_insert k v t : avl_built t -> avl_built (AVLTree.insert k v t)
| built_remove k t : avl_built t -> avl_built (AVLTree.remove k t).

Lemma avl_built_avl {V : Type} (t : tree V) : avl_built t -> avl t.
Proof.
  induction 1.
  - exact I.
  - now apply AVLInsertInv.insert_keeps_avl.
  - now apply AVLRemoveProofs.remove_keeps_avl.
Qed.

Lemma avl_built_bst {V : Type} (t : tree V) : avl_built t -> bst t.
Proof.
  induction 1.
  - constructor.
  - now apply AVLTree.insert_keeps_bst.
  - now apply AVLRemoveProofs.remove_keeps_bst.
Qed.

(** C17. Every tree built from the empty tree by any sequence of
    [AVLTree::insert] and [AVLTree::remove] calls is height balanced. *)
Theorem avl_built_balanced {V : Type} (t : tree V) :
  avl_built t -> balanced t = true.
Proof. intros H. apply avl_balanced, avl_built_avl, H. Qed.

(** ** Logarithmic height *)

Lemma pow_half_le a b : a <= b -> 2 ^ (a / 2) <= 2 ^ (b / 2).
Proof.
  intros H. destruct (Z_lt_le_dec (a / 2) 0).
  - rewrite (Z.pow_neg_r 2 (a / 2)) by lia. apply Z.pow_nonneg. lia.
  - apply Z.pow_le_mono_r; [lia | apply Z.div_le_mono; lia].
Qed.

Lemma half_eq a q : 2 * q <= a < 2 * q + 2 -> a / 2 = q.
Proof. intros H. symmetry. apply Z.div_unique with (a - 2 * q); lia. Qed.

(** One level more doubles the bound every second level. *)
Lemma pow_half_step m : 0 <= m -> 2 ^ ((m + 1) / 2) <= 2 ^ (m / 2) + 2 ^ ((m - 1) / 2).
Proof.
  intros Hm. destruct (Z.Even_or_Odd m) as [[j ->] | [j ->]].
  - rewrite (half_eq (2 * j + 1) j), (half_eq (2 * j) j) by lia.
    pose proof (Z.pow_nonneg 2 ((2 * j - 1) / 2)). lia.
  - rewrite (half_eq (2 * j + 1 + 1) (j + 1)), (half_eq (2 * j + 1) j),
      (half_eq (2 * j + 1 - 1) j) by lia.
    rewrite Z.pow_add_r by lia. lia.
Qed.

(** An AVL tree of height [h] has at least [2 ^ (h / 2) - 1] nodes: its
    height is at most [2 log2 (size + 1) + 1]. *)
Lemma avl_height_bound {V : Type} (t : tree V) :
  avl t -> 2 ^ (Z.of_nat (height t) / 2) <= Z.of_nat (size t) + 1.
Proof.
  induction t as [|l IHl k v b r IHr]; [cbn; lia|].
  cbn [avl height size]. intros (Hl & Hr & Hb & Hb'). unfold hdiff in Hb.
  specialize (IHl Hl). specialize (IHr Hr).
  rewrite Nat2Z.inj_succ, Nat2Z.inj_max, Nat2Z.inj_succ, Nat2Z.inj_add.
  set (hl := Z.of_nat (height l)) in *. set (hr := Z.of_nat (height r)) in *.
  replace (Z.succ (Z.max hl hr)) with (Z.max hl hr + 1) by lia.
  destruct (Z.max_spec hl hr) as [[_ ->] | [_ ->]].
  - pose proof (pow_half_step hr ltac:(lia)). pose proof (pow_half_le (hr - 1) hl ltac:(lia)).
    lia.
  - pose proof (pow_half_step hl ltac:(lia)). pose proof (pow_half_le (hl - 1) hr ltac:(lia)).
    lia.
Qed.

(** C29. Every tree built from the empty tree by [AVLTree::insert] and
    [AVLTree::remove] has logarithmic height: [2 ^ (height / 2) <= size + 1]. *)
Theorem avl_built_height {V : Type} (t : tree V) :
  avl_built t -> 2 ^ (Z.of_nat (height t) / 2) <= Z.of_nat (size t) + 1.
Proof. intros H. apply avl_height_bound, avl_built_avl, H. Qed.

(** C18. [isBalanced] is not complete: the AVL tree built by inserting
    36, 13, 2, 19, 16, 9, 14, 47, 60, 5, 26, 11, 40, 1 is height balanced, yet
    the oracle rejects it, because [left_height] and [right_height] follow a
    single path instead of computing heights. *)
Theorem isBalanced_rejects_avl :
  avl_built (fold_left (fun t k => AVLTree.insert k k t)
               [36;13;2;19;16;9;14;47;60;5;26;11;40;1] (@Leaf Z)) /\
  balanced (fold_left (fun t k => AVLTree.insert k k t)
              [36;13;2;19;16;9;14;47;60;5;26;11;40;1] (@Leaf Z)) = true /\
  isBalanced (fold_left (fun t k => AVLTree.insert k k t)
                [36;13;2;19;16;9;14;47;60;5;26;11;40;1] (@Leaf Z)) = false.
Proof.
  split; [|split; vm_compute; reflexivity].
  generalize (@built_empty Z). generalize (@Leaf Z).
  generalize [36;13;2;19;16;9;14;47;60;5;26;11;40;1].
  induction l as [|k l IH]; intros t Ht; [exact Ht|]. apply IH. now constructor.
Qed.

(** Witness of C17: a tree built by two insertions and one removal. *)
Lemma avl_built_balanced_witness :
  avl_built (AVLTree.remove 1 (AVLTree.insert 2 2 (AVLTree.insert 1 1 (@Leaf Z)))) /\
  balanced (AVLTree.remove 1 (AVLTree.insert 2 2 (AVLTree.insert 1 1 (@Leaf Z)))) = true.
Proof.
  assert (H : avl_built (AVLTree.remove 1 (AVLTree.insert 2 2 (AVLTree.insert 1 1 (@Leaf Z)))))
    by (repeat constructor).
  split; [exact H | exact (avl_built_balanced _ H)].
Defined.

(** Witness of C29: inserting 1..7 gives a tree of height 3 and size 7. *)
Lemma avl_built_height_witness :
  avl_built (fold_left (fun t k => AVLTree.insert k k t) [1;2;3;4;5;6;7] (@Leaf Z)) /\
  2 ^ (Z.of_nat (height (fold_left (fun t k => AVLTree.insert k k t) [1;2;3;4;5;6;7]
                           (@Leaf Z))) / 2) <=
  Z.of_nat (size (fold_left (fun t k => AVLTree.insert k k t) [1;2;3;4;5;6;7] (@Leaf Z))) + 1.
Proof.
  assert (H : avl_built (fold_left (fun t k => AVLTree.insert k k t) [1;2;3;4;5;6;7]
                           (@Leaf Z))) by (repeat constructor).
  split; [exact H | exact (avl_built_height _ H)].
Defined.

End HeightBalance.
