(* ===== verification/Iterator.v ===== *)
(** In-order iteration of [src/bst.h]: [BinarySearchTree::iterator] (its
    [current_] pointer), [successor], [getSmallestNode], [begin()], [end()],
    [operator*], [operator->], [operator++], [operator==], [operator!=]
    (items read through [Node::getItem]), and the loop
    [for (it = begin(); it != end(); ++it)] of the test drivers.  The
    iterator is [None] (NULL, [end()]) or a zipper focused on a node.
    Theorems: [successor] and [predecessor] step to the in-order next and
    previous node of the same tree ([successor] returns NULL after the last
    node, [predecessor] dereferences NULL before the first); the loop
    enumerates [elements] in order with [size t] steps, and [begin()] on an
    empty tree dereferences the null [root_]; [operator++] reaches [end()]
    from every node; on an ordered tree [operator==] is node identity. *)

From Stdlib Require Import ZArith List Lia.
From S2P Require Import Prelude Tree Bst.
Import ListNotations.
Open Scope Z_scope.

Module Iterator.
Section Ops.
Context {V : Type}.

(** [BinarySearchTree::iterator::current_]. *)
Definition iterator : Type := option (tree V * path V).

(** The loop [while (temp->getLeft() != NULL) temp = temp->getLeft();]. *)
Fixpoint leftmost (t : tree V) (ctx : path V) : tree V * path V :=
  match t with
  | Node (Node _ _ _ _ _ as l) k v b r => leftmost l (LeftOf k v b r :: ctx)
  | _ => (t, ctx)
  end.

(** [BinarySearchTree::getSmallestNode]: [current = root_] is dereferenced
    without a test. *)
Definition getSmallestNode (t : tree V) : result (tree V * path V) :=
  match t with
  | Leaf => Err NullDeref
  | _ => Ok (leftmost t [])
  end.

(** The climb of [successor] when there is no right child: up while the node
    is a right child; NULL once the root is passed. *)
Fixpoint successor_climb (t : tree V) (ctx : path V) : iterator :=
  match ctx with
  | [] => None
  | LeftOf k v b r :: c => Some (Node t k v b r, c)
  | RightOf l k v b :: c => successor_climb (Node l k v b t) c
  end.

(** [BinarySearchTree::successor(current)]; [current->getRight()] is
    dereferenced without a test. *)
Definition successor (z : tree V * path V) : result iterator :=
  let '(t, ctx) := z in
  match t with
  | Leaf => Err NullDeref
  | Node l k v b r =>
      match r with
      | Node _ _ _ _ _ => Ok (Some (leftmost r (RightOf l k v b :: ctx)))
      | Leaf => Ok (successor_climb t ctx)
      end
  end.

(** [begin()] and [end()]. *)
Definition begin (t : tree V) : result iterator :=
  (let* z := getSmallestNode t in Ok (Some z))%avl.

Definition end_ : iterator := None.

(** [operator*]: [current_->getItem()]. *)
Definition deref (it : iterator) : result (Z * V) :=
  match it with
  | None => Err NullDeref
  | Some (n, _) => getItem n
  end.

(** [operator->]: [&(current_->getItem())], the address of the same item
    [operator*] returns; the model gives the item itself. *)
Definition operator_arrow (it : iterator) : result (Z * V) := deref it.

(** [std::pair] equality on items: keys with [==], values with [eqv]. *)
Definition item_eqb (eqv : V -> V -> bool) (i1 i2 : Z * V) : bool :=
  (fst i1 =? fst i2) && eqv (snd i1) (snd i2).

(** [operator==]: two NULL iterators are equal, a NULL and a non-NULL one
    are not, and two non-NULL iterators are compared by their items. *)
Definition operator_eq (eqv : V -> V -> bool) (it1 it2 : iterator) : result bool :=
  match it1, it2 with
  | None, None => Ok true
  | None, Some _ | Some _, None => Ok false
  | Some (n1, _), Some (n2, _) =>
      (let* i1 := getItem n1 in let* i2 := getItem n2 in Ok (item_eqb eqv i1 i2))%avl
  end.

(** [operator!=]: the mirror of [operator==], with [!=] on the items. *)
Definition operator_neq (eqv : V -> V -> bool) (it1 it2 : iterator) : result bool :=
  match it1, it2 with
  | None, None => Ok false
  | None, Some _ | Some _, None => Ok true
  | Some (n1, _), Some (n2, _) =>
      (let* i1 := getItem n1 in let* i2 := getItem n2 in Ok (negb (item_eqb eqv i1 i2)))%avl
  end.

(** [operator++]. *)
Definition operator_incr (it : iterator) : result iterator :=
  match it with
  | None => Err NullDeref
  | Some z => successor z
  end.

(** The loop body (the item read through [it->first], [it->second]) then
    [++it] while [it != end()], collecting the items; [None] when the fuel
    runs out. *)
Fixpoint iterate (fuel : nat) (it : iterator) : option (result (list (Z * V))) :=
  match it with
  | None => Some (Ok [])
  | Some z =>
      match fuel with
      | O => None
      | S f =>
          match operator_arrow it, operator_incr it with
          | Err e, _ | _, Err e => Some (Err e)
          | Ok x, Ok it' =>
              match iterate f it' with
              | Some (Ok xs) => Some (Ok (x :: xs))
              | r => r
              end
          end
      end
  end.

(** [n] applications of [operator++]. *)
Fixpoint advance (n : nat) (it : iterator) : result iterator :=
  match n with
  | O => Ok it
  | S m => match operator_incr it with Ok it' => advance m it' | Err e => Err e end
  end.

(** [for (it = begin(); it != end(); ++it)]. *)
Definition traverse (fuel : nat) (t : tree V) : option (result (list (Z * V))) :=
  match begin t with
  | Err e => Some (Err e)
  | Ok it => iterate fuel it
  end.

End Ops.

Section Proofs.
Context {V : Type}.
Implicit Types (t l r : tree V) (ctx c : path V) (k b : Z) (v : V).

Lemma leftmost_spec t ctx :
  t <> Leaf ->
  exists d k v b r, leftmost t ctx = (Node Leaf k v b r, d ++ ctx) /\
    plug (Node Leaf k v b r) d = t /\ ctx_pre d = [].
Proof.
  revert ctx; induction t as [|l IHl k v b r _]; intros ctx Hn; [congruence|].
  destruct l as [|ll lk lv lb lr].
  - exists [], k, v, b, r. auto.
  - change (leftmost (Node (Node ll lk lv lb lr) k v b r) ctx)
      with (leftmost (Node ll lk lv lb lr) (LeftOf k v b r :: ctx)).
    destruct (IHl (LeftOf k v b r :: ctx)) as (d & k' & v' & b' & r' & E & P & Q);
      [discriminate|].
    exists (d ++ [LeftOf k v b r]), k', v', b', r'.
    rewrite E, <- app_assoc, plug_app, P, ctx_pre_app, Q. auto.
Qed.

Lemma successor_climb_spec t ctx :
  (successor_climb t ctx = None /\ ctx_post ctx = []) \/
  exists l k v b r c', successor_climb t ctx = Some (Node l k v b r, c') /\
    plug (Node l k v b r) c' = plug t ctx /\
    ctx_pre c' ++ elements l = ctx_pre ctx ++ elements t.
Proof.
  revert t; induction ctx as [|[k v b r | l k v b] c IH]; intros t.
  - left; auto.
  - right. exists t, k, v, b, r, c. auto.
  - destruct (IH (Node l k v b t))
      as [[E P] | (l' & k' & v' & b' & r' & c' & E & P & Q)]; [left; auto | right].
    exists l', k', v', b', r', c'. cbn [successor_climb ctx_pre]. rewrite E, P, Q.
    cbn [elements]. rewrite <- !app_assoc. auto.
Qed.

Lemma predecessor_climb_spec t ctx :
  (BinarySearchTree.predecessor_climb t ctx = Err NullDeref /\ ctx_pre ctx = []) \/
  exists l k v b r c',
    BinarySearchTree.predecessor_climb t ctx = Ok (Node l k v b r, c') /\
    plug (Node l k v b r) c' = plug t ctx /\
    ctx_pre c' ++ elements l ++ [(k, v)] = ctx_pre ctx.
Proof.
  revert t; induction ctx as [|[k v b r | l k v b] c IH]; intros t.
  - left; auto.
  - exact (IH (Node t k v b r)).
  - right. exists l, k, v, b, t, c. auto.
Qed.

(** Two positions [(l', k', c')] and [(l, k, c)] of the same tree, the first
    one item to the right of the second: what remains after the second is the
    first's item and what remains after it. *)
Lemma suffix_step l k v b r c l' k' v' b' r' c' :
  plug (Node l' k' v' b' r') c' = plug (Node l k v b r) c ->
  ctx_pre c' ++ elements l' = ctx_pre c ++ elements l ++ [(k, v)] ->
  elements r ++ ctx_post c = (k', v') :: elements r' ++ ctx_post c'.
Proof.
  intros P Q. apply (f_equal elements) in P. rewrite !elements_plug in P.
  cbn [elements] in P. rewrite !app_mid_assoc, Q in P. rewrite <- !app_assoc in P.
  do 2 apply app_inv_head_iff in P. cbn in P. congruence.
Qed.

Lemma successor_step l k v b r c :
  (successor (Node l k v b r, c) = Ok None /\ elements r ++ ctx_post c = []) \/
  exists l' k' v' b' r' c',
    successor (Node l k v b r, c) = Ok (Some (Node l' k' v' b' r', c')) /\
    plug (Node l' k' v' b' r') c' = plug (Node l k v b r) c /\
    ctx_pre c' ++ elements l' = ctx_pre c ++ elements l ++ [(k, v)].
Proof.
  destruct r as [|rl rk rv rb rr]; cbn [successor].
  - destruct (successor_climb_spec (Node l k v b Leaf) c)
      as [[E P] | (l' & k' & v' & b' & r' & c' & E & P & Q)]; rewrite E; [left; auto|].
    right. exists l', k', v', b', r', c'. rewrite P, Q. auto.
  - destruct (leftmost_spec (Node rl rk rv rb rr) (RightOf l k v b :: c))
      as (d & k' & v' & b' & r' & E & P & Q); [discriminate|].
    right. rewrite E. exists Leaf, k', v', b', r', (d ++ RightOf l k v b :: c).
    rewrite plug_app, P, ctx_pre_app, Q. cbn [ctx_pre elements].
    rewrite !app_nil_r, ?app_assoc. auto.
Qed.

(** C19. [successor] of a node of a tree is NULL when nothing follows it in
    order, and otherwise the node of the same tree whose in-order prefix is
    the old prefix followed by the old item: the in-order next node. *)
Theorem successor_spec l k v b r c :
  (successor (Node l k v b r, c) = Ok None /\ elements r ++ ctx_post c = []) \/
  exists l' k' v' b' r' c',
    successor (Node l k v b r, c) = Ok (Some (Node l' k' v' b' r', c')) /\
    plug (Node l' k' v' b' r') c' = plug (Node l k v b r) c /\
    ctx_pre c' ++ elements l' = ctx_pre c ++ elements l ++ [(k, v)].
Proof. apply successor_step. Qed.

(** C20. [predecessor] of a node of a tree dereferences NULL when nothing
    precedes it in order, and otherwise returns the node of the same tree
    whose prefix and item make up the old prefix: the in-order previous node. *)
Theorem predecessor_spec l k v b r c :
  (BinarySearchTree.predecessor (Node l k v b r) c = Err NullDeref /\
   ctx_pre c ++ elements l = []) \/
  exists l' k' v' b' r' c',
    BinarySearchTree.predecessor (Node l k v b r) c = Ok (Node l' k' v' b' r', c') /\
    plug (Node l' k' v' b' r') c' = plug (Node l k v b r) c /\
    ctx_pre c' ++ elements l' ++ [(k', v')] = ctx_pre c ++ elements l.
Proof.
  unfold BinarySearchTree.predecessor. destruct l as [|ll lk lv lb lr]; cbn [empty negb].
  - destruct (predecessor_climb_spec (Node Leaf k v b r) c)
      as [[E P] | (l' & k' & v' & b' & r' & c' & E & P & Q)]; rewrite E.
    + left. rewrite P. auto.
    + right. exists l', k', v', b', r', c'. rewrite P, Q, app_nil_r. auto.
  - destruct (rightmost (Node ll lk lv lb lr) (LeftOf k v b r :: c)) as [q c'] eqn:Hr.
    destruct (rightmost_spec _ _ q c' Hr) as (d & pl & pk & pv & pb & -> & -> & P & Q);
      [discriminate|].
    right. exists pl, pk, pv, pb, Leaf, (d ++ LeftOf k v b r :: c).
    rewrite plug_app, P, ctx_pre_app, <- P, elements_plug, Q. cbn [ctx_pre elements].
    rewrite <- !app_assoc. auto.
Qed.

Lemma iterate_suffix fuel l k v b r c :
  (length (elements r ++ ctx_post c) < fuel)%nat ->
  iterate fuel (Some (Node l k v b r, c)) = Some (Ok ((k, v) :: elements r ++ ctx_post c)).
Proof.
  revert l k v b r c; induction fuel as [|f IH]; intros l k v b r c Hf; [lia|].
  cbn [iterate operator_arrow deref getItem operator_incr].
  destruct (successor_step l k v b r c)
    as [[E P] | (l' & k' & v' & b' & r' & c' & E & P & Q)]; rewrite E.
  - rewrite P. destruct f; reflexivity.
  - pose proof (suffix_step _ _ _ _ _ _ _ _ _ _ _ _ P Q) as Hs.
    rewrite IH by (rewrite Hs in Hf; cbn in Hf; lia). now rewrite Hs.
Qed.

(** The loop test [it != end()] of [iterate] is the NULL test. *)
Lemma operator_neq_end (eqv : V -> V -> bool) it :
  (forall c, it <> Some (Leaf, c)) -> operator_neq eqv it end_ = Ok (match it with Some _ => true | None => false end).
Proof. intros H. destruct it as [[[|] c]|]; [destruct (H c eq_refl) | reflexivity ..]. Qed.

Lemma advance_suffix n l k v b r c :
  length (elements r ++ ctx_post c) = n ->
  advance (S n) (Some (Node l k v b r, c)) = Ok None /\
  forall m, (m <= n)%nat -> exists z, advance m (Some (Node l k v b r, c)) = Ok (Some z).
Proof.
  revert l k v b r c; induction n as [|n IH]; intros l k v b r c Hn;
    cbn [advance operator_incr];
    destruct (successor_step l k v b r c)
      as [[E P] | (l' & k' & v' & b' & r' & c' & E & P & Q)]; rewrite E.
  - split; [reflexivity|]. intros m Hm. replace m with O by lia. eexists; reflexivity.
  - rewrite (suffix_step _ _ _ _ _ _ _ _ _ _ _ _ P Q) in Hn. discriminate.
  - rewrite P in Hn. discriminate.
  - rewrite (suffix_step _ _ _ _ _ _ _ _ _ _ _ _ P Q) in Hn. cbn in Hn.
    destruct (IH l' k' v' b' r' c' ltac:(lia)) as [H1 H2]. split; [exact H1|].
    intros [|m] Hm; [eexists; reflexivity|]. cbn [advance operator_incr]. rewrite E.
    apply H2. lia.
Qed.

(** C33. Liveness of iteration: from any node of a tree, [operator++]
    reaches [end()] after exactly one step more than the number of items
    that follow the node, and yields a node at every step before. *)
Theorem incr_reaches_end l k v b r c :
  advance (S (length (elements r ++ ctx_post c))) (Some (Node l k v b r, c)) = Ok None /\
  forall m, (m <= length (elements r ++ ctx_post c))%nat ->
    exists z, advance m (Some (Node l k v b r, c)) = Ok (Some z).
Proof. apply advance_suffix. reflexivity. Qed.

(** C32. On an ordered tree, two iterators into the tree compare equal with
    [operator==] exactly when they point to the same node (for a value
    equality that is reflexive): the item comparison of the code decides
    node identity. *)
Theorem iterator_eq_position (eqv : V -> V -> bool) l1 k1 v1 b1 r1 c1 l2 k2 v2 b2 r2 c2 :
  (forall x, eqv x x = true) ->
  bst (plug (Node l1 k1 v1 b1 r1) c1) ->
  plug (Node l2 k2 v2 b2 r2) c2 = plug (Node l1 k1 v1 b1 r1) c1 ->
  operator_eq eqv (Some (Node l1 k1 v1 b1 r1, c1)) (Some (Node l2 k2 v2 b2 r2, c2)) = Ok true <->
  (Node l1 k1 v1 b1 r1, c1) = (Node l2 k2 v2 b2 r2, c2).
Proof.
  intros Hr Hs Hp. cbn [operator_eq getItem bind]. unfold item_eqb. cbn [fst snd]. split.
  - intros E. injection E as E. apply andb_prop in E as [E _]. apply Z.eqb_eq in E. subst k2.
    pose proof (internalFind_position _ _ _ _ _ _ Hs) as F1.
    pose proof (internalFind_position l2 k1 v2 b2 r2 c2 ltac:(rewrite Hp; exact Hs)) as F2.
    rewrite Hp, F1 in F2. congruence.
  - intros E. injection E as -> -> -> -> -> ->. now rewrite Z.eqb_refl, Hr.
Qed.

(** The loop from [begin()] within [size t] steps. *)
Lemma traverse_contents t :
  traverse (size t) t =
  if empty t then Some (Err NullDeref) else Some (Ok (elements t)).
Proof.
  destruct t as [|l k v b r]; [reflexivity|]. cbn [empty].
  destruct (leftmost_spec (Node l k v b r) [])
    as (d & k' & v' & b' & r' & E & P & Q); [discriminate|].
  assert (He : elements (Node l k v b r) = (k', v') :: elements r' ++ ctx_post d)
    by (rewrite <- P, elements_plug, Q; reflexivity).
  unfold traverse, begin, getSmallestNode. rewrite E, app_nil_r. cbn [bind].
  rewrite iterate_suffix, <- He; [reflexivity|].
  rewrite size_elements, He. cbn. lia.
Qed.

(** C21. The loop [for (it = begin(); it != end(); ++it)] visits exactly the
    items of the tree in order, within [size t] steps of [operator++]; on an
    empty tree [begin()] dereferences the null [root_]. *)
Theorem traverse_elements t :
  traverse (size t) t =
  if empty t then Some (Err NullDeref) else Some (Ok (elements t)).
Proof. apply traverse_contents. Qed.

Lemma filter_ge_split (A B : list (Z * V)) k v :
  Forall (fun p => fst p < k) A -> Forall (fun p => k < fst p) B ->
  filter (fun p => k <=? fst p) (A ++ (k, v) :: B) = (k, v) :: B.
Proof.
  intros HA HB.
  assert (EA : filter (fun p => k <=? fst p) A = []).
  { induction HA as [|p A Hp _ IH]; [reflexivity|]. cbn [filter].
    destruct (Z.leb_spec k (fst p)); [lia | exact IH]. }
  assert (EB : filter (fun p => k <=? fst p) B = B).
  { induction HB as [|p B Hp _ IH]; [reflexivity|]. cbn [filter].
    destruct (Z.leb_spec k (fst p)); [now rewrite IH | lia]. }
  rewrite filter_app, EA. cbn [filter fst app]. now rewrite Z.leb_refl, EB.
Qed.

(** C22. On a BST, iterating from the iterator [find(key)] returns up to
    [end()] visits exactly the items whose keys are at least [key], in order. *)
Theorem find_iterate key t z :
  bst t -> BinarySearchTree.find key t = Some z ->
  iterate (size t) (Some z) = Some (Ok (filter (fun p => key <=? fst p) (elements t))).
Proof.
  intros Hs Hf. destruct z as [n c]. unfold BinarySearchTree.find in Hf.
  apply internalFind_found in Hf as [Ht (l & v & b & r & ->)]. subst t.
  unfold bst, keys in Hs. rewrite size_elements, !elements_plug in *.
  cbn [elements] in *. rewrite !app_mid_assoc in *.
  destruct (sorted_split _ _ _ _ Hs) as [HA HB].
  rewrite filter_ge_split by assumption.
  apply iterate_suffix. rewrite !length_app. cbn. rewrite length_app. lia.
Qed.

End Proofs.

(** Witness of C22: from [find(3)] in the BST of 5, 2, 6, 1, 3 the loop
    visits 3, 5, 6. *)
Lemma find_iterate_witness :
  bst (fold_left (fun t k => BinarySearchTree.insert k k t) [5;2;6;1;3] (@Leaf Z)) /\
  exists z,
    BinarySearchTree.find 3
      (fold_left (fun t k => BinarySearchTree.insert k k t) [5;2;6;1;3] (@Leaf Z)) = Some z /\
    iterate (size (fold_left (fun t k => BinarySearchTree.insert k k t) [5;2;6;1;3] (@Leaf Z)))
      (Some z) = Some (Ok [(3,3);(5,5);(6,6)]).
Proof.
  assert (H : bst (fold_left (fun t k => BinarySearchTree.insert k k t) [5;2;6;1;3]
                     (@Leaf Z))) by (apply bst_of_bstb; vm_compute; reflexivity).
  split; [exact H|].
  destruct (BinarySearchTree.find 3
              (fold_left (fun t k => BinarySearchTree.insert k k t) [5;2;6;1;3] (@Leaf Z)))
    as [z|] eqn:E; [|vm_compute in E; discriminate].
  exists z. split; [reflexivity|]. rewrite (find_iterate 3 _ z H E). vm_compute. reflexivity.
Defined.

(** Witness of C32: in the tree of 1, 2, 3 the iterator on 1 equals itself. *)
Lemma iterator_eq_position_witness :
  (forall x, Z.eqb x x = true) /\
  bst (plug (Node Leaf 1 1 0 Leaf) [LeftOf 2 2 0 (Node Leaf 3 3 0 Leaf)]) /\
  (operator_eq Z.eqb (Some (Node Leaf 1 1 0 Leaf, [LeftOf 2 2 0 (Node Leaf 3 3 0 Leaf)]))
     (Some (Node Leaf 1 1 0 Leaf, [LeftOf 2 2 0 (Node Leaf 3 3 0 Leaf)])) = Ok true <->
   (Node Leaf 1 1 0 Leaf, [LeftOf 2 2 0 (Node Leaf 3 3 0 Leaf)]) =
   (Node Leaf 1 1 0 Leaf, [LeftOf 2 2 0 (@Node Z Leaf 3 3 0 Leaf)])).
Proof.
  assert (Hr : forall x, Z.eqb x x = true) by exact Z.eqb_refl.
  assert (Hs : bst (plug (Node Leaf 1 1 0 Leaf) [LeftOf 2 2 0 (@Node Z Leaf 3 3 0 Leaf)]))
    by (apply bst_of_bstb; vm_compute; reflexivity).
  split; [exact Hr|]. split; [exact Hs|].
  exact (iterator_eq_position Z.eqb _ _ _ _ _ _ _ _ _ _ _ _ Hr Hs eq_refl).
Defined.

(** The successor of the root 2 of the AVL tree of 1..5 is 3. *)
Lemma successor_example :
  successor (Node (Node Leaf 1 1 0 Leaf) 2 2 1
                  (Node (Node Leaf 3 3 0 Leaf) 4 4 0 (Node Leaf 5 5 0 Leaf)), []) =
  Ok (Some (Node Leaf 3 3 0 Leaf, [LeftOf 4 4 0 (Node Leaf 5 5 0 Leaf);
                                   RightOf (Node Leaf 1 1 0 Leaf) 2 2 1])).
Proof. reflexivity. Defined.

End Iterator.
