(* ===== verification/BstTest.v ===== *)
(** The test driver [src/bst-test.cpp]: a [BinarySearchTree<char,int>] and
    an [AVLTree<char,int>] each get the items ('a', 1) and ('b', 2), are
    printed with the iterator loop, searched for 'b' with
    [find('b') != end()], and lose 'b'; then an [AVLTree<int,int>] gets 30
    items.  Characters are their codes ('a' = 97, 'b' = 98).  The printed
    text is a list of lines ([ItemLine k v] for [it->first << " " <<
    it->second]); the final [ct.print()] (the ASCII printer, not in src/) is
    not modelled; on return the destructors of [ct], [at] and [bt] run
    [clear].  The iteration loop runs [traverse] with [size t] steps, enough
    by [Iterator.traverse_elements].  Theorems: on every tree the two classes
    build by [insert] and [remove], the printing loop prints each item once,
    keys strictly increasing (the empty tree crashes in [begin()]); on every
    ordered tree the [find(key) != end()] test prints "Found" exactly when
    the key is stored. *)

From stdpp Require Import base list.
From Stdlib Require Import ZArith List String Sorted.
From S2P Require Import Prelude Tree Bst Clear Avl Balance Iterator.
Import ListNotations.
Open Scope Z_scope.

Module BstTest.
Import Iterator HeightBalance.

(** A printed line. *)
Inductive line : Type :=
| Text (s : string)
| ItemLine (k : Z) (v : Z).

(** The line [it->first << " " << it->second] printed for an item. *)
Definition item_line (kv : Z * Z) : line := ItemLine (fst kv) (snd kv).

(** [for (it = t.begin(); it != t.end(); ++it)
       cout << it->first << " " << it->second << endl;] *)
Definition print_items (t : tree Z) : option (result (list line)) :=
  match traverse (size t) t with
  | Some (Ok items) => Some (Ok (map item_line items))
  | Some (Err e) => Some (Err e)
  | None => None
  end.

(** [if (t.find(k) != t.end()) cout << "Found b" ... else cout << "Did not find b"]. *)
Definition found_line (t : tree Z) (k : Z) : result line :=
  match operator_neq Z.eqb (BinarySearchTree.find k t) end_ with
  | Ok true => Ok (Text "Found b")
  | Ok false => Ok (Text "Did not find b")
  | Err e => Err e
  end.

(** The keys given to [ct], in order. *)
Definition ct_keys : list Z :=
  [-17; -142; 137; 21; -48; -59; -10; -98; 20; -128; 48; 138; 24; 94; -113;
   -135; -144; -110; -114; -86; 123; -116; 14; -18; 93; -45; 106; 58; 36; 84].

(** The destructors that run when [main] returns, [ct], [at], [bt] (reverse
    order of construction): the items they [delete], in that order. *)
Definition destroy_all (bt at_ ct : tree Z) : result (list (Z * Z)) :=
  (let* f3 := snd (Clear.destructor ct) in
   let* f2 := snd (Clear.destructor at_) in
   let* f1 := snd (Clear.destructor bt) in
   Ok (f3 ++ f2 ++ f1))%avl.

(** [main]: the lines printed, the final [bt], [at] and [ct] (before
    [ct.print()]), and the items the destructors delete on return. *)
Definition main : option (result (list line * tree Z * tree Z * tree Z * list (Z * Z))) :=
  let bt := BinarySearchTree.insert 98 2
              (BinarySearchTree.insert 97 1 BinarySearchTree.new_BinarySearchTree) in
  match print_items bt with
  | None => None
  | Some (Err e) => Some (Err e)
  | Some (Ok l1) =>
  match found_line bt 98 with
  | Err e => Some (Err e)
  | Ok f1 =>
  match BinarySearchTree.remove 98 bt with
  | Err e => Some (Err e)
  | Ok bt' =>
  let at_ := AVLTree.insert 98 2 (AVLTree.insert 97 1 BinarySearchTree.new_BinarySearchTree) in
  match print_items at_ with
  | None => None
  | Some (Err e) => Some (Err e)
  | Some (Ok l2) =>
  match found_line at_ 98 with
  | Err e => Some (Err e)
  | Ok f2 =>
  let at_' := AVLTree.remove 98 at_ in
  let ct := fold_left (fun t k => AVLTree.insert k k t) ct_keys
              BinarySearchTree.new_BinarySearchTree in
  match destroy_all bt' at_' ct with
  | Err e => Some (Err e)
  | Ok freed =>
  Some (Ok ([Text "Binary Search Tree contents:"] ++ l1 ++ [f1; Text "Erasing b";
             Text ""; Text "AVLTree contents:"] ++ l2 ++ [f2; Text "Erasing b"],
            bt', at_', ct, freed))
  end end end end end end.

(** [existsb] with [==] decides membership of a key. *)
Lemma existsb_eqb_In (k : Z) (l : list Z) : existsb (Z.eqb k) l = true <-> In k l.
Proof.
  rewrite existsb_exists. split.
  - intros (x & Hx & E). apply Z.eqb_eq in E. now subst.
  - intros H. exists k. split; [exact H | apply Z.eqb_refl].
Qed.

Lemma keys_plug_In (l : tree Z) k v b r c : In k (keys (plug (Node l k v b r) c)).
Proof.
  unfold keys. change k with (fst (k, v)). apply in_map.
  rewrite elements_plug. cbn [elements]. rewrite !in_app_iff. cbn. tauto.
Qed.

(** C38. The driver's test [if (t.find(k) != t.end())] is right on every
    ordered tree: it never dereferences NULL, and prints "Found b" exactly
    when the key is in the tree ("Did not find b" otherwise). *)
Theorem found_line_spec (t : tree Z) (k : Z) :
  bst t ->
  found_line t k =
  Ok (if existsb (Z.eqb k) (keys t) then Text "Found b" else Text "Did not find b").
Proof.
  intros Hs. unfold found_line, BinarySearchTree.find.
  destruct (internalFind k t) as [[n c]|] eqn:Hf.
  - apply internalFind_found in Hf as [Hp (l & v & b & r & ->)].
    rewrite operator_neq_end by (intros c' E; discriminate).
    replace (existsb (Z.eqb k) (keys t)) with true; [reflexivity|].
    symmetry. apply existsb_eqb_In. rewrite <- Hp. apply keys_plug_In.
  - rewrite operator_neq_end by (intros c' E; discriminate).
    destruct (existsb (Z.eqb k) (keys t)) eqn:E; [|reflexivity].
    apply existsb_eqb_In in E. exfalso. exact (internalFind_absent k t Hs Hf E).
Qed.

(** Witness of C38: the tree of the driver, holding 'a' and 'b'. *)
Lemma found_line_spec_witness :
  bst (BinarySearchTree.insert 98 2 (BinarySearchTree.insert 97 1 Leaf)) /\
  found_line (BinarySearchTree.insert 98 2 (BinarySearchTree.insert 97 1 Leaf)) 98 =
  Ok (if existsb (Z.eqb 98) (keys (BinarySearchTree.insert 98 2 (BinarySearchTree.insert 97 1 Leaf)))
      then Text "Found b" else Text "Did not find b").
Proof.
  assert (H : bst (BinarySearchTree.insert 98 2 (BinarySearchTree.insert 97 1 (@Leaf Z))))
    by (apply bst_of_bstb; vm_compute; reflexivity).
  split; [exact H | exact (found_line_spec _ 98 H)].
Defined.

(** The printing loop on a tree the classes build: the lines are its items. *)
Lemma print_items_built (t : tree Z) :
  avl_built t \/ BinarySearchTree.bst_built t ->
  print_items t = (if empty t then Some (Err NullDeref) else Some (Ok (map item_line (elements t)))) /\
  StronglySorted Z.lt (keys t).
Proof.
  intros Hb. unfold print_items. rewrite traverse_contents.
  split; [now destruct (empty t)|].
  destruct Hb as [Hb | Hb]; [apply avl_built_bst, Hb | apply BinarySearchTree.bst_built_bst, Hb].
Qed.

(** C40. For every tree an [AVLTree] or a [BinarySearchTree] builds from the
    empty tree by [insert] and [remove], the printing loop of the driver
    [for (it = begin(); it != end(); ++it)] runs to [end()] without error
    and prints one line per item with the keys strictly increasing, the
    spec's in-order traversal property; on the empty tree [begin()]
    dereferences the null [root_]. *)
Theorem print_loop_sorted (t : tree Z) :
  avl_built t \/ BinarySearchTree.bst_built t ->
  (t = Leaf /\ print_items t = Some (Err NullDeref)) \/
  (exists items, print_items t = Some (Ok (map item_line items)) /\
                 items = elements t /\ items <> [] /\ StronglySorted Z.lt (map fst items)).
Proof.
  intros Hb. destruct (print_items_built t Hb) as [Hp Hs].
  destruct t as [|l k v b r]; [left; now split|right].
  exists (elements (Node l k v b r)). split; [exact Hp|]. split; [reflexivity|].
  split; [cbn [elements]; intros E; exact (app_cons_not_nil _ _ _ (eq_sym E)) | exact Hs].
Qed.

(** Witness of C40: the AVL tree of 3, 1, 2 with 1 removed prints 2 then 3. *)
Lemma print_loop_sorted_witness :
  (avl_built (AVLTree.remove 1 (AVLTree.insert 2 2 (AVLTree.insert 1 1 (AVLTree.insert 3 3 Leaf))))
   \/ BinarySearchTree.bst_built
        (AVLTree.remove 1 (AVLTree.insert 2 2 (AVLTree.insert 1 1 (AVLTree.insert 3 3 Leaf))))) /\
  ((AVLTree.remove 1 (AVLTree.insert 2 2 (AVLTree.insert 1 1 (AVLTree.insert 3 3 Leaf))) = Leaf /\
    print_items (AVLTree.remove 1 (AVLTree.insert 2 2 (AVLTree.insert 1 1 (AVLTree.insert 3 3 Leaf))))
    = Some (Err NullDeref)) \/
   (exists items,
      print_items (AVLTree.remove 1 (AVLTree.insert 2 2 (AVLTree.insert 1 1 (AVLTree.insert 3 3 Leaf))))
      = Some (Ok (map item_line items)) /\
      items = elements (AVLTree.remove 1 (AVLTree.insert 2 2 (AVLTree.insert 1 1 (AVLTree.insert 3 3 Leaf))))
      /\ items <> [] /\ StronglySorted Z.lt (map fst items))).
Proof.
  assert (H : avl_built (AVLTree.remove 1 (AVLTree.insert 2 2 (AVLTree.insert 1 1
                (AVLTree.insert 3 3 (@Leaf Z)))))) by (repeat constructor).
  split; [left; exact H | exact (print_loop_sorted _ (or_introl H))].
Defined.

End BstTest.
