(* ===== verification/EqualPaths.v ===== *)
(** [src/equal-paths.cpp]: the predicate [equalPaths] on a plain binary tree
    (the [Node] of [equal-paths.h]: an [int key] and [left] / [right]
    pointers) with its helpers [isLeaf], [hasTwoChildren], [distToLeaf],
    [aliveChild].  The property it is meant to decide: every leaf lies at the
    same depth.  Theorems: [equalPaths] is complete for that property, and
    sound on full trees (every node with zero or two children), but not sound
    in general: below a node with two children, a child with a single child is
    never checked recursively, and [distToLeaf] measures only its leftmost
    path. *)

From Stdlib Require Import ZArith List Lia Bool.
From S2P Require Import Prelude.
Import ListNotations.
Open Scope Z_scope.
Open Scope bool_scope.

Module EqualPaths.

(** [struct Node] of [equal-paths.h]: [NULL] or a node with its key and its
    two child pointers. *)
Inductive node : Type :=
| NULL
| Node (key : Z) (left right : node).

Definition isNull (n : node) : bool :=
  match n with NULL => true | Node _ _ _ => false end.

(** [isLeaf(n)]. *)
Definition isLeaf (n : node) : bool :=
  match n with
  | NULL => false
  | Node _ l r => isNull l && isNull r
  end.

(** [hasTwoChildren(n)]. *)
Definition hasTwoChildren (n : node) : bool :=
  match n with
  | NULL => false
  | Node _ l r => negb (isNull l) && negb (isNull r)
  end.

(** [distToLeaf(n)]: the length of the path that goes left whenever a left
    child exists, in nodes. *)
Fixpoint distToLeaf (n : node) : Z :=
  match n with
  | NULL => 0
  | Node _ l r =>
      if isLeaf n then 1
      else if negb (isNull l) then distToLeaf l + 1
      else distToLeaf r + 1
  end.

(** [aliveChild(root)]: [root->left] is read without a test. *)
Definition aliveChild (root : node) : result node :=
  match root with
  | NULL => Err NullDeref
  | Node _ l r => if isNull l then Ok r else Ok l
  end.

(** [equalPaths(root)].  The single child [aliveChild(root)] is written out
    as its body ([root] is not NULL there) so that the recursion is on a
    subterm. *)
Fixpoint equalPaths (root : node) : bool :=
  match root with
  | NULL => true
  | Node _ l r =>
      if isLeaf root then true
      else if negb (hasTwoChildren root) then
        let child := if isNull l then r else l in
        if isLeaf child then true else equalPaths child
      else if hasTwoChildren l && negb (equalPaths l) then false
      else if hasTwoChildren r && negb (equalPaths r) then false
      else if hasTwoChildren root then
        if negb (Bool.eqb (isLeaf l) (isLeaf r)) then false
        else if distToLeaf l =? distToLeaf r then true
        else false
      else false
  end.

(** The depths of the leaves, counted in nodes from the root (a lone root is
    at depth 1). *)
Fixpoint leafDepths (n : node) : list Z :=
  match n with
  | NULL => []
  | Node _ NULL NULL => [1]
  | Node _ l r => map Z.succ (leafDepths l ++ leafDepths r)
  end.

(** The property [equalPaths] is meant to decide. *)
Definition equal_leaf_depths (n : node) : Prop :=
  forall d1 d2, In d1 (leafDepths n) -> In d2 (leafDepths n) -> d1 = d2.

(** The property decided: the leaf depths are all equal to the first. *)
Definition equal_depths_b (n : node) : bool :=
  match leafDepths n with
  | [] => true
  | d :: ds => forallb (Z.eqb d) ds
  end.

(** Every node has zero or two children. *)
Fixpoint full (n : node) : bool :=
  match n with
  | NULL => true
  | Node _ l r => Bool.eqb (isNull l) (isNull r) && full l && full r
  end.

(** ** Unfolding [equalPaths] *)

Lemma equalPaths_one k c :
  c <> NULL ->
  equalPaths (Node k NULL c) = isLeaf c || equalPaths c /\
  equalPaths (Node k c NULL) = isLeaf c || equalPaths c.
Proof. intros Hc. destruct c; [congruence | split; reflexivity]. Qed.

Lemma equalPaths_two k l r :
  l <> NULL -> r <> NULL ->
  equalPaths (Node k l r) =
  negb (hasTwoChildren l && negb (equalPaths l)) &&
  negb (hasTwoChildren r && negb (equalPaths r)) &&
  Bool.eqb (isLeaf l) (isLeaf r) && (distToLeaf l =? distToLeaf r).
Proof.
  intros Hl Hr. destruct l as [|kl ll lr]; [congruence|]. destruct r as [|kr rl rr]; [congruence|].
  change (equalPaths (Node k (Node kl ll lr) (Node kr rl rr))) with
    (if hasTwoChildren (Node kl ll lr) && negb (equalPaths (Node kl ll lr)) then false
     else if hasTwoChildren (Node kr rl rr) && negb (equalPaths (Node kr rl rr)) then false
     else if negb (Bool.eqb (isLeaf (Node kl ll lr)) (isLeaf (Node kr rl rr))) then false
     else if distToLeaf (Node kl ll lr) =? distToLeaf (Node kr rl rr) then true else false).
  destruct (hasTwoChildren (Node kl ll lr) && _), (hasTwoChildren (Node kr rl rr) && _),
    (Bool.eqb _ _), (_ =? _); reflexivity.
Qed.

(** ** Leaf depths and [distToLeaf] *)

Lemma isNull_spec n :
  (isNull n = true -> n = NULL) /\ (isNull n = false -> n <> NULL).
Proof. destruct n; split; cbn; congruence. Qed.

Lemma leafDepths_node k l r :
  l <> NULL \/ r <> NULL ->
  leafDepths (Node k l r) = map Z.succ (leafDepths l ++ leafDepths r).
Proof. intros H. destruct l, r; [destruct H; congruence | reflexivity ..]. Qed.

Lemma distToLeaf_pos n : n <> NULL -> 1 <= distToLeaf n.
Proof.
  induction n as [|k l IHl r IHr]; intros H; [congruence|]. cbn [distToLeaf].
  destruct (isLeaf (Node k l r)) eqn:E; [lia|].
  destruct l as [|kl ll lr]; cbn [isNull negb].
  - destruct r; [discriminate E|]. specialize (IHr ltac:(discriminate)). lia.
  - specialize (IHl ltac:(discriminate)). lia.
Qed.

(** [distToLeaf] measures the depth of some leaf. *)
Lemma distToLeaf_in n : n <> NULL -> In (distToLeaf n) (leafDepths n).
Proof.
  induction n as [|k l IHl r IHr]; intros H; [congruence|].
  destruct l as [|kl ll lr], r as [|kr rl rr]; [left; reflexivity | ..];
    rewrite leafDepths_node by (right; discriminate) || (left; discriminate);
    apply in_map_iff; cbn [distToLeaf isLeaf isNull andb negb].
  - exists (distToLeaf (Node kr rl rr)). split; [reflexivity|].
    apply IHr. discriminate.
  - exists (distToLeaf (Node kl ll lr)). split; [reflexivity|].
    apply in_app_iff; left. apply IHl. discriminate.
  - exists (distToLeaf (Node kl ll lr)). split; [reflexivity|].
    apply in_app_iff; left. apply IHl. discriminate.
Qed.

Lemma isLeaf_dist n : n <> NULL -> isLeaf n = true <-> distToLeaf n = 1.
Proof.
  intros H. destruct n as [|k l r]; [congruence|]. cbn [distToLeaf].
  destruct (isLeaf (Node k l r)) eqn:E; [tauto|]. split; [discriminate|].
  destruct l as [|kl ll lr]; cbn [isNull negb]; intros Hd.
  - destruct r; [cbn in E; discriminate E|].
    pose proof (distToLeaf_pos (Node key r1 r2) ltac:(discriminate)). lia.
  - pose proof (distToLeaf_pos (Node kl ll lr) ltac:(discriminate)). lia.
Qed.

Lemma equal_depths_children k l r :
  l <> NULL \/ r <> NULL -> equal_leaf_depths (Node k l r) ->
  equal_leaf_depths l /\ equal_leaf_depths r.
Proof.
  intros Hn U. unfold equal_leaf_depths in *. rewrite leafDepths_node in U by exact Hn.
  split; intros d1 d2 H1 H2; enough (Z.succ d1 = Z.succ d2) by lia;
    apply U; apply in_map, in_app_iff; auto.
Qed.

(** Under the property, every leaf lies at the depth [distToLeaf] finds. *)
Lemma equal_depths_dist n d :
  n <> NULL -> equal_leaf_depths n -> In d (leafDepths n) -> d = distToLeaf n.
Proof. intros Hn U Hd. apply U; [exact Hd | apply distToLeaf_in, Hn]. Qed.

Lemma leaf_equal_depths n : isLeaf n = true -> equal_leaf_depths n.
Proof.
  destruct n as [|k [|] [|]]; try discriminate. intros _ d1 d2 [<-|[]] [<-|[]]. reflexivity.
Qed.

Lemma equal_depths_b_spec n : equal_depths_b n = true <-> equal_leaf_depths n.
Proof.
  unfold equal_depths_b, equal_leaf_depths. destruct (leafDepths n) as [|d ds].
  - split; [intros _ ? ? [] | auto].
  - rewrite forallb_forall. split.
    + intros H d1 d2 H1 H2.
      assert (E : forall x, In x (d :: ds) -> x = d).
      { intros x [<-|Hx]; [reflexivity|]. symmetry. apply Z.eqb_eq, H, Hx. }
      rewrite (E d1 H1), (E d2 H2). reflexivity.
    + intros H x Hx. apply Z.eqb_eq, H; [left; reflexivity | right; exact Hx].
Qed.

(** ** What [equalPaths] decides *)

(** For a child of a full tree: the check [equalPaths] makes of a child
    with two children, together with the induction hypothesis, gives the
    property (a child without two children is a leaf there). *)
Lemma full_child_ok c :
  full c = true -> c <> NULL ->
  negb (hasTwoChildren c && negb (equalPaths c)) = true ->
  (equalPaths c = true -> equal_leaf_depths c) -> equal_leaf_depths c.
Proof.
  intros Hf Hn Hc IH. destruct (hasTwoChildren c) eqn:T.
  - apply IH. destruct (equalPaths c); [reflexivity | discriminate].
  - apply leaf_equal_depths.
    destruct c as [|k [|] [|]]; cbn in *; congruence.
Qed.

(** C23. [equalPaths] is complete: it accepts every tree whose leaves all
    lie at the same depth. *)
Theorem equalPaths_complete n : equal_leaf_depths n -> equalPaths n = true.
Proof.
  induction n as [|k l IHl r IHr]; intros U; [reflexivity|].
  destruct (isNull l) eqn:El, (isNull r) eqn:Er;
    apply isNull_spec in El, Er; try subst l; try subst r.
  - reflexivity.
  - destruct (equal_depths_children k NULL r (or_intror Er) U) as [_ Ur].
    rewrite (proj1 (equalPaths_one k r Er)), IHr by exact Ur. apply orb_true_r.
  - destruct (equal_depths_children k l NULL (or_introl El) U) as [Ul _].
    rewrite (proj2 (equalPaths_one k l El)), IHl by exact Ul. apply orb_true_r.
  - rename El into Hl, Er into Hr.
    destruct (equal_depths_children k l r (or_introl Hl) U) as [Ul Ur].
    rewrite equalPaths_two, IHl, IHr by assumption.
    assert (Hd : distToLeaf l = distToLeaf r).
    { enough (Z.succ (distToLeaf l) = Z.succ (distToLeaf r)) by lia.
      apply U; rewrite leafDepths_node by (left; exact Hl); apply in_map, in_app_iff;
        [left; apply distToLeaf_in, Hl | right; apply distToLeaf_in, Hr]. }
    assert (Hi : isLeaf l = isLeaf r).
    { apply Bool.eq_iff_eq_true. rewrite (isLeaf_dist l Hl), (isLeaf_dist r Hr), Hd.
      reflexivity. }
    rewrite Hi, Hd, Bool.eqb_reflx, Z.eqb_refl. cbn [negb]. now rewrite !andb_false_r.
Qed.

(** C24. On a full tree (every node has zero or two children) [equalPaths]
    is also sound: if it accepts the tree, all leaves lie at the same
    depth. *)
Theorem equalPaths_sound_full n :
  full n = true -> equalPaths n = true -> equal_leaf_depths n.
Proof.
  induction n as [|k l IHl r IHr]; intros Hf He; [intros d1 d2 []|].
  cbn [full] in Hf. apply andb_prop in Hf as [Hf Hfr]. apply andb_prop in Hf as [Hn Hfl].
  destruct (isNull l) eqn:El, (isNull r) eqn:Er; try discriminate Hn.
  - apply leaf_equal_depths. cbn. now rewrite El, Er.
  - assert (Hl : l <> NULL) by (destruct l; discriminate).
    assert (Hr : r <> NULL) by (destruct r; discriminate).
    rewrite equalPaths_two in He by assumption.
    apply andb_prop in He as [He HD]. apply andb_prop in He as [He _].
    apply andb_prop in He as [HA HB]. apply Z.eqb_eq in HD.
    pose proof (full_child_ok l Hfl Hl HA (IHl Hfl)) as Ul.
    pose proof (full_child_ok r Hfr Hr HB (IHr Hfr)) as Ur.
    assert (Hall : forall e, In e (leafDepths l ++ leafDepths r) -> e = distToLeaf l).
    { intros e Hin. apply in_app_iff in Hin as [Hin|Hin];
        [|rewrite HD]; eapply equal_depths_dist; eauto. }
    intros d1 d2 H1 H2. rewrite leafDepths_node in H1, H2 by (left; exact Hl).
    apply in_map_iff in H1 as (e1 & <- & H1), H2 as (e2 & <- & H2).
    rewrite (Hall e1 H1), (Hall e2 H2). reflexivity.
Qed.

(** C25. [equalPaths] is not sound: it accepts a tree with leaves at depths
    4 and 5, because the left child of the root has a single child, so its
    subtree is never checked, and [distToLeaf] only measures leftmost paths. *)
Theorem equalPaths_unsound :
  equalPaths (Node 1 (Node 2 (Node 3 (Node 4 NULL NULL) (Node 5 (Node 6 NULL NULL) NULL)) NULL)
                     (Node 7 (Node 8 (Node 9 NULL NULL) NULL) NULL)) = true /\
  ~ equal_leaf_depths
      (Node 1 (Node 2 (Node 3 (Node 4 NULL NULL) (Node 5 (Node 6 NULL NULL) NULL)) NULL)
              (Node 7 (Node 8 (Node 9 NULL NULL) NULL) NULL)).
Proof.
  split; [reflexivity|]. intros U.
  assert (E : 4 = 5) by (apply U; vm_compute; intuition). discriminate E.
Qed.

(** The perfect tree with three levels, the first example of the tests. *)

(** Witness of C23. *)
Lemma equalPaths_complete_witness :
  equal_leaf_depths (Node 4 (Node 2 (Node 1 NULL NULL) (Node 3 NULL NULL))
                            (Node 6 (Node 5 NULL NULL) (Node 7 NULL NULL))) /\
  equalPaths (Node 4 (Node 2 (Node 1 NULL NULL) (Node 3 NULL NULL))
                     (Node 6 (Node 5 NULL NULL) (Node 7 NULL NULL))) = true.
Proof.
  assert (U : equal_leaf_depths (Node 4 (Node 2 (Node 1 NULL NULL) (Node 3 NULL NULL))
                                        (Node 6 (Node 5 NULL NULL) (Node 7 NULL NULL)))).
  { intros d1 d2 H1 H2. vm_compute in H1, H2. intuition congruence. }
  split; [exact U | exact (equalPaths_complete _ U)].
Defined.

(** Witness of C24. *)
Lemma equalPaths_sound_full_witness :
  full (Node 4 (Node 2 (Node 1 NULL NULL) (Node 3 NULL NULL))
               (Node 6 (Node 5 NULL NULL) (Node 7 NULL NULL))) = true /\
  equalPaths (Node 4 (Node 2 (Node 1 NULL NULL) (Node 3 NULL NULL))
                     (Node 6 (Node 5 NULL NULL) (Node 7 NULL NULL))) = true /\
  equal_leaf_depths (Node 4 (Node 2 (Node 1 NULL NULL) (Node 3 NULL NULL))
                            (Node 6 (Node 5 NULL NULL) (Node 7 NULL NULL))).
Proof.
  split; [reflexivity|]. split; [reflexivity|].
  apply equalPaths_sound_full; reflexivity.
Defined.

End EqualPaths.
