(* ===== verification/EqualPathsTest.v ===== *)
(** The test driver [src/equal-paths-test.cpp].  It manages its nodes by
    hand: nine global [Node*] variables [a] ... [i], nodes created with
    [new Node(k)], linked with [setNode(n, key, left, right)] (which
    overwrites all three fields of the node [n] points to), and freed with
    [delete].  The tests share the nodes: each test re-links the same
    objects and prints [equalPaths(a)].  The model is a heap of cells indexed
    by address (a deleted cell is [None]), the globals, and the printed
    lines, threaded by a small state monad with failures ([NullDeref],
    [UseAfterFree]) and the outcome [Loops] for a walk that would not end
    (a cyclic structure).  [equalPaths] runs on the tree read from the heap
    ([load]); [load] reads every reachable node, a superset of what
    [equalPaths] reads, so an access error [load] does not meet cannot occur
    in the code.  Theorem: each test, run from any state in which the globals
    it uses point to pairwise distinct live nodes, prints the checker's
    verdict on exactly the tree its [setNode] calls describe, whatever the
    nodes held before, and changes neither the globals nor the earlier
    output; this is the property that makes the shared, re-linked nodes of
    [main] harmless. *)

From Stdlib Require Import ZArith List Lia String.
From S2P Require Import Prelude EqualPaths.
Import ListNotations.
Open Scope Z_scope.

Module EqualPathsTest.
Import EqualPaths.

(** ** State *)

(** A heap object [Node]: [key], [left], [right] ([None] is NULL). *)
Record cell : Type := Cell { c_key : Z; c_left : option nat; c_right : option nat }.

(** The global variables [Node* a, *b, ..., *i]. *)
Inductive gvar : Type := ga | gb | gc | gd | ge | gf | gg | gh | gi.

Definition gvar_eq_dec (x y : gvar) : {x = y} + {x <> y}.
Proof. decide equality. Defined.

Record state : Type := State {
  heap : list (option cell);
  globals : gvar -> option nat;
  out : list (string * bool)
}.

(** Globals have static storage: they start NULL. *)
Definition init : state := State [] (fun _ => None) [].

Inductive outcome (A : Type) : Type :=
| Done (a : A)
| Fail (e : error)
| Loops.
Arguments Done {A} a.
Arguments Fail {A} e.
Arguments Loops {A}.

Definition M (A : Type) : Type := state -> outcome (A * state).

Definition ret {A : Type} (a : A) : M A := fun s => Done (a, s).

Definition mbind {A B : Type} (m : M A) (k : A -> M B) : M B :=
  fun s => match m s with
           | Done (a, s') => k a s'
           | Fail e => Fail e
           | Loops => Loops
           end.

Declare Scope heap_scope.
Delimit Scope heap_scope with heap.
Notation "x <- m ;; k" := (mbind m (fun x => k))
  (at level 61, m at next level, right associativity) : heap_scope.
Notation "m ;;; k" := (mbind m (fun _ => k))
  (at level 61, right associativity) : heap_scope.
Local Open Scope heap_scope.

(** ** Operations *)

Definition get (x : gvar) : M (option nat) := fun s => Done (globals s x, s).

Definition set (x : gvar) (p : option nat) : M unit :=
  fun s => Done (tt, State (heap s)
                   (fun y => if gvar_eq_dec x y then p else globals s y) (out s)).

(** Replace the cell at an address (an address past the end is not reached). *)
Fixpoint update (h : list (option cell)) (i : nat) (c : option cell) : list (option cell) :=
  match h, i with
  | [], _ => []
  | _ :: h', O => c :: h'
  | x :: h', S j => x :: update h' j c
  end.

(** [new Node(k)]: a fresh cell with [key = k] and NULL children. *)
Definition new_node (k : Z) : M (option nat) :=
  fun s => Done (Some (List.length (heap s)),
                 State (heap s ++ [Some (Cell k None None)]) (globals s) (out s)).

(** [delete p]: NULL is a no-op; a deleted cell must not be deleted again. *)
Definition delete_node (p : option nat) : M unit :=
  fun s => match p with
           | None => Done (tt, s)
           | Some i =>
               match nth_error (heap s) i with
               | Some (Some _) => Done (tt, State (update (heap s) i None) (globals s) (out s))
               | _ => Fail UseAfterFree
               end
           end.

(** [setNode(n, key, left, right)]: [n->key = key; n->left = left;
    n->right = right]. *)
Definition setNode (n : option nat) (key : Z) (left right : option nat) : M unit :=
  fun s => match n with
           | None => Fail NullDeref
           | Some i =>
               match nth_error (heap s) i with
               | Some (Some _) =>
                   Done (tt, State (update (heap s) i (Some (Cell key left right)))
                                   (globals s) (out s))
               | _ => Fail UseAfterFree
               end
           end.

(** The tree under a pointer, read from the heap (left subtree first); the
    depth is bounded by the number of cells, beyond which the structure is
    cyclic. *)
Fixpoint load (fuel : nat) (h : list (option cell)) (p : option nat) : outcome node :=
  match p with
  | None => Done NULL
  | Some i =>
      match fuel with
      | O => Loops
      | S f =>
          match nth_error h i with
          | Some (Some c) =>
              match load f h (c_left c) with
              | Done l =>
                  match load f h (c_right c) with
                  | Done r => Done (Node (c_key c) l r)
                  | Fail e => Fail e
                  | Loops => Loops
                  end
              | Fail e => Fail e
              | Loops => Loops
              end
          | _ => Fail UseAfterFree
          end
      end
  end.

(** [cout << msg << ": " << equalPaths(a) << endl;] with the checker [chk]
    ([equalPaths] in the program). *)
Definition print_check (chk : node -> bool) (msg : string) : M unit :=
  pa <- get ga ;;
  fun s => match load (S (List.length (heap s))) (heap s) pa with
           | Done t => Done (tt, State (heap s) (globals s) (out s ++ [(msg, chk t)]))
           | Fail e => Fail e
           | Loops => Loops
           end.

(** ** The tests *)

Section Tests.
Variable chk : node -> bool.

Definition test1 : M unit :=
  a <- get ga ;;
  setNode a 1 None None ;;;
  print_check chk "Test1".

Definition test2 : M unit :=
  a <- get ga ;; b <- get gb ;;
  setNode a 1 b None ;;; setNode b 2 None None ;;;
  print_check chk "Test2".

Definition test3 : M unit :=
  a <- get ga ;; b <- get gb ;; c <- get gc ;;
  setNode a 1 b c ;;; setNode b 2 None None ;;; setNode c 3 None None ;;;
  print_check chk "Test3".

Definition test4 : M unit :=
  a <- get ga ;; c <- get gc ;;
  setNode a 1 None c ;;; setNode c 3 None None ;;;
  print_check chk "Test4".

Definition test5 : M unit :=
  a <- get ga ;; b <- get gb ;; c <- get gc ;; d <- get gd ;;
  setNode a 1 b c ;;; setNode b 2 None d ;;; setNode c 3 None None ;;;
  setNode d 4 None None ;;;
  print_check chk "Test5".

Definition falsetest3 : M unit :=
  a <- get ga ;; b <- get gb ;; c <- get gc ;; d <- get gd ;; e <- get ge ;;
  f <- get gf ;; g <- get gg ;; h <- get gh ;; i <- get gi ;;
  setNode a 1 None b ;;; setNode b 3 c d ;;; setNode c 2 None None ;;;
  setNode d 8 e f ;;; setNode e 6 g h ;;; setNode f 9 None None ;;;
  setNode g 5 i None ;;; setNode h 7 None None ;;; setNode i 4 None None ;;;
  print_check chk "FalseTest3".

(** [x = new Node(k)]. *)
Definition alloc (x : gvar) (k : Z) : M unit := p <- new_node k ;; set x p.

(** [delete x]. *)
Definition free (x : gvar) : M unit := p <- get x ;; delete_node p.

Definition main : M unit :=
  alloc ga 1 ;;; alloc gb 2 ;;; alloc gc 3 ;;; alloc gd 4 ;;;
  test1 ;;; test2 ;;; test3 ;;; test4 ;;; test5 ;;;
  free ga ;;; free gb ;;; free gc ;;; free gd ;;;
  alloc ga 1 ;;; alloc gb 3 ;;; alloc gc 2 ;;; alloc gd 8 ;;; alloc ge 6 ;;;
  alloc gf 9 ;;; alloc gg 5 ;;; alloc gh 7 ;;; alloc gi 4 ;;;
  falsetest3 ;;;
  free ga ;;; free gb ;;; free gc ;;; free gd ;;; free ge ;;;
  free gf ;;; free gg ;;; free gh ;;; free gi.

End Tests.

(** ** The tests do not depend on what earlier tests left in the nodes *)

Section Independence.
Variable chk : node -> bool.

Lemma length_update h i c : List.length (update h i c) = List.length h.
Proof. revert i; induction h as [|x h IH]; intros [|i]; cbn; auto. Qed.

Lemma nth_error_update_same h i c : (i < List.length h)%nat -> nth_error (update h i c) i = Some c.
Proof. revert i; induction h as [|x h IH]; intros [|i] Hi; cbn in *; try lia; auto. apply IH. lia. Qed.

Lemma nth_error_update_other h i j c : i <> j -> nth_error (update h i c) j = nth_error h j.
Proof.
  revert i j; induction h as [|x h IH]; intros [|i] [|j] Hij; cbn; auto; try congruence.
Qed.

Lemma nth_error_lt {A : Type} (h : list A) i x : nth_error h i = Some x -> (i < List.length h)%nat.
Proof. intros H. apply nth_error_Some. congruence. Qed.

(** [setNode] on a live node. *)
Lemma setNode_live s i k l r c :
  nth_error (heap s) i = Some (Some c) ->
  setNode (Some i) k l r s = Done (tt, State (update (heap s) i (Some (Cell k l r))) (globals s) (out s)).
Proof. intros H. unfold setNode. now rewrite H. Qed.

Lemma load_mono f f' h p t : load f h p = Done t -> (f <= f')%nat -> load f' h p = Done t.
Proof.
  revert f' p t; induction f as [|f IH]; intros f' [i|] t H Hf; cbn in H |- *; try discriminate; try (destruct f'; exact H).
  destruct f' as [|f']; [lia|]. cbn in H |- *.
  destruct (nth_error h i) as [[c|]|]; try discriminate.
  destruct (load f h (c_left c)) as [lt| |] eqn:El; try discriminate.
  destruct (load f h (c_right c)) as [rt| |] eqn:Er; try discriminate.
  rewrite (IH f' _ _ El), (IH f' _ _ Er) by lia. exact H.
Qed.

(** Distinct live nodes fit in the heap. *)
Lemma live_length (h : list (option cell)) (xs : list nat) :
  NoDup xs -> (forall i, In i xs -> exists c, nth_error h i = Some (Some c)) ->
  (List.length xs <= List.length h)%nat.
Proof.
  intros Hnd Hl. rewrite <- (length_seq (List.length h) 0). apply NoDup_incl_length; [exact Hnd|].
  intros i Hi. destruct (Hl i Hi) as [c Hc]. apply in_seq. apply nth_error_lt in Hc. lia.
Qed.

(** [print_check] prints the verdict on the tree under [a], when the walk
    from [a] ends within the fuel. *)
Lemma print_check_done msg s f t :
  load f (heap s) (globals s ga) = Done t -> (f <= S (List.length (heap s)))%nat ->
  print_check chk msg s = Done (tt, State (heap s) (globals s) (out s ++ [(msg, chk t)])).
Proof.
  intros H Hf. unfold print_check, mbind, get. cbv beta iota. now rewrite (load_mono _ _ _ _ _ H Hf).
Qed.

(** The global [x] points to the live node at address [i]. *)
Definition live_at (s : state) (x : gvar) (i : nat) : Prop :=
  globals s x = Some i /\ exists c, nth_error (heap s) i = Some (Some c).

Ltac nodup_facts :=
  repeat match goal with
         | H : NoDup (_ :: _) |- _ =>
             let Hn := fresh "Hn" in apply NoDup_cons_iff in H as [Hn H]; cbn [In] in Hn
         | H : ~ (_ \/ _) |- _ => apply Decidable.not_or in H as [? H]
         | H : ~ False |- _ => clear H
         end.

Ltac neq := solve [ assumption | apply not_eq_sym; assumption ].

(** Look a cell up through the [setNode] updates made so far. *)
Ltac look :=
  cbn [heap globals out];
  repeat first
    [ rewrite nth_error_update_other by neq
    | rewrite nth_error_update_same by (rewrite ?length_update; eapply nth_error_lt; eassumption) ].

(** Run a test: read the globals, perform each [setNode] on its live node,
    then read the tree back for [print_check] with the number of nodes as
    fuel. *)
Ltac rw_globals :=
  repeat match goal with
         | Hg : globals ?s ?x = _ |- context [globals ?s ?x] => rewrite Hg
         end.

Ltac run_test :=
  lazymatch goal with
  | H : NoDup ?xs |- _ =>
      let n := eval cbn in (List.length xs) in
      let Hlen := fresh "Hlen" in
      assert (Hlen : (List.length xs <= List.length (heap _))%nat)
        by (apply live_length; [exact H | cbn [In]; intros ? Hin;
            repeat destruct Hin as [<-|Hin]; solve [eauto] || contradiction]);
      nodup_facts; cbn [List.length] in Hlen;
      eexists; unfold mbind, get; cbv beta iota;
      rw_globals;
      repeat (erewrite setNode_live by (look; eassumption); cbv beta iota);
      erewrite (print_check_done _ _ n);
        [ reflexivity
        | look; rw_globals; repeat (cbn [load c_left c_right c_key]; look); reflexivity
        | cbn [heap]; rewrite ?length_update; apply Nat.le_le_succ_r, Hlen ]
  end.

Lemma test1_prints s ia :
  live_at s ga ia -> NoDup [ia] ->
  exists h', test1 chk s = Done (tt, State h' (globals s) (out s ++ [("Test1"%string, chk (Node 1 NULL NULL))])).
Proof. intros [? [? ?]] ?. unfold test1. run_test. Qed.

Lemma test2_prints s ia ib :
  live_at s ga ia -> live_at s gb ib ->
  NoDup [ia; ib] ->
  exists h', test2 chk s =
             Done (tt, State h' (globals s) (out s ++ [("Test2"%string, chk (Node 1 (Node 2 NULL NULL) NULL))])).
Proof. intros [? [? ?]] [? [? ?]] ?. unfold test2. run_test. Qed.

Lemma test3_prints s ia ib ic :
  live_at s ga ia -> live_at s gb ib -> live_at s gc ic ->
  NoDup [ia; ib; ic] ->
  exists h', test3 chk s =
             Done (tt, State h' (globals s) (out s ++ [("Test3"%string, chk (Node 1 (Node 2 NULL NULL) (Node 3 NULL NULL)))])).
Proof. intros [? [? ?]] [? [? ?]] [? [? ?]] ?. unfold test3. run_test. Qed.

Lemma test4_prints s ia ic :
  live_at s ga ia -> live_at s gc ic ->
  NoDup [ia; ic] ->
  exists h', test4 chk s =
             Done (tt, State h' (globals s) (out s ++ [("Test4"%string, chk (Node 1 NULL (Node 3 NULL NULL)))])).
Proof. intros [? [? ?]] [? [? ?]] ?. unfold test4. run_test. Qed.

Lemma test5_prints s ia ib ic id :
  live_at s ga ia -> live_at s gb ib -> live_at s gc ic -> live_at s gd id ->
  NoDup [ia; ib; ic; id] ->
  exists h', test5 chk s =
             Done (tt, State h' (globals s) (out s ++ [("Test5"%string, chk (Node 1 (Node 2 NULL (Node 4 NULL NULL)) (Node 3 NULL NULL)))])).
Proof. intros [? [? ?]] [? [? ?]] [? [? ?]] [? [? ?]] ?. unfold test5. run_test. Qed.

Lemma falsetest3_prints s ia ib ic id ie if_ ig ih ii :
  live_at s ga ia -> live_at s gb ib -> live_at s gc ic -> live_at s gd id -> live_at s ge ie -> live_at s gf if_ -> live_at s gg ig -> live_at s gh ih -> live_at s gi ii ->
  NoDup [ia; ib; ic; id; ie; if_; ig; ih; ii] ->
  exists h', falsetest3 chk s =
             Done (tt, State h' (globals s) (out s ++ [("FalseTest3"%string, chk (Node 1 NULL (Node 3 (Node 2 NULL NULL)
                  (Node 8 (Node 6 (Node 5 (Node 4 NULL NULL) NULL) (Node 7 NULL NULL))
                          (Node 9 NULL NULL)))))])).
Proof. intros [? [? ?]] [? [? ?]] [? [? ?]] [? [? ?]] [? [? ?]] [? [? ?]] [? [? ?]] [? [? ?]] [? [? ?]] ?. unfold falsetest3. run_test. Qed.

End Independence.

(** C37. Every test of [equal-paths-test.cpp] prints the verdict of the
    checker on the tree its [setNode] calls describe, from any state in which
    the globals it uses point to pairwise distinct live nodes, whatever those
    nodes held before (stale keys, links into other nodes, cycles) and
    whatever else the heap holds: each [setNode] overwrites all three fields,
    so no link of an earlier test survives; the test only appends its one
    line to the output and leaves the globals as they were. *)
Theorem tests_print_their_tree (chk : node -> bool) (s : state) :
  (forall ia, live_at s ga ia -> NoDup [ia] ->
     exists h', test1 chk s =
       Done (tt, State h' (globals s) (out s ++ [("Test1"%string, chk (Node 1 NULL NULL))]))) /\
  (forall ia ib, live_at s ga ia -> live_at s gb ib -> NoDup [ia; ib] ->
     exists h', test2 chk s =
       Done (tt, State h' (globals s) (out s ++ [("Test2"%string, chk (Node 1 (Node 2 NULL NULL) NULL))]))) /\
  (forall ia ib ic, live_at s ga ia -> live_at s gb ib -> live_at s gc ic -> NoDup [ia; ib; ic] ->
     exists h', test3 chk s =
       Done (tt, State h' (globals s) (out s ++ [("Test3"%string, chk (Node 1 (Node 2 NULL NULL) (Node 3 NULL NULL)))]))) /\
  (forall ia ic, live_at s ga ia -> live_at s gc ic -> NoDup [ia; ic] ->
     exists h', test4 chk s =
       Done (tt, State h' (globals s) (out s ++ [("Test4"%string, chk (Node 1 NULL (Node 3 NULL NULL)))]))) /\
  (forall ia ib ic id, live_at s ga ia -> live_at s gb ib -> live_at s gc ic -> live_at s gd id -> NoDup [ia; ib; ic; id] ->
     exists h', test5 chk s =
       Done (tt, State h' (globals s) (out s ++ [("Test5"%string, chk (Node 1 (Node 2 NULL (Node 4 NULL NULL)) (Node 3 NULL NULL)))]))) /\
  (forall ia ib ic id ie if_ ig ih ii, live_at s ga ia -> live_at s gb ib -> live_at s gc ic -> live_at s gd id -> live_at s ge ie -> live_at s gf if_ -> live_at s gg ig -> live_at s gh ih -> live_at s gi ii -> NoDup [ia; ib; ic; id; ie; if_; ig; ih; ii] ->
     exists h', falsetest3 chk s =
       Done (tt, State h' (globals s) (out s ++ [("FalseTest3"%string, chk (Node 1 NULL (Node 3 (Node 2 NULL NULL)
            (Node 8 (Node 6 (Node 5 (Node 4 NULL NULL) NULL) (Node 7 NULL NULL))
                    (Node 9 NULL NULL)))))]))).
Proof.
  repeat split; intros.
  - eapply test1_prints; eauto.
  - eapply test2_prints; eauto.
  - eapply test3_prints; eauto.
  - eapply test4_prints; eauto.
  - eapply test5_prints; eauto.
  - eapply falsetest3_prints; eauto.
Qed.

(** A heap left with stale keys and cyclic links. *)
Definition stale_state : state :=
  State [Some (Cell 7 (Some 1%nat) (Some 0%nat)); Some (Cell 5 (Some 0%nat) None); Some (Cell 9 None (Some 2%nat));
         Some (Cell 0 (Some 8%nat) (Some 3%nat)); Some (Cell 2 None None); Some (Cell 1 (Some 4%nat) (Some 4%nat));
         Some (Cell 3 None None); Some (Cell 8 (Some 6%nat) None); Some (Cell 4 (Some 7%nat) (Some 0%nat))]
        (fun x => match x with
                  | ga => Some 0%nat | gb => Some 1%nat | gc => Some 2%nat | gd => Some 3%nat
                  | ge => Some 4%nat | gf => Some 5%nat | gg => Some 6%nat | gh => Some 7%nat
                  | gi => Some 8%nat
                  end)
        [].

Lemma tests_print_their_tree_witness :
  (exists h', test5 equalPaths stale_state =
     Done (tt, State h' (globals stale_state)
                [("Test5"%string, false)])) /\
  (exists h', falsetest3 equalPaths stale_state =
     Done (tt, State h' (globals stale_state)
                [("FalseTest3"%string, false)])).
Proof.
  destruct (tests_print_their_tree equalPaths stale_state) as (_ & _ & _ & _ & H5 & HF).
  split.
  - destruct (H5 0 1 2 3)%nat as [h' E];
      [.. | exists h'; rewrite E; reflexivity];
      first [split; [reflexivity | eexists; reflexivity] | repeat constructor; cbn; lia].
  - destruct (HF 0 1 2 3 4 5 6 7 8)%nat as [h' E];
      [.. | exists h'; rewrite E; reflexivity];
      first [split; [reflexivity | eexists; reflexivity] | repeat constructor; cbn; lia].
Defined.


End EqualPathsTest.
