(* ===== verification/MapSpec.v ===== *)
(** The ordered-map contract.  A tree stands for the finite map (stdpp's
    [gmap Z V]) of its in-order items, [to_map].  The contract a map class
    offers its clients is the interface [MapOps] (the operations, an
    invariant and the abstraction) with two classes of laws:
    [InsertLookupLaws] (empty, [insert] is map insertion, [operator[]] is map
    lookup, the invariant is kept) and [RemoveLaws] ([remove] is map
    deletion).  A client, [run], replays a sequence of [insert], [remove] and
    [operator[]] calls and records what the lookups return; [run_refines]
    proves once, against the interface, that any lawful implementation
    returns what the same calls on a [gmap] return.  The C++ classes are the
    instances: [BinarySearchTree] ([bst_map], a wrapper of its [root_])
    satisfies both classes of laws; [AVLTree] ([avl_map]) satisfies the
    insertion and lookup laws but not the removal law (the root bug of
    [AVLTree::remove], proved in [AvlRemove]), so its refinement is stated
    for insertions and lookups.  [apply_ops] replays the calls and keeps the
    object; iterating the resulting [BinarySearchTree] with [Iterator]'s
    begin/[operator++] loop yields exactly the bindings of the map, in key
    order. *)

From stdpp Require Import base gmap.
From Stdlib Require Import ZArith List Lia Sorted.
From S2P Require Import Prelude Tree Bst Avl AvlRemove Iterator.
Open Scope Z_scope.

Module MapRefinement.

(** ** Abstraction and interface *)

(** The finite map a tree stands for. *)
Definition to_map {V : Type} (t : tree V) : gmap Z V := list_to_map (elements t).

(** The value of [operator[]] as an option: [std::out_of_range] is [None]. *)
Definition result_opt {A : Type} (r : result A) : option A :=
  match r with Ok a => Some a | Err _ => None end.

(** What an ordered-map class offers: its operations, the invariant its
    objects keep and the map each object stands for. *)
Class MapOps (V T : Type) := {
  om_empty : T;
  om_insert : Z -> V -> T -> T;
  om_remove : Z -> T -> T;
  om_lookup : Z -> T -> option V;
  om_inv : T -> Prop;
  om_abs : T -> gmap Z V
}.

Class InsertLookupLaws (V T : Type) `{MapOps V T} : Prop := {
  om_inv_empty : om_inv om_empty;
  om_abs_empty : om_abs om_empty = ∅;
  om_inv_insert k v t : om_inv t -> om_inv (om_insert k v t);
  om_abs_insert k v t : om_inv t -> om_abs (om_insert k v t) = <[k:=v]> (om_abs t);
  om_lookup_abs k t : om_inv t -> om_lookup k t = om_abs t !! k
}.

Class RemoveLaws (V T : Type) `{MapOps V T} : Prop := {
  om_inv_remove k t : om_inv t -> om_inv (om_remove k t);
  om_abs_remove k t : om_inv t -> om_abs (om_remove k t) = delete k (om_abs t)
}.

(** ** The two C++ classes *)

(** A [BinarySearchTree] object: its [root_]. *)
Record bst_map (V : Type) := BstMap { bst_root : tree V }.
Arguments BstMap {V} _.
Arguments bst_root {V} _.

(** An [AVLTree] object. *)
Record avl_map (V : Type) := AvlMap { avl_root : tree V }.
Arguments AvlMap {V} _.
Arguments avl_root {V} _.

(** [BinarySearchTree::remove] dereferences NULL in none of the trees the
    class builds ([bst_remove_contents]); the [Err] branch keeps the object. *)
#[export] Instance bst_map_ops {V : Type} : MapOps V (bst_map V) := {|
  om_empty := BstMap Leaf;
  om_insert k v m := BstMap (BinarySearchTree.insert k v (bst_root m));
  om_remove k m :=
    match BinarySearchTree.remove k (bst_root m) with
    | Ok t => BstMap t
    | Err _ => m
    end;
  om_lookup k m := result_opt (BinarySearchTree.operator_subscript k (bst_root m));
  om_inv m := bst (bst_root m);
  om_abs m := to_map (bst_root m)
|}.

(** [AVLTree] inherits [operator[]] from [BinarySearchTree]. *)
#[export] Instance avl_map_ops {V : Type} : MapOps V (avl_map V) := {|
  om_empty := AvlMap Leaf;
  om_insert k v m := AvlMap (AVLTree.insert k v (avl_root m));
  om_remove k m := AvlMap (AVLTree.remove k (avl_root m));
  om_lookup k m := result_opt (BinarySearchTree.operator_subscript k (avl_root m));
  om_inv m := avl (avl_root m) /\ bst (avl_root m);
  om_abs m := to_map (avl_root m)
|}.

(** ** A client of the interface *)

Section Client.
Context {V T : Type} `{MapOps V T}.

(** A call on the map object. *)
Inductive op : Type :=
| OpInsert (k : Z) (v : V)
| OpRemove (k : Z)
| OpLookup (k : Z).

Definition is_remove (o : op) : bool :=
  match o with OpRemove _ => true | _ => false end.

(** Replay the calls on an object; the results of the lookups. *)
Fixpoint run (ops : list op) (t : T) : list (option V) :=
  match ops with
  | [] => []
  | OpInsert k v :: os => run os (om_insert k v t)
  | OpRemove k :: os => run os (om_remove k t)
  | OpLookup k :: os => om_lookup k t :: run os t
  end.

(** The same calls on a finite map. *)
Fixpoint run_spec (ops : list op) (m : gmap Z V) : list (option V) :=
  match ops with
  | [] => []
  | OpInsert k v :: os => run_spec os (<[k:=v]> m)
  | OpRemove k :: os => run_spec os (delete k m)
  | OpLookup k :: os => m !! k :: run_spec os m
  end.

(** The object after the calls (lookups do not change it). *)
Fixpoint apply_ops (ops : list op) (t : T) : T :=
  match ops with
  | [] => t
  | OpInsert k v :: os => apply_ops os (om_insert k v t)
  | OpRemove k :: os => apply_ops os (om_remove k t)
  | OpLookup _ :: os => apply_ops os t
  end.

(** The finite map after the same calls. *)
Fixpoint apply_spec (ops : list op) (m : gmap Z V) : gmap Z V :=
  match ops with
  | [] => m
  | OpInsert k v :: os => apply_spec os (<[k:=v]> m)
  | OpRemove k :: os => apply_spec os (delete k m)
  | OpLookup _ :: os => apply_spec os m
  end.

End Client.
Arguments op : clear implicits.

(** ** Sorted association lists as finite maps *)

Section AssocMaps.
Context {V : Type}.
Implicit Types (l : list (Z * V)).

Lemma lookup_list_to_map l k : (list_to_map l : gmap Z V) !! k = assoc_find k l.
Proof.
  induction l as [|[k' v'] l IH]; [apply lookup_empty|].
  rewrite list_to_map_cons. cbn [assoc_find]. destruct (Z.eqb_spec k k') as [->|Hne].
  - apply lookup_insert_eq.
  - rewrite lookup_insert_ne by congruence. exact IH.
Qed.

Lemma assoc_find_In l k v :
  StronglySorted Z.lt (map fst l) -> assoc_find k l = Some v <-> In (k, v) l.
Proof.
  induction l as [|[k' v'] l IH]; intros Hs; cbn [assoc_find In]; [split; [discriminate|tauto]|].
  cbn [map fst] in Hs. apply StronglySorted_inv in Hs as [Hs Hl]. rewrite Forall_forall in Hl.
  destruct (Z.eqb_spec k k') as [->|Hne].
  - split; [intros [= ->]; now left|]. intros [[= ->]|Hin]; [reflexivity|].
    specialize (Hl k' (in_map fst _ _ Hin)). lia.
  - rewrite IH by exact Hs. split; [now right|]. intros [[= -> ->]|Hin]; [congruence|exact Hin].
Qed.

Lemma assoc_find_put l k v i :
  assoc_find i (assoc_put k v l) = if i =? k then Some v else assoc_find i l.
Proof.
  induction l as [|[k' v'] l IH]; [reflexivity|]. cbn [assoc_put].
  destruct (Z.ltb_spec k k'); [reflexivity|].
  destruct (Z.ltb_spec k' k); cbn [assoc_find].
  - rewrite IH. destruct (Z.eqb_spec i k'), (Z.eqb_spec i k); subst; auto; lia.
  - replace k' with k by lia. destruct (Z.eqb_spec i k); reflexivity.
Qed.

Lemma assoc_find_below l k x :
  Forall (Z.lt k) (map fst l) -> x <= k -> assoc_find x l = None.
Proof.
  intros Hl Hx. apply assoc_find_absent. intros Hin.
  rewrite Forall_forall in Hl. specialize (Hl x Hin). lia.
Qed.

Lemma assoc_find_del l k i :
  StronglySorted Z.lt (map fst l) ->
  assoc_find i (assoc_del k l) = if i =? k then None else assoc_find i l.
Proof.
  induction l as [|[k' v'] l IH]; intros Hs; [now destruct (i =? k)|].
  apply StronglySorted_inv in Hs as [Hs Hl]. cbn [assoc_del].
  destruct (Z.ltb_spec k k').
  - destruct (Z.eqb_spec i k) as [Hik|]; [subst i|reflexivity].
    cbn [assoc_find]. destruct (Z.eqb_spec k k'); [lia|].
    apply (assoc_find_below l k'); [exact Hl | lia].
  - destruct (Z.ltb_spec k' k); cbn [assoc_find].
    + rewrite IH by exact Hs. destruct (Z.eqb_spec i k'), (Z.eqb_spec i k); subst; auto; lia.
    + replace k' with k in * by lia.
      destruct (Z.eqb_spec i k) as [Hik|]; [subst i|reflexivity].
      apply (assoc_find_below l k); [exact Hl | lia].
Qed.

Lemma list_to_map_put l k v :
  (list_to_map (assoc_put k v l) : gmap Z V) = <[k:=v]> (list_to_map l).
Proof.
  apply map_eq. intros i. rewrite !lookup_list_to_map, assoc_find_put.
  destruct (Z.eqb_spec i k) as [->|Hne].
  - now rewrite lookup_insert_eq.
  - now rewrite lookup_insert_ne, lookup_list_to_map by congruence.
Qed.

Lemma list_to_map_del l k :
  StronglySorted Z.lt (map fst l) ->
  (list_to_map (assoc_del k l) : gmap Z V) = delete k (list_to_map l).
Proof.
  intros Hs. apply map_eq. intros i. rewrite lookup_list_to_map, assoc_find_del by exact Hs.
  destruct (Z.eqb_spec i k) as [->|Hne].
  - now rewrite lookup_delete_eq.
  - now rewrite lookup_delete_ne, lookup_list_to_map by congruence.
Qed.

(** [operator[]] on an ordered tree is a lookup in the map it stands for. *)
Lemma subscript_lookup k (t : tree V) :
  bst t -> result_opt (BinarySearchTree.operator_subscript k t) = to_map t !! k.
Proof.
  intros Hs. rewrite BinarySearchTree.subscript_contents by exact Hs.
  unfold to_map. rewrite lookup_list_to_map. now destruct (assoc_find k (elements t)).
Qed.

End AssocMaps.

(** ** The BST and AVL classes against the interface *)

#[export] Instance bst_map_insert_laws {V : Type} : InsertLookupLaws V (bst_map V).
Proof.
  split; cbn.
  - constructor.
  - reflexivity.
  - intros k v [t] Hs. cbn in *. unfold bst, keys.
    rewrite BinarySearchTree.bst_insert_contents by exact Hs. apply assoc_put_sorted, Hs.
  - intros k v [t] Hs. cbn in *. unfold to_map.
    rewrite BinarySearchTree.bst_insert_contents by exact Hs. apply list_to_map_put.
  - intros k [t] Hs. apply subscript_lookup, Hs.
Qed.

#[export] Instance bst_map_remove_laws {V : Type} : RemoveLaws V (bst_map V).
Proof.
  split; intros k [t] Hs; cbn in *;
    destruct (BinarySearchTree.bst_remove_contents k t Hs) as (t' & -> & He);
    cbn; unfold bst, keys, to_map; rewrite He.
  - apply assoc_del_sorted, Hs.
  - apply list_to_map_del, Hs.
Qed.

#[export] Instance avl_map_insert_laws {V : Type} : InsertLookupLaws V (avl_map V).
Proof.
  split; cbn.
  - split; [exact I | constructor].
  - reflexivity.
  - intros k v [t] [Ha Hs]. cbn in *.
    split; [apply AVLInsertInv.insert_keeps_avl, Ha | apply AVLTree.insert_keeps_bst, Hs].
  - intros k v [t] [_ Hs]. cbn in *. unfold to_map.
    rewrite AVLTree.insert_contents by exact Hs. apply list_to_map_put.
  - intros k [t] [_ Hs]. apply subscript_lookup, Hs.
Qed.

(** ** Emptying a tree *)

Section Empty.
Context {V : Type}.

Lemma lookup_fold_delete_out (rs : list Z) (m : gmap Z V) k :
  ~ In k rs -> fold_left (fun m k => delete k m) rs m !! k = m !! k.
Proof.
  revert m; induction rs as [|r rs IH]; intros m Hk; [reflexivity|]. cbn [fold_left].
  rewrite IH by (intros H; apply Hk; now right).
  apply lookup_delete_ne. intros ->. apply Hk. now left.
Qed.

Lemma lookup_fold_delete_in (rs : list Z) (m : gmap Z V) k :
  In k rs -> fold_left (fun m k => delete k m) rs m !! k = None.
Proof.
  revert m; induction rs as [|r rs IH]; intros m Hin; [destruct Hin|].
  cbn [fold_left]. destruct (in_dec Z.eq_dec k rs) as [Hk|Hk]; [now apply IH|].
  destruct Hin as [<-|Hin]; [|contradiction].
  rewrite lookup_fold_delete_out by exact Hk. apply lookup_delete_eq.
Qed.

Lemma lookup_fold_insert_out (kvs : list (Z * V)) (m : gmap Z V) k :
  ~ In k (map fst kvs) -> fold_left (fun m kv => <[kv.1:=kv.2]> m) kvs m !! k = m !! k.
Proof.
  revert m; induction kvs as [|[k' v'] kvs IH]; intros m Hk; [reflexivity|]. cbn [fold_left].
  rewrite IH by (intros H; apply Hk; now right).
  apply lookup_insert_ne. cbn. intros ->. apply Hk. now left.
Qed.

Lemma to_map_empty (t : tree V) : to_map t = ∅ -> t = Leaf.
Proof.
  unfold to_map. destruct t as [|l k v b r]; [reflexivity|]. cbn [elements].
  destruct (elements l) as [|[k' v'] xs]; cbn [app]; rewrite list_to_map_cons;
    intros H; apply insert_non_empty in H; contradiction.
Qed.

End Empty.

(** ** Clients proved against the interface *)

Section ClientProofs.
Context {V T : Type} `{MapOps V T}.

Lemma run_inserts `{!InsertLookupLaws V T} ops t :
  Forall (fun o => is_remove o = false) ops -> om_inv t ->
  run ops t = run_spec ops (om_abs t).
Proof.
  revert t; induction ops as [|[k v|k|k] os IH]; intros t Hops Ht; [reflexivity|..];
    inversion Hops as [|? ? Ho Hos]; subst; cbn.
  - rewrite IH, om_abs_insert by auto using om_inv_insert. reflexivity.
  - discriminate.
  - rewrite om_lookup_abs, IH by auto. reflexivity.
Qed.

Lemma run_refines `{!InsertLookupLaws V T, !RemoveLaws V T} ops t :
  om_inv t -> run ops t = run_spec ops (om_abs t).
Proof.
  revert t; induction ops as [|[k v|k|k] os IH]; intros t Ht; [reflexivity|..]; cbn.
  - rewrite IH, om_abs_insert by auto using om_inv_insert. reflexivity.
  - rewrite IH, om_abs_remove by auto using om_inv_remove. reflexivity.
  - rewrite om_lookup_abs, IH by auto. reflexivity.
Qed.

Lemma apply_refines `{!InsertLookupLaws V T, !RemoveLaws V T} ops t :
  om_inv t -> om_inv (apply_ops ops t) /\ om_abs (apply_ops ops t) = apply_spec ops (om_abs t).
Proof.
  revert t; induction ops as [|[k v|k|k] os IH]; intros t Ht; cbn; [auto|..].
  - rewrite <- om_abs_insert by exact Ht. apply IH, om_inv_insert, Ht.
  - rewrite <- om_abs_remove by exact Ht. apply IH, om_inv_remove, Ht.
  - apply IH, Ht.
Qed.

End ClientProofs.

Lemma bst_inserts {V : Type} (kvs : list (Z * V)) (t : tree V) :
  bst t ->
  bst (fold_left (fun t kv => BinarySearchTree.insert kv.1 kv.2 t) kvs t) /\
  to_map (fold_left (fun t kv => BinarySearchTree.insert kv.1 kv.2 t) kvs t) =
  fold_left (fun m kv => <[kv.1:=kv.2]> m) kvs (to_map t).
Proof.
  revert t; induction kvs as [|[k v] kvs IH]; intros t Hs; [auto|]. cbn [fold_left fst snd].
  pose proof (@om_inv_insert V (bst_map V) _ _ k v (BstMap t) Hs) as Hi.
  pose proof (@om_abs_insert V (bst_map V) _ _ k v (BstMap t) Hs) as Ha.
  change (bst (BinarySearchTree.insert k v t)) in Hi.
  change (to_map (BinarySearchTree.insert k v t) = <[k:=v]> (to_map t)) in Ha.
  rewrite <- Ha. apply IH, Hi.
Qed.

Lemma bst_removes {V : Type} (rs : list Z) (t : tree V) :
  bst t ->
  exists t', fold_left (fun r k => (let* t := r in BinarySearchTree.remove k t)%avl) rs (Ok t) =
    Ok t' /\ to_map t' = fold_left (fun m k => delete k m) rs (to_map t).
Proof.
  revert t; induction rs as [|k rs IH]; intros t Hs; [exists t; auto|]. cbn [fold_left bind].
  destruct (BinarySearchTree.bst_remove_contents k t Hs) as (t1 & E & He). rewrite E.
  assert (Hs1 : bst t1) by (unfold bst, keys; rewrite He; apply assoc_del_sorted, Hs).
  destruct (IH t1 Hs1) as (t' & E' & H'). exists t'. split; [exact E'|].
  rewrite H'. unfold to_map at 1. rewrite He, list_to_map_del by exact Hs. reflexivity.
Qed.

(** C31. Round trip on the [BinarySearchTree]: after inserting any items
    into an empty tree, removing every inserted key (in any order, possibly
    with other keys and repetitions) leaves the empty tree. *)
Theorem bst_insert_remove_all {V : Type} (kvs : list (Z * V)) (rs : list Z) :
  (forall k, In k (map fst kvs) -> In k rs) ->
  fold_left (fun r k => (let* t := r in BinarySearchTree.remove k t)%avl) rs
    (Ok (fold_left (fun t kv => BinarySearchTree.insert kv.1 kv.2 t) kvs Leaf)) = Ok Leaf.
Proof.
  intros Hall. destruct (bst_inserts kvs Leaf ltac:(constructor)) as [Hs Hm].
  destruct (bst_removes rs _ Hs) as (t' & E & Ht'). rewrite E. f_equal.
  apply to_map_empty. rewrite Ht', Hm. apply map_eq. intros k. rewrite lookup_empty.
  destruct (in_dec Z.eq_dec k rs) as [Hk|Hk].
  - apply lookup_fold_delete_in, Hk.
  - rewrite lookup_fold_delete_out, lookup_fold_insert_out by auto. apply lookup_empty.
Qed.

(** C26. A [BinarySearchTree] behaves as a finite map: for every sequence of
    [insert], [remove] and [operator[]] calls on an empty tree, the lookups
    return what the same calls on an empty [gmap] return. *)
Theorem bst_map_refines {V : Type} (ops : list (op V)) :
  run ops (BstMap (@Leaf V)) = run_spec ops ∅.
Proof. exact (run_refines ops om_empty om_inv_empty). Qed.

(** C27. An [AVLTree] behaves as a finite map for every sequence of
    [insert] and [operator[]] calls on an empty tree. *)
Theorem avl_map_refines_inserts {V : Type} (ops : list (op V)) :
  Forall (fun o => is_remove o = false) ops ->
  run ops (AvlMap (@Leaf V)) = run_spec ops ∅.
Proof. intros Hops. exact (run_inserts ops om_empty Hops om_inv_empty). Qed.

(** C28. Iterating a [BinarySearchTree] with the drivers' loop (from
    [begin()] with [operator++] until [end()]) after any sequence of
    [insert], [remove] and [operator[]] calls on an empty tree ends within
    [size] steps and visits exactly the bindings of the finite map the same
    calls build, each once, in strictly increasing key order; when that map
    is empty, [begin()] dereferences NULL. *)
Theorem bst_iteration_refines {V : Type} (ops : list (op V)) :
  let t := bst_root (apply_ops ops (BstMap (@Leaf V))) in
  match Iterator.traverse (size t) t with
  | Some (Ok xs) =>
      StronglySorted Z.lt (map fst xs) /\
      forall k v, In (k, v) xs <-> apply_spec ops ∅ !! k = Some v
  | Some (Err e) => e = NullDeref /\ apply_spec ops ∅ = ∅
  | None => False
  end.
Proof.
  cbn zeta. destruct (apply_refines (T := bst_map V) ops om_empty om_inv_empty) as [Hs Hm].
  rewrite om_abs_empty in Hm. rewrite <- Hm. cbn in Hs |- *.
  rewrite Iterator.traverse_contents.
  destruct (bst_root (apply_ops ops (BstMap Leaf))) as [|l k v b r] eqn:E; cbn [empty].
  - split; reflexivity.
  - split; [exact Hs|]. intros k' v'. unfold to_map. rewrite lookup_list_to_map.
    symmetry. apply assoc_find_In, Hs.
Qed.

(** Witness of C27: two insertions of the same key and two lookups. *)
Lemma avl_map_refines_inserts_witness :
  Forall (fun o => is_remove o = false)
    [OpInsert 3 30; OpInsert 3 31; OpLookup 3; OpLookup 4] /\
  run [OpInsert 3 30; OpInsert 3 31; OpLookup 3; OpLookup 4] (AvlMap (@Leaf Z)) =
  [Some 31; None].
Proof.
  assert (H : Forall (fun o => is_remove o = false)
                [OpInsert 3 30; OpInsert 3 31; OpLookup 3; OpLookup (V := Z) 4])
    by repeat constructor.
  split; [exact H|]. rewrite (avl_map_refines_inserts _ H). reflexivity.
Defined.

(** Witness of C31: insert 2, 1, 3 and remove 1, 3, 2. *)
Lemma bst_insert_remove_all_witness :
  (forall k, In k (map fst [(2,2);(1,1);(3,3)]) -> In k [1;3;2]) /\
  fold_left (fun r k => (let* t := r in BinarySearchTree.remove k t)%avl) [1;3;2]
    (Ok (fold_left (fun t kv => BinarySearchTree.insert kv.1 kv.2 t)
           [(2,2);(1,1);(3,3)] (@Leaf Z))) = Ok Leaf.
Proof.
  assert (H : forall k, In k (map fst [(2,2);(1,1);(3,3)]) -> In k [1;3;2]).
  { intros k Hk. cbn in *. intuition. }
  split; [exact H | exact (bst_insert_remove_all _ _ H)].
Defined.

(** Witness of C28: insert 2, 1, 3, remove 1, look 2 up. *)
Lemma bst_iteration_refines_witness :
  Iterator.traverse 2 (bst_root (apply_ops [OpInsert 2 20; OpInsert 1 10; OpInsert 3 30;
                                            OpRemove 1; OpLookup 2] (BstMap (@Leaf Z)))) =
    Some (Ok [(2, 20); (3, 30)]) /\
  (let t := bst_root (apply_ops [OpInsert 2 20; OpInsert 1 10; OpInsert 3 30;
                                 OpRemove 1; OpLookup 2] (BstMap (@Leaf Z))) in
   match Iterator.traverse (size t) t with
   | Some (Ok xs) =>
       StronglySorted Z.lt (map fst xs) /\
       forall k v, In (k, v) xs <-> apply_spec [OpInsert 2 20; OpInsert 1 10; OpInsert 3 30;
                                                OpRemove 1; OpLookup 2] ∅ !! k = Some v
   | Some (Err e) => e = NullDeref /\ apply_spec [OpInsert 2 20; OpInsert 1 10; OpInsert 3 30;
                                                   OpRemove 1; OpLookup 2] ∅ = ∅
   | None => False
   end).
Proof. split; [reflexivity | exact (bst_iteration_refines _)]. Defined.

End MapRefinement.
